(** * pdfTools: page ranges, splitting, merging and the compressor's cleanup

    A shallow embedding of the three command line tools of the repository

      - [pdf_splitter/split_pdf.py]     ([parse_ranges], [add_pages],
                                         [write_pdf], [split_pdf]),
      - [pdf_merger/merge_to_pdf.py]    ([add_file_to_merger],
                                         [merge_directory]),
      - [pdf_compressor/compress_pdf2.py] ([compress_pdf]),

    together with the small part of the Python runtime they lean on
    ([str.strip], [str.split], [int], [str.lower], [pathlib], [sorted],
    and a file system of directories and regular files).

    Python strings are modelled on ASCII text, integers as [Z], a PDF
    document as the list of its pages, exceptions as values of [exn];
    code that touches the file system runs in a state-and-exception monad
    over the file system.  Where a statement depends on what [str.lower],
    [str.strip] or [int] do, it is stated for text that [PyStr.isascii]
    accepts. *)

From Stdlib Require Import ZArith Ascii String List Lia.
From stdpp Require Import base tactics option list numbers strings pretty gmap sorting.

Set Default Proof Using "Type".

(** ** Exceptions *)

(** The exceptions the three tools raise or let through.  Messages are
    kept where the source builds them from its data. *)
Inductive exn : Type :=
  | ValueError (msg : string)
  | IndexError (msg : string)
  | FileExistsError (path : list string)
  | FileNotFoundError (path : list string)
  | IsADirectoryError (path : list string)
  | NotADirectoryError (path : list string)
  | SystemExit (msg : string)
  | PdfReadError (name : string)
  | UnidentifiedImageError (name : string)
  | CalledProcessError (returncode : Z).

Inductive exc (A : Type) : Type :=
  | Ok (a : A)
  | Err (e : exn).
Arguments Ok {A} a.
Arguments Err {A} e.

#[global] Instance exc_ret : MRet exc := λ A a, Ok a.
#[global] Instance exc_bind : MBind exc := λ A B k r,
  match r with
  | Ok a => k a
  | Err e => Err e
  end.

(** ** Python strings (ASCII)

    [str] is modelled on ASCII text, where [lower], [strip] and [int] have
    the simple behaviour written here.  On other text Python also knows
    further letters ([str.lower] folds every cased letter), further white
    space ([str.strip] removes the no-break space) and further digits
    ([int] reads the decimal digits of every script): such text is
    outside the model, and [isascii] marks its border.  [int] is modelled
    without the limit CPython puts on the number of digits of a literal. *)

Module PyStr.

(** [s.isascii()] *)
Definition is_ascii_char (c : ascii) : bool := (N_of_ascii c <? 128)%N.

Fixpoint isascii (s : string) : bool :=
  match s with
  | EmptyString => true
  | String c s' => is_ascii_char c && isascii s'
  end.

Definition is_digit (c : ascii) : bool :=
  let n := N_of_ascii c in ((48 <=? n) && (n <=? 57))%N.

Definition digit_val (c : ascii) : Z := Z.of_N (N_of_ascii c) - 48.

(** Whitespace of [str.strip()] on ASCII text: TAB LF VT FF CR,
    FS GS RS US, and the space. *)
Definition is_space (c : ascii) : bool :=
  let n := N_of_ascii c in
  ((9 <=? n) && (n <=? 13) || (28 <=? n) && (n <=? 31) || (n =? 32))%N.

(** Whitespace skipped by [int()] around an ASCII literal ([Py_ISSPACE]). *)
Definition is_int_space (c : ascii) : bool :=
  let n := N_of_ascii c in
  ((9 <=? n) && (n <=? 13) || (n =? 32))%N.

Fixpoint lstrip (s : string) : string :=
  match s with
  | EmptyString => EmptyString
  | String c s' => if is_space c then lstrip s' else s
  end.

Fixpoint rstrip (s : string) : string :=
  match s with
  | EmptyString => EmptyString
  | String c s' =>
      match rstrip s' with
      | EmptyString => if is_space c then EmptyString else String c EmptyString
      | r => String c r
      end
  end.

(** [s.strip()] *)
Definition strip (s : string) : string := rstrip (lstrip s).

(** [s.split(sep)] for a one-character separator: never empty. *)
Fixpoint split (sep : ascii) (s : string) : list string :=
  match s with
  | EmptyString => [EmptyString]
  | String c s' =>
      if Ascii.eqb c sep then EmptyString :: split sep s'
      else match split sep s' with
           | w :: ws => String c w :: ws
           | [] => [String c EmptyString]
           end
  end.

(** [sep in s] *)
Fixpoint contains (sep : ascii) (s : string) : bool :=
  match s with
  | EmptyString => false
  | String c s' => Ascii.eqb c sep || contains sep s'
  end.

(** [s.split(sep, 1)] when [sep in s]: the text before the first
    separator and the text after it. *)
Fixpoint split_once (sep : ascii) (s : string) : string * string :=
  match s with
  | EmptyString => (EmptyString, EmptyString)
  | String c s' =>
      if Ascii.eqb c sep then (EmptyString, s')
      else let '(x, y) := split_once sep s' in (String c x, y)
  end.

Fixpoint all_int_space (s : string) : bool :=
  match s with
  | EmptyString => true
  | String c s' => is_int_space c && all_int_space s'
  end.

Fixpoint lstrip_int (s : string) : string :=
  match s with
  | EmptyString => EmptyString
  | String c s' => if is_int_space c then lstrip_int s' else s
  end.

(** The digits of a base-10 literal: single underscores may separate
    digits, trailing whitespace is allowed, nothing else. *)
Fixpoint scan_digits (acc : Z) (prev_us : bool) (s : string) : option Z :=
  match s with
  | EmptyString => if prev_us then None else Some acc
  | String c s' =>
      if is_digit c then scan_digits (10 * acc + digit_val c) false s'
      else if Ascii.eqb c "_" then
        if prev_us then None else scan_digits acc true s'
      else if prev_us then None
      else if all_int_space s then Some acc else None
  end.

Definition int_unsigned (s : string) : option Z :=
  match s with
  | String c _ => if is_digit c then scan_digits 0 false s else None
  | EmptyString => None
  end.

Definition int_signed (s : string) : option Z :=
  match s with
  | String "+" s' => int_unsigned s'
  | String "-" s' => Z.opp <$> int_unsigned s'
  | _ => int_unsigned s
  end.

(** [int(s)]: [None] stands for the [ValueError] of an invalid literal. *)
Definition int_opt (s : string) : option Z := int_signed (lstrip_int s).

Definition int (s : string) : exc Z :=
  match int_opt s with
  | Some z => Ok z
  | None => Err (ValueError ("invalid literal for int() with base 10: " +:+ s))
  end.

Definition lower_char (c : ascii) : ascii :=
  let n := N_of_ascii c in
  if ((65 <=? n) && (n <=? 90))%N then ascii_of_N (n + 32) else c.

(** [s.lower()] *)
Fixpoint lower (s : string) : string :=
  match s with
  | EmptyString => EmptyString
  | String c s' => String (lower_char c) (lower s')
  end.

(** The split of a file name at its last dot, [(name[:i], name[i:])]
    with [i = name.rfind(".")]; [None] when the name has no dot. *)
Fixpoint rsplit_dot (s : string) : option (string * string) :=
  match s with
  | EmptyString => None
  | String c s' =>
      match rsplit_dot s' with
      | Some (x, y) => Some (String c x, y)
      | None => if Ascii.eqb c "." then Some (EmptyString, s) else None
      end
  end.

(** [PurePath.suffix] and [PurePath.stem] of a final component: the
    last dot counts when [0 < i < len(name) - 1]. *)
Definition suffix (name : string) : string :=
  match rsplit_dot name with
  | Some (x, y) =>
      if bool_decide (x ≠ EmptyString ∧ y ≠ ".") then y else EmptyString
  | None => EmptyString
  end.

Definition stem (name : string) : string :=
  match rsplit_dot name with
  | Some (x, y) =>
      if bool_decide (x ≠ EmptyString ∧ y ≠ ".") then x else name
  | None => name
  end.

Fixpoint all_dots (s : string) : bool :=
  match s with
  | EmptyString => true
  | String c s' => Ascii.eqb c "." && all_dots s'
  end.

(** [os.path.splitext] of a file name: leading dots do not start an
    extension. *)
Definition splitext (name : string) : string * string :=
  match rsplit_dot name with
  | Some (x, y) => if all_dots x then (name, EmptyString) else (x, y)
  | None => (name, EmptyString)
  end.

End PyStr.

(** ** split_pdf.py: range specifications *)

Section parse_ranges.

Import PyStr.

(** The body of the [for part in ranges_str.split(",")] loop of
    [parse_ranges], with [result] the list built so far. *)
Fixpoint parse_parts (parts : list string) (result : list (Z * Z))
  : exc (list (Z * Z)) :=
  match parts with
  | [] => Ok result
  | part :: rest =>
      let part := strip part in
      if contains "-" part then
        let '(x, y) := split_once "-" part in
        a ← int x;
        b ← int y;
        if (a >? b)%Z then
          Err (ValueError ("Range start > end in '" +:+ part +:+ "'"))
        else parse_parts rest (result ++ [(a, b)])
      else
        p ← int part;
        parse_parts rest (result ++ [(p, p)])
  end.

Definition parse_ranges (ranges_str : string) : exc (list (Z * Z)) :=
  parse_parts (split "," ranges_str) [].

End parse_ranges.

(** ** The file system *)

(** A path is the list of its components, the final component first:
    [parent] is the tail and [dir / name] is [name :: dir].  The root
    (the empty path) always exists and is a directory. *)
Abbreviation path := (list string).

Definition parent (p : path) : path := tail p.
Definition name (p : path) : string := default EmptyString (head p).

(** [str(path)] *)
Definition str_path (p : path) : string := String.concat "/" (reverse p).

Section Model.

(** Pages and images are opaque.  What a regular file holds: a PDF
    document; an image Pillow opens and can save as PDF; an image Pillow
    opens but whose mode its PDF writer refuses (16-bit grey, for one);
    anything else. *)
Context {Page Image : Type}.

Inductive content : Type :=
  | Pdf (pages : list Page)
  | Picture (img : Image)
  | Unsavable (img : Image)
  | Data (bytes : string).

Inductive node : Type :=
  | Dir
  | File (c : content).

Inductive outcome (A : Type) : Type :=
  | Done (a : A) (st : gmap path node)
  | Raised (e : exn) (st : gmap path node).
#[global] Arguments Done {A} a st.
#[global] Arguments Raised {A} e st.

(** Code with effects on the file system: state and exceptions.  The
    state an exception leaves behind is kept. *)
Definition M (A : Type) : Type := gmap path node → outcome A.

#[global] Instance M_ret : MRet M := λ A a st, Done a st.
#[global] Instance M_bind : MBind M := λ A B k m st,
  match m st with
  | Done a st' => k a st'
  | Raised e st' => Raised e st'
  end.

Definition raise {A} (e : exn) : M A := λ st, Raised e st.

Definition lift {A} (r : exc A) : M A :=
  match r with
  | Ok a => mret a
  | Err e => raise e
  end.

(** [for x in xs: body(x)] *)
Fixpoint for_each {A} (xs : list A) (body : A → M unit) : M unit :=
  match xs with
  | [] => mret tt
  | x :: xs' => body x ≫= λ _, for_each xs' body
  end.

Definition node_at (st : gmap path node) (p : path) : option node :=
  match p with
  | [] => Some Dir
  | _ => st !! p
  end.

(** [Path.exists], [Path.is_dir], [Path.is_file] *)
Definition path_exists (p : path) : M bool := λ st,
  Done (bool_decide (is_Some (node_at st p))) st.

Definition is_dir (st : gmap path node) (p : path) : bool :=
  match node_at st p with
  | Some Dir => true
  | _ => false
  end.

Definition is_file (st : gmap path node) (p : path) : bool :=
  match node_at st p with
  | Some (File _) => true
  | _ => false
  end.

(** [os.mkdir(p)] *)
Definition os_mkdir (p : path) : M unit := λ st,
  match node_at st p with
  | Some _ => Raised (FileExistsError p) st
  | None =>
      match node_at st (parent p) with
      | None => Raised (FileNotFoundError p) st
      | Some (File _) => Raised (NotADirectoryError p) st
      | Some Dir => Done tt (<[p := Dir]> st)
      end
  end.

(** [Path.mkdir(parents=False, exist_ok=True)] *)
Definition mkdir_exist_ok (p : path) : M unit := λ st,
  match os_mkdir p st with
  | Done _ st' => Done tt st'
  | Raised (FileNotFoundError q) st' => Raised (FileNotFoundError q) st'
  | Raised e st' => if is_dir st' p then Done tt st' else Raised e st'
  end.

(** [Path.mkdir(parents=True, exist_ok=True)] *)
Fixpoint mkdir_parents (p : path) : M unit := λ st,
  match os_mkdir p st with
  | Done _ st' => Done tt st'
  | Raised (FileNotFoundError q) st' =>
      match p with
      | [] => Raised (FileNotFoundError q) st'
      | _ :: dir =>
          match mkdir_parents dir st' with
          | Done _ st'' => mkdir_exist_ok p st''
          | Raised e st'' => Raised e st''
          end
      end
  | Raised e st' => if is_dir st' p then Done tt st' else Raised e st'
  end.

(** [open(p, "wb")] followed by writing the whole of [c]. *)
Definition open_write (p : path) (c : content) : M unit := λ st,
  match node_at st p with
  | Some Dir => Raised (IsADirectoryError p) st
  | _ =>
      match node_at st (parent p) with
      | None => Raised (FileNotFoundError p) st
      | Some (File _) => Raised (NotADirectoryError p) st
      | Some Dir => Done tt (<[p := File c]> st)
      end
  end.

(** [os.remove(p)] *)
Definition os_remove (p : path) : M unit := λ st,
  match node_at st p with
  | None => Raised (FileNotFoundError p) st
  | Some Dir => Raised (IsADirectoryError p) st
  | Some (File _) => Done tt (delete p st)
  end.

(** A regular file sits above [p], where a directory should be: the
    system refuses to look [p] up ([ENOTDIR]). *)
Fixpoint under_file (st : gmap path node) (p : path) : bool :=
  match p with
  | [] => false
  | _ :: dir => is_file st dir || under_file st dir
  end.

(** [PdfReader(str(p))]: the pages of the document stored at [p]. *)
Definition PdfReader (p : path) : M (list Page) := λ st,
  match node_at st p with
  | None =>
      if under_file st p then Raised (NotADirectoryError p) st
      else Raised (FileNotFoundError p) st
  | Some Dir => Raised (IsADirectoryError p) st
  | Some (File (Pdf pages)) => Done pages st
  | Some (File _) => Raised (PdfReadError (name p)) st
  end.

(** *** split_pdf.py *)

(** [range(a, b)] *)
Definition py_range (a b : Z) : list Z := seqZ a (b - a).

(** [enumerate(xs, start)] *)
Fixpoint enumerate {A} (start : Z) (xs : list A) : list (Z * A) :=
  match xs with
  | [] => []
  | x :: xs' => (start, x) :: enumerate (start + 1) xs'
  end.

(** The loop of [add_pages] over the indices still to visit; [writer]
    is the page list of the [PdfWriter] and [reader] is [reader.pages]. *)
Fixpoint add_pages_loop (writer reader : list Page) (idxs : list Z)
  : exc (list Page) :=
  match idxs with
  | [] => Ok writer
  | i :: rest =>
      if (i >=? Z.of_nat (length reader))%Z || (i <? 0)%Z then
        Err (IndexError ("Page " +:+ pretty (i + 1)%Z +:+ " is out of bounds"))
      else
        match reader !! Z.to_nat i with
        | Some page => add_pages_loop (writer ++ [page]) reader rest
        | None => Err (IndexError "sequence index out of range")
        end
  end.

Definition add_pages (writer reader : list Page) (start end_ : Z)
  : exc (list Page) :=
  add_pages_loop writer reader (py_range (start - 1) end_).

Definition write_pdf (writer : list Page) (p : path) (overwrite : bool)
  : M unit :=
  ex ← path_exists p;
  if ex && negb overwrite then raise (FileExistsError p)
  else
    mkdir_parents (parent p);;
    open_write p (Pdf writer).

Definition page_path (src dest_dir : path) (page_no : Z) : path :=
  (PyStr.stem (name src) +:+ "_p" +:+ pretty page_no +:+ ".pdf") :: dest_dir.

Definition range_label (start end_ : Z) : string :=
  if bool_decide (start = end_) then pretty start
  else pretty start +:+ "-" +:+ pretty end_.

Definition range_path (src dest_dir : path) (start end_ : Z) : path :=
  (PyStr.stem (name src) +:+ "_" +:+ range_label start end_ +:+ ".pdf")
    :: dest_dir.

(** One turn of the by-page loop and one turn of the by-range loop. *)
Definition split_page (src dest_dir : path) (overwrite : bool)
    (item : Z * Page) : M unit :=
  let '(page_no, page) := item in
  let writer := [] ++ [page] in
  write_pdf writer (page_path src dest_dir page_no) overwrite.

Definition split_range (reader : list Page) (src dest_dir : path)
    (overwrite : bool) (item : Z * Z) : M unit :=
  let '(start, end_) := item in
  writer ← lift (add_pages [] reader start end_);
  write_pdf writer (range_path src dest_dir start end_) overwrite.

Definition split_pdf (src dest_dir : path) (ranges : option (list (Z * Z)))
    (overwrite : bool) : M unit :=
  reader ← PdfReader src;
  mkdir_parents dest_dir;;
  match ranges with
  | None => for_each (enumerate 1 reader) (split_page src dest_dir overwrite)
  | Some ranges => for_each ranges (split_range reader src dest_dir overwrite)
  end.

(** *** merge_to_pdf.py *)

(** [render img] is the one page Pillow saves for an image it can save
    ([img.save(buffer, format="PDF")], after the conversion to RGB of the
    modes with a palette or an alpha channel). *)
Context (render : Image → Page).

(** An entry of the input directory as [input_dir.iterdir()] yields it:
    its file name, whether it is a regular file, and what it holds. *)
Record dirent : Type := Dirent {
  d_name : string;
  d_is_file : bool;
  d_data : content;
}.

Definition IMAGE_EXTS : list string :=
  [".jpg"; ".jpeg"; ".png"; ".tif"; ".tiff"].

(** [PdfReader(..., strict=False)] of a file's bytes. *)
Definition read_pdf (fname : string) (c : content) : exc (list Page) :=
  match c with
  | Pdf pages => Ok pages
  | _ => Err (PdfReadError fname)
  end.

(** [Image.open] raises [UnidentifiedImageError] on what is no image;
    [img.save] raises [ValueError] on a mode it cannot write (the name of
    the mode, which ends the message, is left out). *)
Definition images_to_pdf_bytes (f : dirent) : exc content :=
  match d_data f with
  | Picture img => Ok (Pdf [render img])
  | Unsavable img => Err (ValueError "cannot save mode")
  | _ => Err (UnidentifiedImageError (d_name f))
  end.

(** [merger] is the page list the [PdfMerger] has gathered so far.  The
    temporary file that carries the converted image is written, read
    back and deleted inside the [with] block; it is not modelled. *)
Definition add_file_to_merger (f : dirent) (merger : list Page)
  : exc (list Page) :=
  let suffix := PyStr.lower (PyStr.suffix (d_name f)) in
  if bool_decide (suffix = ".pdf") then
    pages ← read_pdf (d_name f) (d_data f);
    Ok (merger ++ pages)
  else if bool_decide (suffix ∈ IMAGE_EXTS) then
    pdf_bytes ← images_to_pdf_bytes f;
    pages ← read_pdf "tmp.pdf" pdf_bytes;
    Ok (merger ++ pages)
  else Ok merger.

(** [sorted(xs, key=key)]: a stable sort on string keys. *)
Fixpoint insert_sorted {A} (key : A → string) (x : A) (l : list A) : list A :=
  match l with
  | [] => [x]
  | y :: l' =>
      if String.leb (key x) (key y) then x :: y :: l'
      else y :: insert_sorted key x l'
  end.

Definition sorted {A} (key : A → string) (xs : list A) : list A :=
  foldr (insert_sorted key) [] xs.

(** [for f in files: add_file_to_merger(f, merger)] *)
Fixpoint merge_files (files : list dirent) (merger : list Page)
  : exc (list Page) :=
  match files with
  | [] => Ok merger
  | f :: rest =>
      merger' ← add_file_to_merger f merger;
      merge_files rest merger'
  end.

Definition merge_directory (input_dir : path) (listing : list dirent)
    (output_pdf : path) : M unit :=
  let files :=
    sorted (λ p, PyStr.lower (d_name p)) (filter (λ p, d_is_file p) listing) in
  match files with
  | [] => raise (SystemExit ("No supported files found in " +:+ str_path input_dir))
  | _ =>
      merger ← lift (merge_files files []);
      open_write output_pdf (Pdf merger)
  end.

(** *** compress_pdf2.py *)

(** [nbytes] is the size [os.path.getsize] reports for a node. *)
Context (nbytes : node → Z).

Definition COMPRESSION_LEVELS : list (string * string) :=
  [("screen", "Screen-view-only quality, 72 dpi images");
   ("ebook", "Low quality, 150 dpi images");
   ("printer", "High quality, 300 dpi images");
   ("prepress", "High quality preserving color, 300 dpi imgs");
   ("default", "Almost identical to screen")].

Definition getsize (p : path) : M Z := λ st,
  match node_at st p with
  | None => Raised (FileNotFoundError p) st
  | Some n => Done (nbytes n) st
  end.

(** The size in bytes; its rendering with a unit is only printed. *)
Definition get_file_size (file_path : path) : M Z := getsize file_path.

Definition os_path_isfile (p : path) : M bool := λ st, Done (is_file st p) st.

Definition gs_command (compression_level : string) (output_path input_path : path)
  : list string :=
  ["gs"; "-sDEVICE=pdfwrite"; "-dPDFSETTINGS=/" +:+ compression_level;
   "-dCompatibilityLevel=1.4"; "-dNOPAUSE"; "-dQUIET"; "-dBATCH";
   "-sOutputFile=" +:+ str_path output_path; str_path input_path].

(** [subprocess.run(cmd, check=True)]: [run] is the external process,
    which returns its exit status and may change the file system at
    will (or fail to start, raising). *)
Definition subprocess_run_check (run : list string → M Z) (cmd : list string)
  : M unit :=
  returncode ← run cmd;
  if bool_decide (returncode = 0%Z) then mret tt
  else raise (CalledProcessError returncode).

(** [try: body  except CalledProcessError: h  except Exception: h'];
    [SystemExit] is no [Exception] and passes through. *)
Definition try_except {A} (body : M A) (on_called on_exception : exn → M A)
  : M A := λ st,
  match body st with
  | Done a st' => Done a st'
  | Raised (CalledProcessError c) st' => on_called (CalledProcessError c) st'
  | Raised (SystemExit m) st' => Raised (SystemExit m) st'
  | Raised e st' => on_exception e st'
  end.

(** The body shared by the two handlers: remove the output, re-raise. *)
Definition remove_and_reraise {A} (output_path : path) (e : exn) : M A :=
  ex ← path_exists output_path;
  (if ex : bool then os_remove output_path else mret tt);;
  raise e.

Definition default_output (input_path : path) : path :=
  let '(base_name, ext) := PyStr.splitext (name input_path) in
  (base_name +:+ "_compressed" +:+ ext) :: parent input_path.

(** Paths are absolute already ([os.path.abspath] is the identity);
    the progress messages are not modelled. *)
Definition compress_pdf (run : list string → M Z) (input_path : path)
    (output_path : option path) (compression_level : string) (force : bool)
  : M path :=
  isf ← os_path_isfile input_path;
  if negb isf then raise (FileNotFoundError input_path)
  else
    let output_path := default (default_output input_path) output_path in
    ex ← path_exists output_path;
    if ex && negb force then raise (FileExistsError output_path)
    else if negb (bool_decide (compression_level ∈ COMPRESSION_LEVELS.*1)) then
      raise (ValueError
        "Invalid compression level. Choose from: screen, ebook, printer, prepress, default")
    else
      input_size ← get_file_size input_path;
      try_except
        (subprocess_run_check run
           (gs_command compression_level output_path input_path);;
         ex ← path_exists output_path;
         if ex : bool then
           output_size ← get_file_size output_path;
           input_bytes ← getsize input_path;
           output_bytes ← getsize output_path;
           if ((output_bytes >? 0) && (input_bytes >? 0))%Z
           then mret output_path
           else mret output_path
         else raise (FileNotFoundError output_path))
        (remove_and_reraise output_path)
        (remove_and_reraise output_path).

End Model.

(** ** Predicates used in the statements *)

(** The exceptions of the file system and of the PDF reader. *)
Definition io_error (e : exn) : bool :=
  match e with
  | FileExistsError _ | FileNotFoundError _ | IsADirectoryError _
  | NotADirectoryError _ | PdfReadError _ => true
  | _ => false
  end.

Definition is_index_error (e : exn) : bool :=
  match e with
  | IndexError _ => true
  | _ => false
  end.

(** The message of the [IndexError] of [add_pages]. *)
Definition oob_message (page_no : Z) : string :=
  "Page " +:+ pretty page_no +:+ " is out of bounds".

(** The first page number (1-based) at which [add_pages] finds the range
    [(start, end_)] out of the bounds of a document of [n] pages. *)
Definition offending_page (start n : Z) : Z :=
  if (start <=? 0)%Z then start else Z.max start (n + 1).

(** The pages [start .. end_] (1-based, inclusive) of a document. *)
Definition page_slice {Page} (reader : list Page) (start end_ : Z) : list Page :=
  take (Z.to_nat (end_ - start + 1)) (drop (Z.to_nat (start - 1)) reader).

Section Relations.
Context {Page Image : Type}.

(** [st'] is [st] with directories added at [p] and above it: what a
    successful [mkdir(parents=True, exist_ok=True)] does. *)
Definition dirs_made (p : path) (st st' : gmap path (@node Page Image)) : Prop :=
  node_at st' p = Some Dir
  ∧ (∀ q n, st !! q = Some n → st' !! q = Some n)
  ∧ (∀ q, st !! q = None →
       st' !! q = None ∨ (st' !! q = Some Dir ∧ q `suffix_of` p)).

(** No regular file sits at [p] or above it. *)
Fixpoint no_file_above (st : gmap path (@node Page Image)) (p : path) : bool :=
  match p with
  | [] => true
  | _ :: dir => negb (is_file st p) && no_file_above st dir
  end.

(** The target of a write is free, or is a regular file that may be
    replaced. *)
Definition target_free (st : gmap path (@node Page Image)) (p : path)
    (overwrite : bool) : bool :=
  match st !! p with
  | None => true
  | Some (File _) => overwrite
  | Some Dir => false
  end.

End Relations.

(** The order a sort by [key] puts its elements in. *)
Definition key_le {A} (key : A → string) (x y : A) : Prop :=
  String.leb (key x) (key y) = true.

(** ** The manifest of a merge *)

(** The kinds of source the merger tells apart, by the file name. *)
Inductive kind : Type :=
  | MultiPageDocument
  | SingleImage
  | Unsupported.

Definition kind_of (fname : string) : kind :=
  let suffix := PyStr.lower (PyStr.suffix fname) in
  if bool_decide (suffix = ".pdf") then MultiPageDocument
  else if bool_decide (suffix ∈ [".jpg"; ".jpeg"; ".png"; ".tif"; ".tiff"])
       then SingleImage
       else Unsupported.

Section Manifest.
Context {Page Image : Type} (render : Image → Page).

(** The pages a source brings to the merged document. *)
Definition source_pages (f : @dirent Page Image) : list Page :=
  match kind_of (d_name f), d_data f with
  | MultiPageDocument, Pdf pages => pages
  | SingleImage, Picture img => [render img]
  | _, _ => []
  end.

(** A file of a supported kind holds what its name says. *)
Definition resolves (f : @dirent Page Image) : bool :=
  match kind_of (d_name f), d_data f with
  | MultiPageDocument, Pdf _ => true
  | SingleImage, Picture _ => true
  | Unsupported, _ => true
  | _, _ => false
  end.

(** The key of the sort: the file name in lower case. *)
Definition name_key (f : @dirent Page Image) : string := PyStr.lower (d_name f).

End Manifest.

(** ** Order without regard to case

    The letters A to Z stand for a to z, every other character for
    itself; names are compared as strings of what their characters stand
    for. *)

Fixpoint translate (from to : string) (c : ascii) : ascii :=
  match from, to with
  | String a from', String b to' =>
      if Ascii.eqb c a then b else translate from' to' c
  | _, _ => c
  end.

Definition fold_case : ascii → ascii :=
  translate "ABCDEFGHIJKLMNOPQRSTUVWXYZ" "abcdefghijklmnopqrstuvwxyz".

Fixpoint caseless (s : string) : string :=
  match s with
  | EmptyString => EmptyString
  | String c s' => String (fold_case c) (caseless s')
  end.


(** The names of the files are ASCII text. *)
Definition ascii_names {Page Image} (files : list (@dirent Page Image)) : bool :=
  forallb (λ f, PyStr.isascii (d_name f)) files.

(** ** Example data *)

Definition ten_pages : list nat := seq 1 10.
Definition report : path := ["report.pdf"; "home"].
Definition out_dir : path := ["out"; "home"].

(** A home directory holding a ten-page report. *)
Definition home_fs : gmap path (@node nat nat) :=
  <[report := File (Pdf ten_pages)]> (<[["home"] := Dir]> ∅).

(** A directory to merge, as the file system happens to list it: two
    images and, between them, a document of three pages. *)
Definition scans : list (@dirent nat nat) :=
  [Dirent "b.png" true (Picture 20);
   Dirent "a.pdf" true (Pdf [11; 12; 13]);
   Dirent "c.jpg" true (Picture 30)].


(** A directory that holds nothing the merger supports. *)
Definition notes : list (@dirent nat nat) :=
  [Dirent "notes.txt" true (Data "to do")].

(** An optimizer that leaves the start of a file behind and exits with
    status 1. *)
Definition failing_gs : list string → @M nat nat Z := λ _ st,
  Done 1%Z (<["report_compressed.pdf" :: ["home"] := File (Data "%PDF-1.4")]> st).

(** The home directory after pages 2 to 4 of the report were extracted. *)
Definition home_fs_2_4 : gmap path (@node nat nat) :=
  <["report_2-4.pdf" :: out_dir := File (Pdf [2; 3; 4])]>
    (<[out_dir := Dir]> home_fs).

(** ** The grammar of range specifications

    [spec = token *("," token)], [token = number / number "-" number],
    [number = 1*DIGIT]: a specification as a list of tokens, its text and
    the ranges it denotes. *)

Inductive token : Type :=
  | Single (n : string)
  | Hyphenated (a b : string).

Fixpoint all_digits (s : string) : bool :=
  match s with
  | EmptyString => true
  | String c s' => PyStr.is_digit c && all_digits s'
  end.

(** [1*DIGIT] *)
Definition is_number (s : string) : bool :=
  match s with
  | EmptyString => false
  | _ => all_digits s
  end.

Fixpoint decimal_from (acc : Z) (s : string) : Z :=
  match s with
  | EmptyString => acc
  | String c s' => decimal_from (10 * acc + PyStr.digit_val c) s'
  end.

Definition decimal (s : string) : Z := decimal_from 0 s.

Definition token_text (t : token) : string :=
  match t with
  | Single n => n
  | Hyphenated a b => a +:+ "-" +:+ b
  end.

Definition token_range (t : token) : Z * Z :=
  match t with
  | Single n => (decimal n, decimal n)
  | Hyphenated a b => (decimal a, decimal b)
  end.

Definition valid_token (t : token) : bool :=
  match t with
  | Single n => is_number n
  | Hyphenated a b =>
      is_number a && is_number b && bool_decide (decimal a ≤ decimal b)%Z
  end.

Definition spec_text (ts : list token) : string :=
  String.concat "," (token_text <$> ts).

(** Number of occurrences of a character. *)
Fixpoint count_char (c : ascii) (s : string) : nat :=
  match s with
  | EmptyString => 0
  | String d s' => (if Ascii.eqb d c then 1 else 0) + count_char c s'
  end.

(** A character that may occur in some token the parser accepts: a
    digit, a hyphen, a sign, an underscore, or white space. *)
Definition numeric_char (c : ascii) : bool :=
  PyStr.is_digit c || Ascii.eqb c "-" || Ascii.eqb c "+" || Ascii.eqb c "_"
  || PyStr.is_space c.

(** A character the digit scanner can step over. *)
Definition scan_char (c : ascii) : bool :=
  PyStr.is_digit c || Ascii.eqb c "_" || PyStr.is_int_space c.

(** What one turn of the loop of [parse_ranges] makes of its token. *)
Definition parse_part (part : string) : exc (Z * Z) :=
  let part := PyStr.strip part in
  if PyStr.contains "-" part then
    let '(x, y) := PyStr.split_once "-" part in
    a ← PyStr.int x;
    b ← PyStr.int y;
    if (a >? b)%Z then
      Err (ValueError ("Range start > end in '" +:+ part +:+ "'"))
    else Ok (a, b)
  else
    p ← PyStr.int part;
    Ok (p, p).

Definition is_err {A} (r : exc A) : Prop :=
  match r with
  | Ok _ => False
  | Err _ => True
  end.

Definition is_value_error {A} (r : exc A) : Prop :=
  match r with
  | Err (ValueError _) => True
  | _ => False
  end.

(** ** The tokens the parser lets through

    [literal = *WS [sign] digits *("_" digits) *WS] is what [int] reads
    in ASCII text, [WS] being TAB, LF, VT, FF, CR and the space; a token
    reads as a number or as a range when, stripped, it is
    [literal] or [literal "-" literal] with the bounds in order, no minus
    sign standing before the first hyphen. *)

Record literal : Type := Literal {
  lit_lead : string;
  lit_sign : string;
  lit_groups : list string;
  lit_trail : string;
}.

Definition literal_text (l : literal) : string :=
  lit_lead l +:+ lit_sign l +:+ String.concat "_" (lit_groups l) +:+ lit_trail l.

Definition valid_literal (l : literal) : bool :=
  PyStr.all_int_space (lit_lead l)
  && bool_decide (lit_sign l ∈ [""; "+"; "-"])
  && bool_decide (lit_groups l ≠ [])
  && forallb is_number (lit_groups l)
  && PyStr.all_int_space (lit_trail l).

Definition literal_value (l : literal) : Z :=
  let v := decimal (String.concat "" (lit_groups l)) in
  if bool_decide (lit_sign l = "-") then (- v)%Z else v.

Inductive lenient_token : Type :=
  | LSingle (l : literal)
  | LRange (a b : literal).

Definition lenient_text (t : lenient_token) : string :=
  match t with
  | LSingle l => literal_text l
  | LRange a b => literal_text a +:+ "-" +:+ literal_text b
  end.

Definition lenient_range (t : lenient_token) : Z * Z :=
  match t with
  | LSingle l => (literal_value l, literal_value l)
  | LRange a b => (literal_value a, literal_value b)
  end.

Definition valid_lenient (t : lenient_token) : bool :=
  match t with
  | LSingle l => valid_literal l && bool_decide (lit_sign l ≠ "-")
  | LRange a b =>
      valid_literal a && bool_decide (lit_sign a ≠ "-") && valid_literal b
      && bool_decide (literal_value a ≤ literal_value b)%Z
  end.

(** The token [part] reads as [t]. *)
Definition reads_as (part : string) (t : lenient_token) : Prop :=
  valid_lenient t = true ∧ PyStr.strip part = lenient_text t.

Definition well_formed (part : string) : Prop := ∃ t, reads_as part t.

(** ** Further predicates and entry points *)

(** Text made of the white space [str.strip] removes. *)
Fixpoint all_space (s : string) : bool :=
  match s with
  | EmptyString => true
  | String c s' => PyStr.is_space c && all_space s'
  end.

(** A token of a range specification with white space around it. *)
Definition padded (t : string * string * string) : string :=
  let '(l, x, r) := t in l +:+ x +:+ r.

(** The ranges whose label [split_pdf] puts in a file name read back. *)
Definition printable_range (r : Z * Z) : bool :=
  let '(a, b) := r in (0 <=? a)%Z && (a <=? b)%Z.

Section EntryPoints.
Context {Page Image : Type}.

(** The file system an outcome leaves behind. *)
Definition final_state {A} (o : @outcome Page Image A)
  : gmap path (@node Page Image) :=
  match o with
  | Done _ st => st
  | Raised _ st => st
  end.

(** [cli] of split_pdf.py, from the arguments [argparse] has read:
    [ranges] is [None] when [--ranges] is absent.  An empty [--ranges]
    is false for [if args.ranges] and counts as absent.  The final
    message is not modelled. *)
Definition cli (pdf out_dir : path) (ranges : option string) (overwrite : bool)
  : @M Page Image unit :=
  ranges ← match ranges with
           | Some (String c s) =>
               rs ← lift (parse_ranges (String c s)); mret (Some rs)
           | _ => mret None
           end;
  split_pdf pdf out_dir ranges overwrite.

(** A range of pages a document of [n] pages has. *)
Definition in_bounds (n : nat) (r : Z * Z) : bool :=
  let '(start, end_) := r in
  (1 <=? start)%Z && (start <=? end_)%Z && (end_ <=? Z.of_nat n)%Z.

End EntryPoints.

Section MergeEntry.
Context {Page Image : Type} (render : Image → Page).

(** The merger can use the file: its name says document or image. *)
Definition supported (f : @dirent Page Image) : bool :=
  match kind_of (d_name f) with
  | Unsupported => false
  | _ => true
  end.


(** [main] of merge_to_pdf.py, from the arguments on; [str_exc] is
    [str(exc)].  [SystemExit] is no [Exception]: the one
    [merge_directory] raises passes through as it is. *)
Definition merge_main (str_exc : exn → string) (input_dir : path)
    (listing : list dirent) (output_pdf : path) : @M Page Image unit := λ st,
  if negb (is_dir st input_dir) then
    Raised (SystemExit (str_path input_dir
                        +:+ " is not a directory or does not exist.")) st
  else
    match merge_directory render input_dir listing output_pdf st with
    | Done a st' => Done a st'
    | Raised (SystemExit m) st' => Raised (SystemExit m) st'
    | Raised e st' => Raised (SystemExit ("Failed to merge: " +:+ str_exc e)) st'
    end.

End MergeEntry.

Section DirectoryListing.
Context {Page Image : Type}.

(** What [iterdir()] yields for a directory whose entries are listed,
    by name, in the order [names]. *)
Definition dirents_of (st : gmap path (@node Page Image)) (dir : path)
    (names : list string) : list (@dirent Page Image) :=
  (λ n, match st !! (n :: dir) with
        | Some (File c) => Dirent n true c
        | _ => Dirent n false (Data "")
        end) <$> names.

(** [names] lists the entries of [dir], each once, in some order. *)
Definition lists_dir (st : gmap path (@node Page Image)) (dir : path)
    (names : list string) : Prop :=
  NoDup names ∧ ∀ n, n ∈ names ↔ is_Some (st !! (n :: dir)).

(** The directory entry of the document [split_pdf] writes for a page. *)
Definition page_entry (src dest_dir : path) (item : Z * Page)
  : @dirent Page Image :=
  Dirent (name (page_path src dest_dir item.1)) true (Pdf [item.2]).

End DirectoryListing.

(** What may follow the digits of a page number in a file name: the
    extension, or a further digit. *)
Definition after_digits (t : string) : Prop :=
  t = ".pdf" ∨ ∃ c t', t = String c t' ∧ PyStr.is_digit c = true.


(** ** The extension of a file name

    [ext] is the extension of the name [base ++ ext]: the text from the
    last dot on, when a character other than a dot stands before that
    dot; and nothing, when the name has no such dot. *)

Fixpoint lstrip_dots (s : string) : string :=
  match s with
  | String "." s' => lstrip_dots s'
  | _ => s
  end.

Definition extension_split (name base ext : string) : bool :=
  bool_decide (name = base +:+ ext)
  && match ext with
     | EmptyString => negb (PyStr.contains "." (lstrip_dots name))
     | String c e =>
         Ascii.eqb c "." && negb (PyStr.contains "." e) && negb (PyStr.all_dots base)
     end.

(** A home directory holding a letter of three pages. *)
Definition letter : path := ["letter.pdf"; "home"].
Definition letter_fs : gmap path (@node nat nat) :=
  <[letter := File (Pdf [7; 8; 9])]> (<[["home"] := Dir]> ∅).

(** * Facts about the string primitives *)

Module PyStrFacts.
Import PyStr.

Lemma contains_app c s t : contains c (s +:+ t) = contains c s || contains c t.
Proof.
  induction s as [|d s IH]; simpl; [done|].
  rewrite IH. by rewrite orb_assoc.
Qed.

Lemma split_nonempty sep s : split sep s ≠ [].
Proof.
  destruct s as [|c s]; simpl; [done|].
  destruct (Ascii.eqb c sep); [done|]. by destruct (split sep s).
Qed.

Lemma split_no_sep sep s : contains sep s = false → split sep s = [s].
Proof.
  induction s as [|c s IH]; simpl; [done|].
  intros [Hc Hs]%orb_false_elim. rewrite Hc, IH; done.
Qed.

Lemma split_app_sep sep s t :
  contains sep s = false →
  split sep (s +:+ String sep t) = s :: split sep t.
Proof.
  induction s as [|c s IH]; simpl.
  - intros _. by rewrite Ascii.eqb_refl.
  - intros [Hc Hs]%orb_false_elim. rewrite Hc, IH; done.
Qed.

Lemma split_concat sep ws :
  ws ≠ [] → Forall (λ w, contains sep w = false) ws →
  split sep (String.concat (String sep EmptyString) ws) = ws.
Proof.
  intros Hne Hall. induction Hall as [|w ws Hw Hws IH]; [done|].
  destruct ws as [|w' ws].
  - by apply split_no_sep.
  - change (String.concat (String sep EmptyString) (w :: w' :: ws))
      with (w +:+ String sep (String.concat (String sep EmptyString) (w' :: ws))).
    rewrite split_app_sep by done. f_equal. apply IH. done.
Qed.

Lemma split_once_app sep s t :
  contains sep s = false → split_once sep (s +:+ String sep t) = (s, t).
Proof.
  induction s as [|c s IH]; simpl.
  - by rewrite Ascii.eqb_refl.
  - intros [Hc Hs]%orb_false_elim. rewrite Hc, IH; done.
Qed.

(** The two halves of [split_once]: the first has no separator, and the
    text is the first half, the separator, the second half. *)
Lemma split_once_spec sep s x y :
  contains sep s = true → split_once sep s = (x, y) →
  contains sep x = false ∧ s = x +:+ String sep y.
Proof.
  revert x y. induction s as [|c s IH]; simpl; [done|].
  intros x y. destruct (Ascii.eqb_spec c sep) as [->|Hne]; simpl.
  - intros _ [= <- <-]. done.
  - intros Hs. destruct (split_once sep s) as [x' y'] eqn:E.
    intros [= <- <-]. destruct (IH x' y' Hs eq_refl) as [Hx ->].
    split; [|done]. simpl. rewrite Hx.
    by destruct (Ascii.eqb_spec c sep).
Qed.

Lemma lstrip_no_space c s : is_space c = false → lstrip (String c s) = String c s.
Proof. simpl. by intros ->. Qed.

Lemma rstrip_no_space s :
  (∀ c, contains c s = true → is_space c = false) → rstrip s = s.
Proof.
  induction s as [|c s IH]; simpl; [done|].
  intros H. rewrite IH.
  - destruct s; [|done]. rewrite (H c); [done|].
    by rewrite Ascii.eqb_refl.
  - intros d Hd. apply H. rewrite Hd. by rewrite orb_true_r.
Qed.

Lemma strip_no_space s :
  (∀ c, contains c s = true → is_space c = false) → strip s = s.
Proof.
  intros H. unfold strip. destruct s as [|c s]; [done|].
  rewrite lstrip_no_space.
  - by apply rstrip_no_space.
  - apply H. simpl. by rewrite Ascii.eqb_refl.
Qed.

End PyStrFacts.

(** * Facts about [int] *)

Module IntFacts.
Import PyStr PyStrFacts.

Ltac by_cases_on_char c :=
  destruct c as [[] [] [] [] [] [] [] []]; try done; vm_compute; try done.

Lemma int_signed_unfold c s :
  int_signed (String c s) =
    if Ascii.eqb c "+" then int_unsigned s
    else if Ascii.eqb c "-" then Z.opp <$> int_unsigned s
    else int_unsigned (String c s).
Proof. destruct c as [[] [] [] [] [] [] [] []]; reflexivity. Qed.

Lemma digit_not_space c : is_digit c = true → is_space c = false.
Proof. by_cases_on_char c. Qed.

Lemma int_space_space c : is_int_space c = true → is_space c = true.
Proof. by_cases_on_char c. Qed.

Lemma digit_not_int_space c : is_digit c = true → is_int_space c = false.
Proof. by_cases_on_char c. Qed.

Lemma digit_not_sign c :
  is_digit c = true →
  Ascii.eqb c "+" = false ∧ Ascii.eqb c "-" = false ∧ Ascii.eqb c "_" = false
  ∧ Ascii.eqb c "," = false.
Proof. by_cases_on_char c. Qed.

Lemma digit_val_nonneg c : is_digit c = true → (0 ≤ digit_val c)%Z.
Proof. by_cases_on_char c. Qed.

Lemma hyphen_facts :
  is_space "-" = false ∧ is_int_space "-" = false ∧ is_digit "-" = false.
Proof. done. Qed.

Lemma scan_digits_all_digits acc s :
  all_digits s = true → scan_digits acc false s = Some (decimal_from acc s).
Proof.
  revert acc. induction s as [|c s IH]; simpl; [done|].
  intros acc [Hc Hs]%andb_prop. rewrite Hc. by apply IH.
Qed.

Lemma int_opt_number s : is_number s = true → int_opt s = Some (decimal s).
Proof.
  destruct s as [|c s]; [done|]. intros H.
  assert (is_digit c = true) as Hc by (simpl in H; by apply andb_prop in H as [? ?]).
  unfold int_opt. simpl lstrip_int. rewrite (digit_not_int_space c Hc).
  rewrite int_signed_unfold.
  destruct (digit_not_sign c Hc) as (-> & -> & _).
  unfold int_unsigned. rewrite Hc. by apply scan_digits_all_digits.
Qed.

Lemma scan_digits_nonneg acc b s z :
  (0 ≤ acc)%Z → scan_digits acc b s = Some z → (0 ≤ z)%Z.
Proof.
  revert acc b. induction s as [|c s IH]; simpl; intros acc b Hacc.
  - destruct b; [done|]. by intros [= <-].
  - destruct (is_digit c) eqn:Hc.
    { apply IH. pose proof (digit_val_nonneg c Hc). lia. }
    destruct (Ascii.eqb c "_").
    { destruct b; [done|]. by apply IH. }
    destruct b; [done|].
    destruct (is_int_space c && all_int_space s); [|done]. by intros [= <-].
Qed.

Lemma all_int_space_contains c s :
  all_int_space s = true → contains c s = true → is_int_space c = true.
Proof.
  induction s as [|d s IH]; simpl; [done|].
  intros [Hd Hs]%andb_prop [Hc|Hc]%orb_prop; [|by apply IH].
  by apply Ascii.eqb_eq in Hc as ->.
Qed.

Lemma scan_digits_bad_char c acc b s :
  contains c s = true → scan_char c = false → scan_digits acc b s = None.
Proof.
  unfold scan_char. intros Hin [[Hd Hu]%orb_false_elim Hsp]%orb_false_elim.
  revert acc b Hin. induction s as [|d s IH]; simpl; [done|].
  intros acc b Hin.
  destruct (Ascii.eqb_spec d c) as [->|Hne]; simpl in Hin.
  - rewrite Hd, Hu. destruct b; [done|]. by rewrite Hsp.
  - destruct (is_digit d); [by apply IH|].
    destruct (Ascii.eqb d "_"); [destruct b; [done|by apply IH]|].
    destruct b; [done|].
    destruct (is_int_space d && all_int_space s) eqn:E; [|done].
    apply andb_prop in E as [_ E].
    by rewrite (all_int_space_contains c s E Hin) in Hsp.
Qed.

Lemma int_unsigned_bad_char c s :
  contains c s = true → scan_char c = false → int_unsigned s = None.
Proof.
  intros Hin Hc. destruct s as [|d s]; [done|]. unfold int_unsigned.
  destruct (is_digit d); [|done]. by eapply scan_digits_bad_char.
Qed.

Lemma int_unsigned_nonneg s z : int_unsigned s = Some z → (0 ≤ z)%Z.
Proof.
  destruct s as [|d s]; [done|]. unfold int_unsigned.
  destruct (is_digit d); [|done]. by apply scan_digits_nonneg.
Qed.

Lemma lstrip_int_contains c s :
  is_int_space c = false → contains c (lstrip_int s) = contains c s.
Proof.
  intros Hc. induction s as [|d s IH]; simpl; [done|].
  destruct (is_int_space d) eqn:Hd; [|done].
  rewrite IH. destruct (Ascii.eqb_spec d c) as [->|]; [congruence|done].
Qed.

(** A literal without a hyphen is not negative. *)
Lemma int_opt_nonneg s z :
  contains "-" s = false → int_opt s = Some z → (0 ≤ z)%Z.
Proof.
  unfold int_opt. rewrite <-(lstrip_int_contains "-" s) by done.
  destruct (lstrip_int s) as [|d r]; [done|].
  rewrite int_signed_unfold. cbn [contains].
  intros [Hd Hr]%orb_false_elim. rewrite Hd.
  destruct (Ascii.eqb d "+"); apply int_unsigned_nonneg.
Qed.

(** A literal with a hyphen is not positive. *)
Lemma int_opt_hyphen_nonpos s z :
  contains "-" s = true → int_opt s = Some z → (z ≤ 0)%Z.
Proof.
  unfold int_opt. rewrite <-(lstrip_int_contains "-" s) by done.
  destruct (lstrip_int s) as [|d r]; [done|].
  rewrite int_signed_unfold. intros Hin.
  destruct (Ascii.eqb_spec d "+") as [->|Hplus].
  { cbn [contains] in Hin. by rewrite (int_unsigned_bad_char "-" r). }
  destruct (Ascii.eqb_spec d "-") as [->|Hminus].
  { destruct (int_unsigned r) as [u|] eqn:E; [|done].
    intros [= <-]. apply int_unsigned_nonneg in E. lia. }
  by rewrite (int_unsigned_bad_char "-" (String d r)).
Qed.

(** A literal with a character that is no digit, sign, underscore or
    white space is refused. *)
Lemma int_opt_bad_char c s :
  contains c s = true → numeric_char c = false → int_opt s = None.
Proof.
  unfold numeric_char.
  intros Hin [[[[Hd Hm]%orb_false_elim Hp]%orb_false_elim Hu]%orb_false_elim
    Hsp]%orb_false_elim.
  assert (is_int_space c = false) as Hisp.
  { destruct (is_int_space c) eqn:E; [|done].
    apply int_space_space in E. congruence. }
  assert (scan_char c = false) as Hsc by (unfold scan_char; by rewrite Hd, Hu, Hisp).
  unfold int_opt. rewrite <-(lstrip_int_contains c s) in Hin by done.
  destruct (lstrip_int s) as [|d r]; [done|].
  rewrite int_signed_unfold.
  assert (Ascii.eqb d "+" = true ∨ Ascii.eqb d "-" = true → contains c r = true)
    as Hr.
  { cbn [contains] in Hin. intros [E|E]; apply Ascii.eqb_eq in E as ->;
      apply orb_prop in Hin as [Hin|Hin]; try done;
      rewrite Ascii.eqb_sym in Hin; congruence. }
  destruct (Ascii.eqb d "+") eqn:E1.
  { apply (int_unsigned_bad_char c); auto. }
  destruct (Ascii.eqb d "-") eqn:E2.
  { rewrite (int_unsigned_bad_char c r); auto. }
  by apply (int_unsigned_bad_char c).
Qed.

Lemma int_opt_empty : int_opt EmptyString = None.
Proof. done. Qed.

Lemma int_Ok s z : int s = Ok z ↔ int_opt s = Some z.
Proof. unfold int. destruct (int_opt s); naive_solver. Qed.

Lemma int_Err s : is_value_error (int s) ∨ ∃ z, int s = Ok z.
Proof. unfold int. destruct (int_opt s); simpl; eauto. Qed.

End IntFacts.

(** * Facts about [parse_ranges] *)

Module ParseFacts.
Import PyStr PyStrFacts IntFacts.

Lemma parse_parts_cons part rest acc :
  parse_parts (part :: rest) acc =
    (r ← parse_part part; parse_parts rest (acc ++ [r])).
Proof.
  cbn [parse_parts]. unfold parse_part.
  destruct (contains "-" (strip part)).
  - destruct (split_once "-" (strip part)) as [x y].
    destruct (int x) as [a|]; [|done]. destruct (int y) as [b|]; [|done].
    cbn. by destruct (a >? b)%Z.
  - by destruct (int (strip part)).
Qed.

Lemma parse_parts_Ok parts acc rs :
  parse_parts parts acc = Ok rs ↔
  ∃ rs', rs = acc ++ rs' ∧ Forall2 (λ part r, parse_part part = Ok r) parts rs'.
Proof.
  revert acc. induction parts as [|part rest IH]; intros acc.
  - cbn. split.
    + intros [= <-]. exists []. by rewrite app_nil_r.
    + intros (rs' & -> & ->%Forall2_nil_inv_l). by rewrite app_nil_r.
  - rewrite parse_parts_cons. destruct (parse_part part) as [r|e] eqn:E; cbn.
    + rewrite IH. split.
      * intros (rs' & -> & H). exists (r :: rs').
        rewrite <-app_assoc. split; [done|]. by constructor.
      * intros (rs' & -> & H). apply Forall2_cons_inv_l in H
          as (r' & rs'' & Hr & Hrest & ->).
        exists rs''. rewrite <-app_assoc. split; [|done].
        by replace r' with r by congruence.
    + split; [done|]. intros (rs' & _ & H).
      apply Forall2_cons_inv_l in H as (r' & rs'' & Hr & _). congruence.
Qed.

Lemma parse_part_value_error part :
  is_err (parse_part part) → is_value_error (parse_part part).
Proof.
  unfold parse_part. destruct (contains "-" (strip part)).
  - destruct (split_once "-" (strip part)) as [x y]. unfold int.
    destruct (int_opt x); [|done]. destruct (int_opt y); [|done]. cbn.
    by destruct (_ >? _)%Z.
  - unfold int. by destruct (int_opt (strip part)).
Qed.

Lemma parse_parts_value_error parts acc :
  is_err (parse_parts parts acc) → is_value_error (parse_parts parts acc).
Proof.
  revert acc. induction parts as [|part rest IH]; intros acc; [done|].
  rewrite parse_parts_cons.
  pose proof (parse_part_value_error part) as Hp.
  destruct (parse_part part) as [r|e]; cbn in *; [apply IH | done].
Qed.

(** One refused token makes the whole specification fail. *)
Lemma parse_parts_bad_part parts acc part :
  part ∈ parts → is_err (parse_part part) →
  is_value_error (parse_parts parts acc).
Proof.
  intros Hin Hbad. apply parse_parts_value_error.
  destruct (parse_parts parts acc) as [rs|] eqn:E; [|done].
  apply parse_parts_Ok in E as (rs' & _ & H).
  apply list_elem_of_lookup in Hin as [i Hi].
  destruct (Forall2_lookup_l _ _ _ _ _ H Hi) as (r & _ & Hr).
  by rewrite Hr in Hbad.
Qed.

Lemma count_char_contains c s : contains c s = true ↔ 0 < count_char c s.
Proof.
  induction s as [|d s IH]; cbn; [split; [done|lia]|].
  destruct (Ascii.eqb_spec d c) as [->|Hne]; cbn.
  - split; [lia|done].
  - rewrite IH. destruct (Ascii.eqb_spec d c); [done|]. done.
Qed.

Lemma count_char_app c s t :
  count_char c (s +:+ t) = count_char c s + count_char c t.
Proof. induction s as [|d s IH]; simpl; [done|]. rewrite IH. lia. Qed.

Lemma lstrip_count c s :
  is_space c = false → count_char c (lstrip s) = count_char c s.
Proof.
  intros Hc. induction s as [|d s IH]; cbn; [done|].
  destruct (is_space d) eqn:Hd; [|done].
  rewrite IH. destruct (Ascii.eqb_spec d c) as [->|]; [congruence|done].
Qed.

Lemma rstrip_count c s :
  is_space c = false → count_char c (rstrip s) = count_char c s.
Proof.
  intros Hc. induction s as [|d s IH]; [done|].
  cbn [rstrip]. destruct (rstrip s) as [|e r] eqn:E.
  - cbn [count_char] in *. rewrite <-IH.
    destruct (is_space d) eqn:Hd; cbn; [|lia].
    destruct (Ascii.eqb_spec d c) as [->|]; [congruence|done].
  - cbn [count_char] in *. by rewrite IH.
Qed.

Lemma strip_count c s :
  is_space c = false → count_char c (strip s) = count_char c s.
Proof. intros Hc. unfold strip. by rewrite rstrip_count, lstrip_count. Qed.

Lemma strip_contains c s :
  is_space c = false → contains c (strip s) = contains c s.
Proof.
  intros Hc. apply eq_true_iff_eq.
  by rewrite !count_char_contains, strip_count.
Qed.

Lemma all_digits_contains c s :
  all_digits s = true → contains c s = true → is_digit c = true.
Proof.
  induction s as [|d s IH]; cbn; [done|].
  intros [Hd Hs]%andb_prop [Hc|Hc]%orb_prop; [|by apply IH].
  by apply Ascii.eqb_eq in Hc as <-.
Qed.

Lemma is_number_all_digits s : is_number s = true → all_digits s = true.
Proof. by destruct s. Qed.

Lemma number_no_char c s :
  is_number s = true → is_digit c = false → contains c s = false.
Proof.
  intros Hs%is_number_all_digits Hc.
  destruct (contains c s) eqn:E; [|done].
  by rewrite (all_digits_contains c s Hs E) in Hc.
Qed.

Lemma parse_part_number n :
  is_number n = true → parse_part n = Ok (decimal n, decimal n).
Proof.
  intros Hn. unfold parse_part. rewrite strip_no_space.
  - rewrite (number_no_char "-" n Hn) by done.
    unfold int. by rewrite (int_opt_number n Hn).
  - intros c Hc. apply digit_not_space.
    by apply (all_digits_contains c n); [apply is_number_all_digits|].
Qed.

Lemma parse_part_hyphenated a b :
  is_number a = true → is_number b = true → (decimal a ≤ decimal b)%Z →
  parse_part (a +:+ "-" +:+ b) = Ok (decimal a, decimal b).
Proof.
  intros Ha Hb Hle. unfold parse_part. rewrite strip_no_space.
  - change ("-" +:+ b) with (String "-" b).
    rewrite contains_app. cbn [contains]. rewrite Ascii.eqb_refl, orb_true_r.
    rewrite split_once_app by by apply number_no_char.
    unfold int. rewrite (int_opt_number a Ha), (int_opt_number b Hb). cbn.
    destruct (Z.gtb_spec (decimal a) (decimal b)); [lia|done].
  - intros c. change ("-" +:+ b) with (String "-" b).
    rewrite contains_app. cbn [contains].
    intros [Hc|[Hc|Hc]%orb_prop]%orb_prop.
    + apply digit_not_space, (all_digits_contains c a); [|done].
      by apply is_number_all_digits.
    + by apply Ascii.eqb_eq in Hc as <-.
    + apply digit_not_space, (all_digits_contains c b); [|done].
      by apply is_number_all_digits.
Qed.

Lemma parse_part_valid_token t :
  valid_token t = true → parse_part (token_text t) = Ok (token_range t).
Proof.
  destruct t as [n|a b]; cbn [valid_token token_text token_range].
  - apply parse_part_number.
  - intros [[Ha Hb]%andb_prop Hle%bool_decide_eq_true]%andb_prop.
    by apply parse_part_hyphenated.
Qed.

Lemma token_text_no_comma t :
  valid_token t = true → contains "," (token_text t) = false.
Proof.
  destruct t as [n|a b]; cbn [valid_token token_text].
  - intros Hn. by apply number_no_char.
  - intros [[Ha Hb]%andb_prop _]%andb_prop.
    change ("-" +:+ b) with (String "-" b).
    rewrite contains_app. cbn [contains].
    by rewrite !number_no_char.
Qed.

(** The bounds a token yields: neither is negative, and they are in order. *)
Lemma parse_part_bounds part a b :
  parse_part part = Ok (a, b) → (0 ≤ a ≤ b)%Z.
Proof.
  unfold parse_part. destruct (contains "-" (strip part)) eqn:Hh.
  - destruct (split_once "-" (strip part)) as [x y] eqn:Hxy.
    destruct (split_once_spec _ _ _ _ Hh Hxy) as [Hx _].
    destruct (int x) as [a'|] eqn:Ea; [|done].
    destruct (int y) as [b'|] eqn:Eb; [|done]. cbn.
    destruct (Z.gtb_spec a' b'); [done|]. intros [= <- <-].
    apply int_Ok in Ea. apply (int_opt_nonneg x a' Hx) in Ea. lia.
  - destruct (int (strip part)) as [p|] eqn:Ep; [|done]. cbn.
    intros [= <- <-]. apply int_Ok in Ep.
    apply (int_opt_nonneg _ _ Hh) in Ep. lia.
Qed.

(** A token with two hyphens or more is refused, or reads as (0, 0). *)
Lemma parse_part_two_hyphens part :
  2 ≤ count_char "-" part →
  is_err (parse_part part) ∨ parse_part part = Ok (0, 0)%Z.
Proof.
  intros Hcount. rewrite <-(strip_count "-" part) in Hcount by done.
  unfold parse_part.
  assert (contains "-" (strip part) = true) as Hh
    by (apply count_char_contains; lia).
  rewrite Hh. destruct (split_once "-" (strip part)) as [x y] eqn:Hxy.
  destruct (split_once_spec _ _ _ _ Hh Hxy) as [Hx Heq].
  assert (contains "-" y = true) as Hy.
  { apply count_char_contains. rewrite Heq, count_char_app in Hcount.
    cbn [count_char] in Hcount. rewrite Ascii.eqb_refl in Hcount.
    apply not_true_iff_false in Hx. rewrite count_char_contains in Hx. lia. }
  destruct (int x) as [a|] eqn:Ea; [|by left].
  destruct (int y) as [b|] eqn:Eb; [|by left]. cbn.
  apply int_Ok in Ea, Eb.
  apply (int_opt_nonneg _ _ Hx) in Ea.
  apply (int_opt_hyphen_nonpos _ _ Hy) in Eb.
  destruct (Z.gtb_spec a b); [by left|right].
  f_equal. f_equal; lia.
Qed.

Lemma parse_part_empty part : strip part = EmptyString → is_err (parse_part part).
Proof. unfold parse_part. by intros ->. Qed.

Lemma parse_part_bad_char c part :
  contains c part = true → numeric_char c = false → is_err (parse_part part).
Proof.
  intros Hin Hc.
  assert (is_space c = false ∧ Ascii.eqb c "-" = false) as [Hsp Hm].
  { unfold numeric_char in Hc.
    apply orb_false_elim in Hc as [[[[_ ?]%orb_false_elim _]%orb_false_elim
      _]%orb_false_elim ?]. done. }
  rewrite <-(strip_contains c part) in Hin by done.
  unfold parse_part. destruct (contains "-" (strip part)) eqn:Hh.
  - destruct (split_once "-" (strip part)) as [x y] eqn:Hxy.
    destruct (split_once_spec _ _ _ _ Hh Hxy) as [_ Heq].
    rewrite Heq, contains_app in Hin. cbn [contains] in Hin.
    rewrite Ascii.eqb_sym, Hm in Hin. cbn in Hin.
    unfold int. apply orb_prop in Hin as [Hin|Hin].
    + by rewrite (int_opt_bad_char c x Hin Hc).
    + rewrite (int_opt_bad_char c y Hin Hc). by destruct (int_opt x).
  - unfold int. by rewrite (int_opt_bad_char c _ Hin Hc).
Qed.

Lemma parse_part_inverted part x y a b :
  contains "-" (strip part) = true →
  split_once "-" (strip part) = (x, y) →
  int x = Ok a → int y = Ok b → (a > b)%Z →
  is_err (parse_part part).
Proof.
  intros Hh Hxy Ha Hb Hgt. unfold parse_part. rewrite Hh, Hxy, Ha, Hb. cbn.
  destruct (Z.gtb_spec a b); [done|lia].
Qed.

End ParseFacts.

(** * More facts about strings and numerals *)

Section StringMore.
Import PyStr PyStrFacts IntFacts ParseFacts.

Lemma append_cons c (s t : string) : String c s +:+ t = String c (s +:+ t).
Proof. done. Qed.

Lemma append_assoc (s t u : string) : (s +:+ t) +:+ u = s +:+ t +:+ u.
Proof. induction s as [|c s IH]; [done|]. by rewrite !append_cons, IH. Qed.

Lemma append_nil_r (s : string) : s +:+ "" = s.
Proof. induction s as [|c s IH]; [done|]. by rewrite append_cons, IH. Qed.

Lemma split_length sep s : length (split sep s) = S (count_char sep s).
Proof.
  induction s as [|c s IH]; simpl; [done|].
  destruct (Ascii.eqb c sep); simpl; [by rewrite IH|].
  pose proof (split_nonempty sep s). by destruct (split sep s).
Qed.

(** Splitting distributes over a separator, whatever is on its sides. *)
Lemma split_app sep s t :
  split sep (s +:+ String sep t) = split sep s ++ split sep t.
Proof.
  induction s as [|c s IH]; simpl.
  - by rewrite Ascii.eqb_refl.
  - rewrite IH. destruct (Ascii.eqb c sep); [done|].
    pose proof (split_nonempty sep s). by destruct (split sep s).
Qed.

Lemma parse_parts_acc parts acc :
  parse_parts parts acc = (rs ← parse_parts parts []; Ok (acc ++ rs)).
Proof.
  revert acc. induction parts as [|part rest IH]; intros acc.
  { cbn. by rewrite app_nil_r. }
  rewrite !parse_parts_cons. destruct (parse_part part) as [r|e]; [|done]. cbn.
  rewrite IH, (IH [r]).
  destruct (parse_parts rest []) as [rs|e]; [|done]. cbn.
  by rewrite <-app_assoc.
Qed.

Lemma parse_parts_app parts1 parts2 :
  parse_parts (parts1 ++ parts2) [] =
    (rs1 ← parse_parts parts1 []; rs2 ← parse_parts parts2 []; Ok (rs1 ++ rs2)).
Proof.
  induction parts1 as [|part rest IH].
  { cbn. by destruct (parse_parts parts2 []). }
  cbn [app]. rewrite !parse_parts_cons.
  destruct (parse_part part) as [r|e]; [|done]. cbn.
  rewrite (parse_parts_acc (rest ++ parts2)), (parse_parts_acc rest), IH.
  destruct (parse_parts rest []) as [rs1|e]; [|done]. cbn.
  destruct (parse_parts parts2 []) as [rs2|e]; [|done]. cbn.
  done.
Qed.

Lemma lstrip_all_space l s : all_space l = true → lstrip (l +:+ s) = lstrip s.
Proof.
  induction l as [|c l IH]; simpl; [done|].
  intros [-> Hl]%andb_prop. by apply IH.
Qed.

Lemma lstrip_empty_all_space s : lstrip s = "" ↔ all_space s = true.
Proof.
  induction s as [|c s IH]; simpl; [done|].
  destruct (is_space c); [done|]. split; done.
Qed.

Lemma rstrip_all_space s : all_space s = true → rstrip s = "".
Proof.
  induction s as [|c s IH]; simpl; [done|].
  intros [-> Hs]%andb_prop. by rewrite IH.
Qed.

Lemma rstrip_app_space s r : all_space r = true → rstrip (s +:+ r) = rstrip s.
Proof.
  intros Hr. induction s as [|c s IH]; simpl.
  - by apply rstrip_all_space.
  - by rewrite IH.
Qed.

Lemma lstrip_app s r :
  all_space s = false → lstrip (s +:+ r) = lstrip s +:+ r.
Proof.
  induction s as [|c s IH]; simpl; [done|].
  destruct (is_space c); [done|done].
Qed.

(** White space around a token does not count. *)
Lemma strip_padded l x r :
  all_space l = true → all_space r = true → strip (l +:+ x +:+ r) = strip x.
Proof.
  intros Hl Hr. unfold strip. rewrite lstrip_all_space by done.
  destruct (all_space x) eqn:Hx.
  - assert (all_space (x +:+ r) = true) as Hxr.
    { clear -Hx Hr. induction x as [|c x IH]; simpl in *; [done|].
      apply andb_prop in Hx as [-> Hx]. by apply IH. }
    apply lstrip_empty_all_space in Hxr as ->.
    by apply lstrip_empty_all_space in Hx as ->.
  - rewrite lstrip_app by done. by apply rstrip_app_space.
Qed.

Lemma parse_part_strip part part' :
  strip part = strip part' → parse_part part = parse_part part'.
Proof. unfold parse_part. by intros ->. Qed.

Lemma all_space_no_comma s : all_space s = true → contains "," s = false.
Proof.
  induction s as [|c s IH]; simpl; [done|].
  intros [Hc Hs]%andb_prop. rewrite IH by done.
  destruct (Ascii.eqb_spec c ",") as [->|]; done.
Qed.

Lemma parse_parts_ext parts parts' acc :
  Forall2 (λ p p', strip p = strip p') parts parts' →
  parse_parts parts acc = parse_parts parts' acc.
Proof.
  intros H. revert acc. induction H as [|p p' parts parts' Hp _ IH]; intros acc.
  { done. }
  rewrite !parse_parts_cons, (parse_part_strip p p' Hp).
  destruct (parse_part p'); [apply IH|done].
Qed.

End StringMore.

Section PrettyFacts.
Import PyStr PyStrFacts IntFacts ParseFacts.

Lemma pretty_N_go_app (n : N) (s : string) :
  pretty_N_go n s = pretty_N_go n "" +:+ s.
Proof.
  revert s. induction (N.lt_wf_0 n) as [n _ IH]; intros s.
  destruct (decide (n = 0)%N) as [->|Hn]; [done|].
  assert (n `div` 10 < n)%N as Hlt by (apply N.div_lt; lia).
  rewrite !(pretty_N_go_step n) by lia.
  rewrite (IH _ Hlt (String _ s)), (IH _ Hlt (String _ "")).
  by rewrite append_assoc.
Qed.

Lemma pretty_N_char_digit (d : N) :
  (d < 10)%N →
  is_digit (pretty_N_char d) = true ∧ digit_val (pretty_N_char d) = Z.of_N d.
Proof.
  intros Hd.
  assert (d = 0 ∨ d = 1 ∨ d = 2 ∨ d = 3 ∨ d = 4 ∨ d = 5 ∨ d = 6 ∨ d = 7
          ∨ d = 8 ∨ d = 9)%N as Hcases by lia.
  repeat (destruct Hcases as [->|Hcases]; [done|]). by subst.
Qed.

Lemma all_digits_app s t : all_digits (s +:+ t) = all_digits s && all_digits t.
Proof.
  induction s as [|c s IH]; simpl; [done|]. by rewrite IH, andb_assoc.
Qed.

Lemma decimal_from_app acc s t :
  decimal_from acc (s +:+ t) = decimal_from (decimal_from acc s) t.
Proof. revert acc. induction s as [|c s IH]; intros acc; simpl; [done|]. apply IH. Qed.

Lemma pretty_N_go_digits (n : N) :
  all_digits (pretty_N_go n "") = true
  ∧ decimal (pretty_N_go n "") = Z.of_N n
  ∧ ((0 < n)%N → pretty_N_go n "" ≠ "").
Proof.
  induction (N.lt_wf_0 n) as [n _ IH].
  destruct (decide (n = 0)%N) as [->|Hn]; [repeat split; try done; lia|].
  rewrite pretty_N_go_step, pretty_N_go_app by lia.
  destruct (IH (n `div` 10)%N) as (Hd & Hv & _); [apply N.div_lt; lia|].
  destruct (pretty_N_char_digit (n `mod` 10)%N) as [Hc Hcv];
    [by apply N.mod_lt|].
  split; [|split].
  - rewrite all_digits_app, Hd. simpl. by rewrite Hc.
  - unfold decimal in *. rewrite decimal_from_app, Hv. simpl. rewrite Hcv.
    rewrite (N.div_mod n 10) at 3 by done. lia.
  - intros _. by destruct (pretty_N_go (n `div` 10) "").
Qed.

(** The decimal text of a number that is not negative is a number of
    the grammar, of that value. *)
Lemma pretty_nonneg_number (z : Z) :
  (0 ≤ z)%Z → is_number (pretty z) = true ∧ decimal (pretty z) = z.
Proof.
  intros Hz. destruct z as [|p|p]; [done| |lia].
  change (pretty (Z.pos p)) with (pretty (N.pos p)).
  unfold pretty, pretty_N. rewrite decide_False by done.
  destruct (pretty_N_go_digits (N.pos p)) as (Hd & Hv & Hne).
  split; [|done]. specialize (Hne eq_refl).
  by destruct (pretty_N_go (N.pos p) "").
Qed.

Lemma parse_part_range_label (a b : Z) :
  (0 ≤ a ≤ b)%Z → parse_part (range_label a b) = Ok (a, b).
Proof.
  intros [Ha Hab]. unfold range_label.
  destruct (pretty_nonneg_number a Ha) as [Hna Hva].
  destruct (pretty_nonneg_number b) as [Hnb Hvb]; [lia|].
  case_bool_decide as Heq.
  - subst b. rewrite parse_part_number by done. by rewrite Hva.
  - rewrite parse_part_hyphenated by (rewrite ?Hva, ?Hvb; done || lia).
    by rewrite Hva, Hvb.
Qed.

Lemma range_label_no_comma (a b : Z) :
  (0 ≤ a ≤ b)%Z → contains "," (range_label a b) = false.
Proof.
  intros [Ha Hab]. unfold range_label.
  destruct (pretty_nonneg_number a Ha) as [Hna _].
  destruct (pretty_nonneg_number b) as [Hnb _]; [lia|].
  case_bool_decide.
  - by apply number_no_char.
  - change ("-" +:+ pretty b) with (String "-" (pretty b)).
    rewrite contains_app. cbn [contains]. by rewrite !number_no_char.
Qed.

End PrettyFacts.

(** * The literals of [int] and the tokens of [parse_ranges] *)

Module LiteralFacts.
Import PyStr PyStrFacts IntFacts ParseFacts.

Lemma int_space_plain c :
  is_int_space c = true →
  is_digit c = false ∧ Ascii.eqb c "_" = false ∧ Ascii.eqb c "+" = false
  ∧ Ascii.eqb c "-" = false.
Proof. by_cases_on_char c. Qed.

Lemma concat_cons2 sep (x y : string) (l : list string) :
  String.concat sep (x :: y :: l) = x +:+ sep +:+ String.concat sep (y :: l).
Proof. done. Qed.

Lemma scan_digits_space acc r :
  all_int_space r = true → scan_digits acc false r = Some acc.
Proof.
  destruct r as [|c r]; [done|]. intros Hall.
  pose proof Hall as Hc. cbn [all_int_space] in Hc. apply andb_prop in Hc as [Hc _].
  destruct (int_space_plain c Hc) as (Hd & Hu & _).
  cbn [scan_digits]. rewrite Hd, Hu. by rewrite Hall.
Qed.

Lemma scan_digits_digits g rest acc :
  all_digits g = true →
  scan_digits acc false (g +:+ rest) = scan_digits (decimal_from acc g) false rest.
Proof.
  revert acc. induction g as [|c g IH]; intros acc; [done|]. cbn [all_digits].
  intros [Hc Hg]%andb_prop. rewrite append_cons. cbn [scan_digits decimal_from].
  rewrite Hc. by apply IH.
Qed.

Lemma scan_digits_number g rest acc b :
  is_number g = true →
  scan_digits acc b (g +:+ rest) = scan_digits (decimal_from acc g) false rest.
Proof.
  destruct g as [|c g]; [done|]. cbn [is_number all_digits].
  intros [Hc Hg]%andb_prop. rewrite append_cons. cbn [scan_digits decimal_from].
  rewrite Hc. by apply scan_digits_digits.
Qed.

Lemma scan_digits_underscore acc s :
  scan_digits acc false (String "_" s) = scan_digits acc true s.
Proof. reflexivity. Qed.

(** The scanner reads groups of digits joined by single underscores. *)
Lemma scan_digits_groups gs g acc b trail :
  is_number g = true → Forall (λ g, is_number g = true) gs →
  all_int_space trail = true →
  scan_digits acc b (String.concat "_" (g :: gs) +:+ trail)
    = Some (decimal_from acc (String.concat "" (g :: gs))).
Proof.
  revert g acc b. induction gs as [|g' gs IH]; intros g acc b Hg Hgs Htrail.
  - cbn [String.concat]. rewrite scan_digits_number by done.
    by apply scan_digits_space.
  - apply Forall_cons in Hgs as [Hg' Hgs].
    rewrite !concat_cons2, !append_assoc. rewrite scan_digits_number by done.
    change ("_" +:+ String.concat "_" (g' :: gs) +:+ trail)
      with (String "_" (String.concat "_" (g' :: gs) +:+ trail)).
    rewrite scan_digits_underscore. rewrite IH by done.
    by rewrite decimal_from_app.
Qed.

(** And it reads nothing else. *)
Lemma scan_digits_sound s acc b z :
  scan_digits acc b s = Some z →
  ∃ g gs trail,
    s = String.concat "_" (g :: gs) +:+ trail
    ∧ all_digits g = true
    ∧ (b = true → g ≠ "")
    ∧ Forall (λ g, is_number g = true) gs
    ∧ all_int_space trail = true
    ∧ z = decimal_from acc (String.concat "" (g :: gs)).
Proof.
  revert acc b z. induction s as [|c s IH]; intros acc b z.
  - cbn. destruct b; [done|]. intros [= <-]. by exists "", [], "".
  - cbn [scan_digits]. destruct (is_digit c) eqn:Hc.
    + intros (g & gs & trail & -> & Hg & _ & Hgs & Htrail & ->)%IH.
      exists (String c g), gs, trail. split; [by destruct gs|].
      split; [cbn; by rewrite Hc|]. split; [done|]. split; [done|].
      split; [done|]. by destruct gs.
    + destruct (Ascii.eqb_spec c "_") as [->|Hne].
      * destruct b; [done|].
        intros (g & gs & trail & -> & Hg & Hne & Hgs & Htrail & ->)%IH.
        exists "", (g :: gs), trail. split; [done|]. split; [done|].
        split; [done|]. split; [|done].
        constructor; [|done]. destruct g; [by destruct Hne|done].
      * destruct b; [done|].
        destruct (all_int_space (String c s)) eqn:Hsp; [|done].
        intros [= <-]. by exists "", [], (String c s).
Qed.

Lemma groups_head g gs trail :
  is_number g = true →
  ∃ d rest, String.concat "_" (g :: gs) +:+ trail = String d rest
            ∧ is_digit d = true.
Proof.
  destruct g as [|d g]; [done|]. cbn [is_number all_digits].
  intros [Hd _]%andb_prop. destruct gs; by eexists _, _.
Qed.

Lemma int_unsigned_groups g gs trail :
  is_number g = true → Forall (λ g, is_number g = true) gs →
  all_int_space trail = true →
  int_unsigned (String.concat "_" (g :: gs) +:+ trail)
    = Some (decimal (String.concat "" (g :: gs))).
Proof.
  intros Hg Hgs Htrail.
  destruct (groups_head g gs trail Hg) as (d & rest & Heq & Hd).
  unfold int_unsigned. rewrite Heq, Hd, <-Heq. by apply scan_digits_groups.
Qed.

Lemma int_unsigned_sound s z :
  int_unsigned s = Some z →
  ∃ g gs trail,
    s = String.concat "_" (g :: gs) +:+ trail
    ∧ is_number g = true
    ∧ Forall (λ g, is_number g = true) gs
    ∧ all_int_space trail = true
    ∧ z = decimal (String.concat "" (g :: gs)).
Proof.
  unfold int_unsigned. destruct s as [|c s]; [done|].
  destruct (is_digit c) eqn:Hc; [|done].
  intros (g & gs & trail & Hs & Hg & _ & Hgs & Htrail & ->)%scan_digits_sound.
  exists g, gs, trail. repeat split; try done.
  destruct g as [|d g]; [|done]. exfalso. destruct gs as [|g' gs].
  - change (String c s = trail) in Hs. subst trail. cbn [all_int_space] in Htrail.
    apply andb_prop in Htrail as [Hsp _].
    apply int_space_plain in Hsp as [Hd _]. congruence.
  - change (String c s = String "_" (String.concat "_" (g' :: gs) +:+ trail)) in Hs.
    injection Hs as -> _. done.
Qed.

Lemma lstrip_int_split s :
  ∃ l, s = l +:+ lstrip_int s ∧ all_int_space l = true.
Proof.
  induction s as [|c s (l & Hs & Hl)]; [by exists ""|]. cbn [lstrip_int].
  destruct (is_int_space c) eqn:Hc.
  - exists (String c l). rewrite append_cons, <-Hs. split; [done|].
    cbn. by rewrite Hc.
  - by exists "".
Qed.

Lemma lstrip_int_id c s :
  is_int_space c = false → lstrip_int (String c s) = String c s.
Proof. cbn [lstrip_int]. by intros ->. Qed.

Lemma lstrip_int_app l rest :
  all_int_space l = true → lstrip_int (l +:+ rest) = lstrip_int rest.
Proof.
  induction l as [|c l IH]; [done|]. cbn [all_int_space].
  intros [Hc Hl]%andb_prop. rewrite append_cons. cbn [lstrip_int].
  rewrite Hc. by apply IH.
Qed.

Lemma forallb_Forall {A} (f : A → bool) (l : list A) :
  forallb f l = true ↔ Forall (λ x, f x = true) l.
Proof.
  induction l as [|x l IH]; cbn [forallb].
  - split; [by constructor|done].
  - rewrite andb_true_iff, Forall_cons. by rewrite IH.
Qed.

Lemma valid_literal_spec l :
  valid_literal l = true ↔
  all_int_space (lit_lead l) = true
  ∧ lit_sign l ∈ [""; "+"; "-"]
  ∧ (∃ g gs, lit_groups l = g :: gs ∧ is_number g = true
             ∧ Forall (λ g, is_number g = true) gs)
  ∧ all_int_space (lit_trail l) = true.
Proof.
  unfold valid_literal. rewrite !andb_true_iff, !bool_decide_eq_true.
  rewrite forallb_Forall.
  destruct (lit_groups l) as [|g gs].
  - split; [by intros [[[[? ?] ?] ?] ?]|by intros (_ & _ & (? & ? & ? & _) & _)].
  - rewrite Forall_cons. split.
    + intros [[[[? ?] _] [? ?]] ?]. eauto 10.
    + intros (? & ? & (? & ? & [= <- <-] & ? & ?) & ?). done.
Qed.

(** [int] reads every literal, as its value. *)
Lemma int_opt_literal l :
  valid_literal l = true → int_opt (literal_text l) = Some (literal_value l).
Proof.
  intros (Hlead & Hsign & (g & gs & Hgroups & Hg & Hgs) & Htrail)%valid_literal_spec.
  unfold int_opt, literal_text, literal_value. rewrite Hgroups.
  rewrite lstrip_int_app by done.
  pose proof (int_unsigned_groups g gs (lit_trail l) Hg Hgs Htrail) as Hint.
  destruct (groups_head g gs (lit_trail l) Hg) as (d & rest & Heq & Hd).
  destruct (digit_not_sign d Hd) as (Hp & Hm & _).
  pose proof (digit_not_int_space d Hd) as Hsp.
  repeat (apply elem_of_cons in Hsign as [->|Hsign]); [| | |by apply elem_of_nil in Hsign].
  - change ("" +:+ ?s) with s. rewrite Heq, lstrip_int_id by done.
    rewrite int_signed_unfold, Hp, Hm, <-Heq, Hint.
    by rewrite bool_decide_eq_false_2.
  - change ("+" +:+ ?s) with (String "+" s). rewrite lstrip_int_id by done.
    rewrite int_signed_unfold, Ascii.eqb_refl, Hint.
    by rewrite bool_decide_eq_false_2.
  - change ("-" +:+ ?s) with (String "-" s). rewrite lstrip_int_id by done.
    rewrite int_signed_unfold, Ascii.eqb_refl, Hint.
    replace (Ascii.eqb "-" "+") with false by reflexivity.
    by rewrite bool_decide_eq_true_2.
Qed.

(** And [int] reads literals only. *)
Lemma int_opt_sound s z :
  int_opt s = Some z →
  ∃ l, valid_literal l = true ∧ s = literal_text l ∧ z = literal_value l.
Proof.
  unfold int_opt. destruct (lstrip_int_split s) as (lead & Hs & Hlead).
  destruct (lstrip_int s) as [|c r]; [done|]. subst s.
  rewrite int_signed_unfold.
  destruct (Ascii.eqb_spec c "+") as [->|Hp]; [|destruct (Ascii.eqb_spec c "-") as [->|Hm]].
  - intros (g & gs & trail & Hr & Hg & Hgs & Htrail & ->)%int_unsigned_sound.
    subst r. exists (Literal lead "+" (g :: gs) trail). split; [|done].
    apply valid_literal_spec. cbn. repeat split; try done; [set_solver|eauto].
  - destruct (int_unsigned r) as [v|] eqn:E; [|done]. intros [= <-].
    apply int_unsigned_sound in E as (g & gs & trail & Hr & Hg & Hgs & Htrail & ->).
    subst r. exists (Literal lead "-" (g :: gs) trail). split; [|done].
    apply valid_literal_spec. cbn. repeat split; try done; [set_solver|eauto].
  - intros (g & gs & trail & Hr & Hg & Hgs & Htrail & ->)%int_unsigned_sound.
    exists (Literal lead "" (g :: gs) trail). split; [|split].
    + apply valid_literal_spec. cbn. repeat split; try done; [set_solver|eauto].
    + unfold literal_text. cbn [lit_lead lit_sign lit_groups lit_trail].
      change ("" +:+ ?s) with s. by rewrite <-Hr.
    + done.
Qed.

Lemma groups_no_char c gs :
  is_digit c = false → Ascii.eqb c "_" = false →
  Forall (λ g, is_number g = true) gs →
  contains c (String.concat "_" gs) = false.
Proof.
  intros Hd Hu. induction 1 as [|g gs Hg Hgs IH]; [done|].
  destruct gs as [|g' gs]; [by apply number_no_char|].
  rewrite concat_cons2, !contains_app, IH, (number_no_char c g) by done.
  cbn [contains]. by rewrite (Ascii.eqb_sym "_" c), Hu.
Qed.

Lemma int_space_no_char c s :
  is_int_space c = false → all_int_space s = true → contains c s = false.
Proof.
  intros Hc Hs. destruct (contains c s) eqn:E; [|done].
  apply (all_int_space_contains c s Hs) in E. congruence.
Qed.

(** A literal holds a hyphen when its sign is the minus sign, and only
    then. *)
Lemma literal_text_hyphen l :
  valid_literal l = true →
  contains "-" (literal_text l) = bool_decide (lit_sign l = "-").
Proof.
  intros (Hlead & Hsign & (g & gs & Hgroups & Hg & Hgs) & Htrail)%valid_literal_spec.
  unfold literal_text. rewrite !contains_app.
  rewrite (int_space_no_char "-" (lit_lead l)) by done.
  rewrite (int_space_no_char "-" (lit_trail l)) by done.
  rewrite (groups_no_char "-" (lit_groups l)); [|done|done|].
  - repeat (apply elem_of_cons in Hsign as [->|Hsign]); try done.
    by apply elem_of_nil in Hsign.
  - rewrite Hgroups. by constructor.
Qed.

(** A token that reads as a number or a range is parsed as such. *)
Lemma parse_part_reads part t :
  reads_as part t → parse_part part = Ok (lenient_range t).
Proof.
  intros [Hvalid Hstrip]. unfold parse_part. rewrite Hstrip.
  destruct t as [l|a b]; cbn [valid_lenient lenient_text lenient_range] in *.
  - apply andb_prop in Hvalid as [Hl Hs]. apply bool_decide_eq_true in Hs.
    rewrite (literal_text_hyphen l Hl), bool_decide_eq_false_2 by done.
    unfold int. by rewrite (int_opt_literal l Hl).
  - apply andb_prop in Hvalid as [[[Ha Hs]%andb_prop Hb]%andb_prop Hle].
    apply bool_decide_eq_true in Hs, Hle.
    change ("-" +:+ literal_text b) with (String "-" (literal_text b)).
    rewrite contains_app. cbn [contains]. rewrite Ascii.eqb_refl, orb_true_r.
    rewrite split_once_app
      by by rewrite (literal_text_hyphen a Ha), bool_decide_eq_false_2.
    unfold int. rewrite (int_opt_literal a Ha), (int_opt_literal b Hb). cbn.
    destruct (Z.gtb_spec (literal_value a) (literal_value b)); [lia|done].
Qed.

(** And the parser lets nothing else through. *)
Lemma parse_part_sound part r :
  parse_part part = Ok r → ∃ t, reads_as part t ∧ r = lenient_range t.
Proof.
  unfold parse_part. destruct (contains "-" (strip part)) eqn:Hh.
  - destruct (split_once "-" (strip part)) as [x y] eqn:Hxy.
    destruct (split_once_spec _ _ _ _ Hh Hxy) as [Hx Hpart].
    destruct (int x) as [a|] eqn:Ea; [|done].
    destruct (int y) as [b|] eqn:Eb; [|done]. cbn.
    destruct (Z.gtb_spec a b); [done|]. intros [= <-].
    apply int_Ok, int_opt_sound in Ea as (la & Hla & -> & ->).
    apply int_Ok, int_opt_sound in Eb as (lb & Hlb & -> & ->).
    exists (LRange la lb). split; [|done]. split; [|done]. cbn.
    rewrite Hla, Hlb. rewrite (literal_text_hyphen la Hla) in Hx.
    apply bool_decide_eq_false in Hx.
    rewrite !bool_decide_eq_true_2 by (done || lia). done.
  - destruct (int (strip part)) as [p|] eqn:Ep; [|done]. cbn. intros [= <-].
    apply int_Ok, int_opt_sound in Ep as (l & Hl & Hp & ->).
    exists (LSingle l). split; [|done]. split; [|done]. cbn.
    rewrite Hl. rewrite Hp, (literal_text_hyphen l Hl) in Hh.
    apply bool_decide_eq_false in Hh. by rewrite bool_decide_eq_true_2.
Qed.

(** The parser refuses a token exactly when it is not well formed. *)
Lemma parse_part_refuses part :
  is_err (parse_part part) ↔ ¬ well_formed part.
Proof.
  split.
  - intros Herr [t Ht]. by rewrite (parse_part_reads part t Ht) in Herr.
  - intros Hno. destruct (parse_part part) as [r|e] eqn:E; [|done].
    destruct Hno. apply parse_part_sound in E as (t & Ht & _). by exists t.
Qed.

End LiteralFacts.

(** * The range parser: what it accepts, what it returns, what it refuses *)

Section parse_ranges_claims.
Import PyStr PyStrFacts IntFacts ParseFacts LiteralFacts.

(** C5.  For every valid range specification (a non-empty list of tokens,
    each a number or two numbers in order joined by a hyphen, separated by
    commas) [parse_ranges] returns one range per token, in the order of the
    tokens: a number [N] gives [(N, N)] and [A-B] gives [(A, B)].  Nothing
    is sorted, merged or dropped. *)
Theorem parse_ranges_token_order (ts : list token) :
  ts ≠ [] →
  forallb valid_token ts = true →
  parse_ranges (spec_text ts) = Ok (token_range <$> ts).
Proof.
  intros Hne Hvalid. rewrite forallb_forall in Hvalid.
  unfold parse_ranges, spec_text.
  rewrite split_concat.
  - apply parse_parts_Ok. exists (token_range <$> ts). split; [done|].
    apply Forall2_fmap. apply Forall_Forall2_diag, Forall_forall.
    intros t Ht. apply parse_part_valid_token, Hvalid. by apply list_elem_of_In.
  - by destruct ts.
  - apply Forall_fmap, Forall_forall. intros t Ht.
    apply token_text_no_comma, Hvalid. by apply list_elem_of_In.
Qed.

(** The specification of the module's docstring, through the theorem. *)
Lemma parse_ranges_token_order_witness :
  parse_ranges "1-3,5,7-9" = Ok [(1, 3); (5, 5); (7, 9)]%Z.
Proof.
  apply (parse_ranges_token_order
           [Hyphenated "1" "3"; Single "5"; Hyphenated "7" "9"]).
  - discriminate.
  - reflexivity.
Defined.

(** Overlapping, repeated and descending tokens come back as written. *)
Example parse_ranges_keeps_overlaps :
  parse_ranges "7-9,1-3,2-5,5,5" = Ok [(7, 9); (1, 3); (2, 5); (5, 5); (5, 5)]%Z.
Proof. reflexivity. Qed.

(** C4, as the claim states it, fails: the tokens "0" and "0-3" are
    accepted, and the ranges returned have a bound that is not positive. *)
Lemma parse_ranges_accepts_zero :
  parse_ranges "0" = Ok [(0, 0)%Z] ∧ parse_ranges "0-3" = Ok [(0, 3)%Z]
  ∧ ¬ (∀ s rs a b,
         parse_ranges s = Ok rs → (a, b) ∈ rs → (0 < a)%Z ∧ (0 < b)%Z).
Proof.
  split; [done|]. split; [done|].
  intros H. destruct (H "0" [(0, 0)%Z] 0%Z 0%Z eq_refl) as [? _].
  - by apply list_elem_of_singleton.
  - lia.
Qed.

(** C4, amended.  No bound of a returned range is negative, and every
    returned range has its start at or before its end.  Zero is let
    through by the parser; it is the bounds check of [add_pages] that
    refuses a range starting at zero, as page 0. *)
Theorem parse_ranges_bounds_nonneg (s : string) (rs : list (Z * Z)) (a b : Z) :
  parse_ranges s = Ok rs →
  (a, b) ∈ rs →
  (0 ≤ a ≤ b)%Z.
Proof.
  unfold parse_ranges. intros (rs' & -> & H)%parse_parts_Ok Hin.
  cbn in Hin. apply list_elem_of_lookup in Hin as [i Hi].
  destruct (Forall2_lookup_r _ _ _ _ _ H Hi) as (part & _ & Hpart).
  by apply (parse_part_bounds part).
Qed.

Lemma parse_ranges_bounds_nonneg_witness : (0 ≤ 7 ≤ 9)%Z.
Proof.
  apply (parse_ranges_bounds_nonneg "1-3,5,7-9" [(1, 3); (5, 5); (7, 9)]%Z).
  - reflexivity.
  - apply list_elem_of_lookup. by exists 2.
Defined.

(** C6, as the claim states it, fails: "0--0" has two hyphens and is
    accepted, as the range (0, 0). *)
Lemma parse_ranges_accepts_double_hyphen :
  count_char "-" "0--0" = 2 ∧ parse_ranges "0--0" = Ok [(0, 0)%Z].
Proof. done. Qed.

(** A sign, an underscore between digits and white space around a
    bound are accepted as well, [int] accepting them. *)
Example parse_ranges_accepts_int_literals :
  parse_ranges "+5, 1_0 ,2 - 3" = Ok [(5, 5); (10, 10); (2, 3)]%Z.
Proof. reflexivity. Qed.

Lemma parse_parts_err_part parts acc :
  is_err (parse_parts parts acc) → ∃ part, part ∈ parts ∧ is_err (parse_part part).
Proof.
  revert acc. induction parts as [|part rest IH]; intros acc; [done|].
  rewrite parse_parts_cons. destruct (parse_part part) as [r|e] eqn:E; cbn.
  - intros (part' & Hin & Herr)%IH. exists part'. split; [by right|done].
  - intros _. exists part. split; [by left|]. by rewrite E.
Qed.

Lemma well_formed_all parts :
  (∀ part, part ∈ parts → well_formed part) → ∃ ts, Forall2 reads_as parts ts.
Proof.
  induction parts as [|part rest IH]; intros Hall; [by exists []|].
  destruct (Hall part) as [t Ht]; [by left|].
  destruct IH as [ts Hts]; [intros p Hp; apply Hall; by right|].
  exists (t :: ts). by constructor.
Qed.

(** C6, amended.  A specification of ASCII text is refused, with a
    [ValueError], exactly when one of its tokens is not well formed:
    when, stripped, the token is neither a literal of [int] nor two such
    literals, in order, joined by a hyphen.  When every token is well
    formed the ranges the tokens read as are returned.  So a
    specification is refused as soon as one of its tokens
    - is empty once stripped, or
    - holds a character that is no digit, hyphen, sign, underscore or
      white space, or
    - has two hyphens or more and does not read as the range (0, 0), or
    - is hyphenated with a first bound greater than the second;
    "3-1", "abc", "1--2" and the empty specification are refused, and so
    are "5-", "1 2", "1__2", "+" and "-5". *)
Theorem parse_ranges_rejects_malformed (s t : string) :
  isascii s = true →
  t ∈ split "," s →
  (is_value_error (parse_ranges s)
   ↔ ∃ part, part ∈ split "," s ∧ ¬ well_formed part)
  ∧ ((∀ part, part ∈ split "," s → well_formed part) →
     ∃ ts, Forall2 reads_as (split "," s) ts
           ∧ parse_ranges s = Ok (lenient_range <$> ts))
  ∧ (¬ well_formed t → is_value_error (parse_ranges s))
  ∧ (strip t = EmptyString → is_value_error (parse_ranges s))
  ∧ (∀ c, contains c t = true → numeric_char c = false →
       is_value_error (parse_ranges s))
  ∧ (2 ≤ count_char "-" t →
       is_value_error (parse_ranges s) ∨ parse_part t = Ok (0, 0)%Z)
  ∧ (∀ x y a b,
       contains "-" (strip t) = true →
       split_once "-" (strip t) = (x, y) →
       int x = Ok a → int y = Ok b → (a > b)%Z →
       is_value_error (parse_ranges s))
  ∧ is_value_error (parse_ranges "3-1")
  ∧ is_value_error (parse_ranges "abc")
  ∧ is_value_error (parse_ranges "1--2")
  ∧ is_value_error (parse_ranges "")
  ∧ is_value_error (parse_ranges "5-")
  ∧ is_value_error (parse_ranges "1 2")
  ∧ is_value_error (parse_ranges "1__2")
  ∧ is_value_error (parse_ranges "+")
  ∧ is_value_error (parse_ranges "-5").
Proof.
  intros _ Hin.
  assert (∀ part, part ∈ split "," s → is_err (parse_part part) →
                  is_value_error (parse_ranges s)) as Hbad.
  { intros part. apply parse_parts_bad_part. }
  split; [|split; [|split; [|split; [|split; [|split; [|split]]]]]].
  - split.
    + intros Herr. destruct (parse_parts_err_part (split "," s) []) as (part & Hp & He).
      { unfold parse_ranges in Herr. by destruct (parse_parts _ _) as [|[]]. }
      exists part. split; [done|]. by apply parse_part_refuses.
    + intros (part & Hp & Hno). by apply (Hbad part), parse_part_refuses.
  - intros Hall. destruct (well_formed_all _ Hall) as [ts Hts].
    exists ts. split; [done|]. apply parse_parts_Ok.
    exists (lenient_range <$> ts). split; [done|].
    apply Forall2_fmap_r. eapply Forall2_impl; [done|].
    intros part tok. apply parse_part_reads.
  - intros Hno. by apply (Hbad t), parse_part_refuses.
  - intros Hempty. by apply (Hbad t), parse_part_empty.
  - intros c Hc Hnum. by apply (Hbad t), (parse_part_bad_char c).
  - intros Hcount. destruct (parse_part_two_hyphens t Hcount); [|by right].
    left. by apply (Hbad t).
  - intros x y a b Hh Hxy Ha Hb Hgt.
    by apply (Hbad t), (parse_part_inverted t x y a b).
  - done.
Qed.

(** A token that ends with its hyphen. *)
Lemma parse_ranges_rejects_malformed_witness :
  is_value_error (parse_ranges "1-3,5-").
Proof.
  assert ("5-" ∈ split "," "1-3,5-") as Hin
    by (apply list_elem_of_lookup; by exists 1).
  apply (proj1 (proj2 (proj2
           (parse_ranges_rejects_malformed "1-3,5-" "5-" eq_refl Hin)))).
  by apply parse_part_refuses.
Defined.

End parse_ranges_claims.

(** * Facts about the file system operations *)

Section FSFacts.
Context {Page Image : Type}.
Implicit Types (st : gmap path (@node Page Image)) (p q : path).
Implicit Types (writer reader : list Page).

Lemma node_at_insert_ne st p q n :
  p ≠ q → node_at (<[p := n]> st) q = node_at st q.
Proof. intros Hne. destruct q; [done|]. cbn. by rewrite lookup_insert_ne. Qed.

Lemma node_at_insert_eq st c p n : node_at (<[c :: p := n]> st) (c :: p) = Some n.
Proof. cbn. by rewrite lookup_insert_eq. Qed.

Lemma is_dir_node_at st p : is_dir st p = true ↔ node_at st p = Some Dir.
Proof. unfold is_dir. destruct (node_at st p) as [[|]|]; naive_solver. Qed.

Lemma is_file_node_at st p :
  is_file st p = true ↔ ∃ c, node_at st p = Some (File c).
Proof.
  unfold is_file. destruct (node_at st p) as [[|c]|]; split;
    try done; try (by intros [? ?]); eauto.
Qed.

Lemma is_file_lookup st p : is_file st p = true → ∃ c, st !! p = Some (File c).
Proof. intros [c Hc]%is_file_node_at. destruct p; [done|]. by exists c. Qed.

Lemma for_each_app {A} (xs ys : list A) (body : A → M unit) st :
  for_each (xs ++ ys) body st =
    match for_each xs body st with
    | Done _ st' => for_each ys body st'
    | Raised e st' => Raised e st'
    end.
Proof.
  revert st. induction xs as [|x xs IH]; intros st; [done|].
  cbn. unfold mbind, M_bind. destruct (body x st) as [[] st'|e st']; [|done].
  apply IH.
Qed.

Lemma for_each_cons {A} (x : A) (xs : list A) (body : A → M unit) st :
  for_each (x :: xs) body st =
    match body x st with
    | Done _ st' => for_each xs body st'
    | Raised e st' => Raised e st'
    end.
Proof. done. Qed.

(** *** Making directories *)

Lemma mkdir_parents_unfold p st :
  mkdir_parents p st =
    match os_mkdir p st with
    | Done _ st' => Done tt st'
    | Raised (FileNotFoundError q) st' =>
        match p with
        | [] => Raised (FileNotFoundError q) st'
        | _ :: dir =>
            match mkdir_parents dir st' with
            | Done _ st'' => mkdir_exist_ok p st''
            | Raised e st'' => Raised e st''
            end
        end
    | Raised e st' => if is_dir st' p then Done tt st' else Raised e st'
    end.
Proof. by destruct p. Qed.

(** On a directory that exists, nothing happens. *)
Lemma mkdir_parents_dir p st :
  is_dir st p = true → mkdir_parents p st = Done tt st.
Proof.
  intros Hd. rewrite mkdir_parents_unfold. unfold os_mkdir.
  pose proof Hd as Hn%is_dir_node_at. by rewrite Hn, Hd.
Qed.

Lemma dirs_made_refl p st : node_at st p = Some Dir → dirs_made p st st.
Proof. intros H. split; [done|]. split; [done|]. intros q Hq. by left. Qed.

Lemma dirs_made_insert c p st st' :
  dirs_made p st st' → st !! (c :: p) = None →
  dirs_made (c :: p) st (<[c :: p := Dir]> st').
Proof.
  intros (Hp & Hkeep & Hnew) Hnone. split; [apply node_at_insert_eq|]. split.
  - intros q n Hq. rewrite lookup_insert_ne; [by apply Hkeep|].
    intros <-. congruence.
  - intros q Hq. destruct (decide (c :: p = q)) as [<-|Hne].
    + right. by rewrite lookup_insert_eq.
    + rewrite lookup_insert_ne by done.
      destruct (Hnew q Hq) as [?|[? ?]]; [by left|right].
      split; [done|]. by apply suffix_cons_r.
Qed.

(** With no regular file in the way, the directory and the missing ones
    above it are made, and nothing else changes. *)
Lemma mkdir_parents_ok p st :
  no_file_above st p = true →
  ∃ st', mkdir_parents p st = Done tt st' ∧ dirs_made p st st'.
Proof.
  revert st. induction p as [|c p IH]; intros st Hfree.
  { exists st. split; [done|]. by apply dirs_made_refl. }
  cbn [no_file_above] in Hfree.
  apply andb_prop in Hfree as [Hself%negb_true_iff Hfree'].
  assert (is_file st p = false) as Hup.
  { destruct p; [done|]. cbn [no_file_above] in Hfree'.
    by apply andb_prop in Hfree' as [?%negb_true_iff _]. }
  rewrite mkdir_parents_unfold. unfold os_mkdir.
  destruct (node_at st (c :: p)) as [[|f]|] eqn:Hn.
  - (* already a directory *)
    rewrite (proj2 (is_dir_node_at st (c :: p)) Hn).
    exists st. split; [done|]. by apply dirs_made_refl.
  - unfold is_file in Hself. by rewrite Hn in Hself.
  - cbn [parent tail]. destruct (node_at st p) as [[|f]|] eqn:Hp.
    + (* the parent exists *)
      eexists. split; [done|].
      apply dirs_made_insert; [by apply dirs_made_refl | done].
    + unfold is_file in Hup. by rewrite Hp in Hup.
    + (* the parent is missing: make it first *)
      destruct (IH st Hfree') as (st1 & -> & Hmade).
      pose proof Hmade as (Hp1 & Hkeep & Hnew).
      unfold mkdir_exist_ok, os_mkdir. cbn [parent tail].
      assert (st1 !! (c :: p) = None) as Hn1.
      { destruct (Hnew (c :: p) Hn) as [?|[_ Hsuf]]; [done|].
        by apply suffix_cons_not in Hsuf. }
      cbn [node_at]. rewrite Hn1.
      change (match p with [] => Some Dir | _ :: _ => st1 !! p end)
        with (node_at st1 p). rewrite Hp1.
      eexists. split; [done|]. by apply dirs_made_insert.
Qed.

Lemma mkdir_exist_ok_Done p st st' :
  mkdir_exist_ok p st = Done tt st' → is_dir st' p = true.
Proof.
  unfold mkdir_exist_ok, os_mkdir.
  destruct (node_at st p) as [n|] eqn:Hn.
  - destruct (is_dir st p) eqn:Hd; [|done]. by intros [= <-].
  - destruct (node_at st (parent p)) as [[|]|] eqn:Hp; try done.
    + intros [= <-]. apply is_dir_node_at. destruct p; [done|].
      apply node_at_insert_eq.
    + destruct (is_dir st p) eqn:Hd; [|done]. by intros [= <-].
Qed.

(** After a successful [mkdir] the directory is there. *)
Lemma mkdir_parents_Done p st st' :
  mkdir_parents p st = Done tt st' → is_dir st' p = true.
Proof.
  destruct p as [|c p]; [done|].
  rewrite mkdir_parents_unfold. unfold os_mkdir.
  destruct (node_at st (c :: p)) as [n|] eqn:Hn.
  - destruct (is_dir st (c :: p)) eqn:Hd; [|done]. by intros [= <-].
  - cbn [parent tail]. destruct (node_at st p) as [[|]|] eqn:Hp.
    + intros [= <-]. apply is_dir_node_at, node_at_insert_eq.
    + destruct (is_dir st (c :: p)) eqn:Hd; [|done]. by intros [= <-].
    + destruct (mkdir_parents p st) as [[] st1|]; [|done].
      apply mkdir_exist_ok_Done.
Qed.

Lemma os_mkdir_raises p st e st' :
  os_mkdir p st = Raised e st' → io_error e = true ∧ st' = st.
Proof.
  unfold os_mkdir. destruct (node_at st p); [by intros [= <- <-]|].
  destruct (node_at st (parent p)) as [[|]|]; by intros [= <- <-].
Qed.

Lemma mkdir_exist_ok_raises p st e st' :
  mkdir_exist_ok p st = Raised e st' → io_error e = true.
Proof.
  unfold mkdir_exist_ok. destruct (os_mkdir p st) as [[] st1|e1 st1] eqn:E; [done|].
  apply os_mkdir_raises in E as [He ->].
  destruct e1; try done; destruct (is_dir st p); try done; by intros [= <- <-].
Qed.

Lemma mkdir_parents_raises p st e st' :
  mkdir_parents p st = Raised e st' → io_error e = true.
Proof.
  revert st. induction p as [|c p IH]; intros st;
    rewrite mkdir_parents_unfold;
    destruct (os_mkdir _ st) as [[] st1|e1 st1] eqn:E; try done;
    apply os_mkdir_raises in E as [He ->].
  - destruct e1; try done; destruct (is_dir st []); try done; by intros [= <- <-].
  - destruct e1; try done;
      try (destruct (is_dir st (c :: p)); try done; by intros [= <- <-]).
    destruct (mkdir_parents p st) as [[] st2|e2 st2] eqn:E2.
    + apply mkdir_exist_ok_raises.
    + intros [= <- <-]. by apply (IH st).
Qed.

(** *** Writing a document *)

Lemma write_pdf_unfold writer p overwrite st :
  write_pdf writer p overwrite st =
    if bool_decide (is_Some (node_at st p)) && negb overwrite
    then Raised (FileExistsError p) st
    else match mkdir_parents (parent p) st with
         | Done _ st' => open_write p (Pdf writer) st'
         | Raised e st' => Raised e st'
         end.
Proof.
  unfold write_pdf, mbind, M_bind, path_exists.
  by destruct (bool_decide (is_Some (node_at st p)) && negb overwrite).
Qed.

Lemma open_write_raises p (c : @content Page Image) st e st' :
  open_write p c st = Raised e st' → io_error e = true ∧ st' = st.
Proof.
  unfold open_write. destruct (node_at st p) as [[|]|];
    try (by intros [= <- <-]);
    destruct (node_at st (parent p)) as [[|]|]; by intros [= <- <-].
Qed.

Lemma write_pdf_raises writer p overwrite st e st' :
  write_pdf writer p overwrite st = Raised e st' → io_error e = true.
Proof.
  rewrite write_pdf_unfold. destruct (_ && _); [by intros [= <- <-]|].
  destruct (mkdir_parents (parent p) st) as [[] st1|e1 st1] eqn:E.
  - by intros [? _]%open_write_raises.
  - intros [= <- <-]. by apply mkdir_parents_raises in E.
Qed.

(** Writing into a directory that exists. *)
Lemma write_pdf_in_dir writer p overwrite st :
  is_dir st (parent p) = true → target_free st p overwrite = true → p ≠ [] →
  write_pdf writer p overwrite st = Done tt (<[p := File (Pdf writer)]> st).
Proof.
  intros Hdir Hfree Hp. rewrite write_pdf_unfold.
  rewrite (mkdir_parents_dir _ _ Hdir). unfold open_write.
  apply is_dir_node_at in Hdir. rewrite Hdir.
  destruct p as [|c p]; [done|]. cbn [node_at]. unfold target_free in Hfree.
  destruct (st !! (c :: p)) as [[|f]|]; [done| |].
  - rewrite Hfree. by rewrite andb_false_r.
  - by rewrite bool_decide_eq_false_2 by (by intros [? ?]).
Qed.

End FSFacts.

(** * Facts about the splitter *)

Section SplitFacts.
Context {Page Image : Type}.
Implicit Types (st : gmap path (@node Page Image)) (p q : path).
Implicit Types (writer reader : list Page).

(** The loop of [add_pages] over indices that are all within bounds. *)
Lemma add_pages_loop_in_bounds reader (k i : nat) writer :
  i + k ≤ length reader →
  add_pages_loop writer reader (seqZ (Z.of_nat i) (Z.of_nat k)) =
    Ok (writer ++ take k (drop i reader)).
Proof.
  revert i writer. induction k as [|k IH]; intros i writer Hlen.
  { rewrite seqZ_nil by lia. cbn. by rewrite app_nil_r. }
  rewrite seqZ_cons by lia. cbn [add_pages_loop].
  destruct (Z.geb_spec (Z.of_nat i) (Z.of_nat (length reader))); [lia|].
  destruct (Z.ltb_spec (Z.of_nat i) 0); [lia|]. cbn [orb].
  rewrite Nat2Z.id.
  destruct (lookup_lt_is_Some_2 reader i) as [page Hpage]; [lia|].
  rewrite Hpage.
  replace (Z.succ (Z.of_nat i)) with (Z.of_nat (S i)) by lia.
  replace (Z.pred (Z.of_nat (S k))) with (Z.of_nat k) by lia.
  rewrite IH by lia. f_equal. rewrite <-app_assoc. f_equal.
  rewrite (drop_S reader page i Hpage). done.
Qed.

Lemma add_pages_in_bounds writer reader start end_ :
  (1 ≤ start)%Z → (end_ ≤ Z.of_nat (length reader))%Z →
  add_pages writer reader start end_ =
    Ok (writer ++ page_slice reader start end_).
Proof.
  intros Hs He. unfold add_pages, py_range, page_slice.
  destruct (Z.le_gt_cases start end_) as [Hle|Hgt].
  - replace (start - 1)%Z with (Z.of_nat (Z.to_nat (start - 1))) at 1 by lia.
    replace (end_ - (start - 1))%Z
      with (Z.of_nat (Z.to_nat (end_ - start + 1))) by lia.
    apply add_pages_loop_in_bounds. lia.
  - rewrite seqZ_nil by lia. replace (Z.to_nat (end_ - start + 1)) with 0 by lia.
    cbn. by rewrite app_nil_r.
Qed.

(** The loop of [add_pages] running from a valid index off the end. *)
Lemma add_pages_loop_past_end reader (m : nat) (i k : Z) writer :
  (0 ≤ i)%Z → Z.of_nat m = (Z.of_nat (length reader) - i)%Z →
  (Z.of_nat (length reader) - i < k)%Z →
  add_pages_loop writer reader (seqZ i k) =
    Err (IndexError (oob_message (Z.of_nat (length reader) + 1))).
Proof.
  revert i k writer. induction m as [|m IH]; intros i k writer Hi Hm Hk.
  - rewrite seqZ_cons by lia. cbn [add_pages_loop].
    destruct (Z.geb_spec i (Z.of_nat (length reader))); [|lia]. cbn [orb].
    by replace i with (Z.of_nat (length reader)) by lia.
  - rewrite seqZ_cons by lia. cbn [add_pages_loop].
    destruct (Z.geb_spec i (Z.of_nat (length reader))); [lia|].
    destruct (Z.ltb_spec i 0); [lia|]. cbn [orb].
    destruct (lookup_lt_is_Some_2 reader (Z.to_nat i)) as [page Hpage]; [lia|].
    rewrite Hpage. apply IH; lia.
Qed.

(** A range that needs an index out of bounds is refused, naming the
    first page that is out of bounds. *)
Lemma add_pages_out_of_bounds writer reader start end_ :
  (start ≤ end_)%Z → (start ≤ 0 ∨ Z.of_nat (length reader) < end_)%Z →
  add_pages writer reader start end_ =
    Err (IndexError (oob_message (offending_page start (Z.of_nat (length reader))))).
Proof.
  intros Hle Hout. unfold add_pages, py_range, offending_page.
  destruct (Z.leb_spec start 0) as [Hneg|Hpos].
  - rewrite seqZ_cons by lia. cbn [add_pages_loop].
    destruct (Z.ltb_spec (start - 1) 0); [|lia]. rewrite orb_true_r.
    by replace (start - 1 + 1)%Z with start by lia.
  - destruct Hout as [?|Hend]; [lia|].
    destruct (Z.le_gt_cases start (Z.of_nat (length reader))) as [Hin|Hpast].
    + rewrite Z.max_r by lia.
      apply (add_pages_loop_past_end reader
               (Z.to_nat (Z.of_nat (length reader) - (start - 1)))); lia.
    + rewrite Z.max_l by lia. rewrite seqZ_cons by lia. cbn [add_pages_loop].
      destruct (Z.geb_spec (start - 1) (Z.of_nat (length reader))); [|lia].
      cbn [orb]. by replace (start - 1 + 1)%Z with start by lia.
Qed.

Lemma page_slice_length reader start end_ :
  (1 ≤ start)%Z → (start ≤ end_)%Z → (end_ ≤ Z.of_nat (length reader))%Z →
  Z.of_nat (length (page_slice reader start end_)) = (end_ - start + 1)%Z.
Proof.
  intros. unfold page_slice. rewrite length_take, length_drop. lia.
Qed.

Lemma page_slice_lookup reader start end_ (k : nat) :
  (1 ≤ start)%Z → (Z.of_nat k ≤ end_ - start)%Z →
  page_slice reader start end_ !! k = reader !! (Z.to_nat (start - 1) + k).
Proof.
  intros. unfold page_slice. rewrite lookup_take_lt by lia. apply lookup_drop.
Qed.

(** *** The two loops of [split_pdf] *)

Lemma split_pdf_unfold src dest_dir ranges overwrite st :
  @split_pdf Page Image src dest_dir ranges overwrite st =
    match PdfReader src st with
    | Done reader st1 =>
        match mkdir_parents dest_dir st1 with
        | Done _ st2 =>
            match ranges with
            | None =>
                for_each (enumerate 1 reader)
                  (split_page src dest_dir overwrite) st2
            | Some ranges =>
                for_each ranges (split_range reader src dest_dir overwrite) st2
            end
        | Raised e st2 => Raised e st2
        end
    | Raised e st1 => Raised e st1
    end.
Proof.
  unfold split_pdf, mbind, M_bind.
  destruct (PdfReader src st) as [reader st1|]; [|done].
  destruct (mkdir_parents dest_dir st1) as [[] st2|]; [|done].
  by destruct ranges.
Qed.

Lemma PdfReader_Done src st reader st' :
  PdfReader src st = Done reader st' ↔
  node_at st src = Some (File (Pdf reader)) ∧ st' = st.
Proof.
  unfold PdfReader.
  destruct (node_at st src) as [[|[]]|]; [..|destruct (under_file st src)]; split;
    try done; try (by intros [? ?]).
  - by intros [= <- <-].
  - by intros [[= <-] ->].
Qed.

Lemma PdfReader_raises src st e st' :
  @PdfReader Page Image src st = Raised e st' → io_error e = true.
Proof.
  unfold PdfReader.
  destruct (node_at st src) as [[|[]]|]; [..|destruct (under_file st src)];
    by intros [= <- <-].
Qed.

Lemma split_range_unfold reader src dest_dir overwrite start end_ st :
  @split_range Page Image reader src dest_dir overwrite (start, end_) st =
    match add_pages [] reader start end_ with
    | Ok writer =>
        write_pdf writer (range_path src dest_dir start end_) overwrite st
    | Err e => Raised e st
    end.
Proof.
  unfold split_range, mbind, M_bind, lift.
  by destruct (add_pages [] reader start end_).
Qed.

(** A step of either loop leaves the output directory a directory. *)
Lemma write_pdf_keeps_dir writer name dest_dir overwrite st st' :
  is_dir st dest_dir = true →
  write_pdf writer (name :: dest_dir) overwrite st = Done tt st' →
  st' = <[name :: dest_dir := File (Pdf writer)]> st
  ∧ is_dir st' dest_dir = true.
Proof.
  intros Hdir. rewrite write_pdf_unfold. destruct (_ && _); [done|].
  cbn [parent tail]. rewrite (mkdir_parents_dir _ _ Hdir). unfold open_write.
  destruct (node_at st (name :: dest_dir)) as [[|]|]; [done| |];
    cbn [parent tail]; rewrite (proj1 (is_dir_node_at _ _) Hdir);
    intros [= <-]; (split; [done|]);
    apply is_dir_node_at; rewrite node_at_insert_ne;
    try (by apply is_dir_node_at);
    intros Heq; by apply (f_equal length) in Heq; cbn in Heq; lia.
Qed.

Lemma split_ranges_keep_dir reader src dest_dir overwrite ranges st st' :
  is_dir st dest_dir = true →
  for_each ranges (split_range reader src dest_dir overwrite) st = Done tt st' →
  is_dir st' dest_dir = true.
Proof.
  revert st. induction ranges as [|[start end_] ranges IH]; intros st Hdir.
  { by intros [= <-]. }
  rewrite for_each_cons, split_range_unfold.
  destruct (add_pages [] reader start end_) as [writer|]; [|done].
  destruct (write_pdf _ _ _ st) as [[] st1|] eqn:E; [|done].
  apply write_pdf_keeps_dir in E as [_ Hdir1]; [|done]. by apply IH.
Qed.

(** What a successful run over some ranges tells about its start. *)
Lemma split_pdf_ranges_Done src dest_dir ranges overwrite st st' :
  @split_pdf Page Image src dest_dir (Some ranges) overwrite st = Done tt st' →
  ∃ reader st2,
    node_at st src = Some (File (Pdf reader))
    ∧ mkdir_parents dest_dir st = Done tt st2
    ∧ for_each ranges (split_range reader src dest_dir overwrite) st2 = Done tt st'
    ∧ is_dir st' dest_dir = true.
Proof.
  rewrite split_pdf_unfold.
  destruct (PdfReader src st) as [reader st1|] eqn:E1; [|done].
  apply PdfReader_Done in E1 as [Hsrc ->].
  destruct (mkdir_parents dest_dir st) as [[] st2|] eqn:E2; [|done].
  intros Hrun. exists reader, st2. repeat split; try done.
  apply mkdir_parents_Done in E2.
  by apply (split_ranges_keep_dir reader src dest_dir overwrite ranges st2).
Qed.

(** Running a batch is running its first part, then the rest. *)
Lemma split_pdf_ranges_app src dest_dir pre post overwrite st st1 :
  @split_pdf Page Image src dest_dir (Some pre) overwrite st = Done tt st1 →
  ∃ reader,
    node_at st src = Some (File (Pdf reader))
    ∧ is_dir st1 dest_dir = true
    ∧ split_pdf src dest_dir (Some (pre ++ post)) overwrite st =
        for_each post (split_range reader src dest_dir overwrite) st1.
Proof.
  intros (reader & st2 & Hsrc & Hmk & Hrun & Hdir)%split_pdf_ranges_Done.
  exists reader. repeat split; try done.
  rewrite split_pdf_unfold.
  rewrite (proj2 (PdfReader_Done src st reader st)) by done.
  by rewrite Hmk, for_each_app, Hrun.
Qed.

(** *** The by-page loop *)

Lemma append_inj_r (s1 s2 t : string) : s1 +:+ t = s2 +:+ t → s1 = s2.
Proof.
  intros H. apply (f_equal list_ascii_of_string) in H.
  assert (∀ a b, list_ascii_of_string (a +:+ b)
                 = list_ascii_of_string a ++ list_ascii_of_string b) as Happ.
  { intros a b. induction a as [|c a IH]; simpl; [done|]. by rewrite IH. }
  rewrite !Happ in H. apply app_inv_tail in H.
  apply (f_equal string_of_list_ascii) in H.
  by rewrite !string_of_list_ascii_of_string in H.
Qed.

Lemma page_path_inj src dest_dir (j k : Z) :
  page_path src dest_dir j = page_path src dest_dir k → j = k.
Proof.
  unfold page_path. intros [= H].
  apply String.app_inj in H. apply (String.app_inj "_p") in H.
  apply append_inj_r in H. by apply (inj pretty) in H.
Qed.

Lemma page_path_not_dest src dest_dir k : page_path src dest_dir k ≠ dest_dir.
Proof.
  unfold page_path. intros Heq. apply (f_equal length) in Heq. cbn in Heq. lia.
Qed.

Lemma target_free_insert_ne st p q n overwrite :
  q ≠ p → target_free (<[q := n]> st) p overwrite = target_free st p overwrite.
Proof. intros Hne. unfold target_free. by rewrite lookup_insert_ne. Qed.

Lemma split_pages_loop src dest_dir overwrite (pages : list Page) (start : Z) st :
  is_dir st dest_dir = true →
  (∀ k, (start ≤ k < start + Z.of_nat (length pages))%Z →
        target_free st (page_path src dest_dir k) overwrite = true) →
  ∃ st',
    for_each (enumerate start pages) (split_page src dest_dir overwrite) st
      = Done tt st'
    ∧ (∀ (i : nat) page, pages !! i = Some page →
         st' !! page_path src dest_dir (start + Z.of_nat i)
           = Some (File (Pdf [page])))
    ∧ (∀ q, (∀ k, (start ≤ k < start + Z.of_nat (length pages))%Z →
                  q ≠ page_path src dest_dir k) →
            st' !! q = st !! q).
Proof.
  revert start st. induction pages as [|page pages IH]; intros start st Hdir Hfree.
  { exists st. repeat split; try done. }
  cbn [enumerate]. rewrite for_each_cons. cbn [split_page].
  rewrite write_pdf_in_dir; [|done|apply Hfree; cbn; lia|done].
  set (st1 := <[page_path src dest_dir start := File (Pdf ([] ++ [page]))]> st).
  destruct (IH (start + 1)%Z st1) as (st' & Hrun & Hpages & Hframe).
  - apply is_dir_node_at. unfold st1. rewrite node_at_insert_ne.
    + by apply is_dir_node_at.
    + apply page_path_not_dest.
  - intros k Hk. unfold st1. rewrite target_free_insert_ne.
    + apply Hfree. cbn [length]. lia.
    + intros Heq%page_path_inj. lia.
  - exists st'. split; [done|]. split.
    + intros [|i] pg Hpg.
      * cbn in Hpg. injection Hpg as <-. rewrite Hframe.
        -- unfold st1. replace (start + Z.of_nat 0)%Z with start by lia.
           by rewrite lookup_insert_eq.
        -- intros k Hk Heq%page_path_inj. lia.
      * cbn in Hpg. specialize (Hpages i pg Hpg).
        by replace (start + Z.of_nat (S i))%Z with (start + 1 + Z.of_nat i)%Z by lia.
    + intros q Hq. rewrite Hframe.
      * unfold st1. rewrite lookup_insert_ne; [done|].
        intros Heq. apply (Hq start); [cbn [length]; lia|done].
      * intros k Hk. apply Hq. cbn [length]. lia.
Qed.

Lemma split_pages_raises src dest_dir overwrite (items : list (Z * Page)) st e st' :
  for_each items (split_page src dest_dir overwrite) st = Raised e st' →
  io_error e = true.
Proof.
  revert st. induction items as [|[k page] items IH]; intros st; [done|].
  rewrite for_each_cons. cbn [split_page].
  destruct (write_pdf _ _ _ st) as [[] st1|e1 st1] eqn:E.
  - apply IH.
  - intros [= <- <-]. by apply write_pdf_raises in E.
Qed.

Lemma dirs_made_frame p st st' q :
  dirs_made p st st' → ¬ q `suffix_of` p → st' !! q = st !! q.
Proof.
  intros (_ & Hkeep & Hnew) Hq. destruct (st !! q) as [n|] eqn:E.
  - by apply Hkeep.
  - destruct (Hnew q E) as [?|[_ ?]]; done.
Qed.

Lemma target_free_dirs_made c p st st' overwrite :
  dirs_made p st st' →
  target_free st' (c :: p) overwrite = target_free st (c :: p) overwrite.
Proof.
  intros Hmade. unfold target_free.
  rewrite (dirs_made_frame p st st'); [done|done|]. apply suffix_cons_not.
Qed.

End SplitFacts.

(** * The splitter: writing, extracting ranges, splitting by page *)

Section write_pdf_claims.
Context {Page Image : Type}.
Implicit Types (st : gmap path (@node Page Image)) (p q : path).
Implicit Types (writer reader : list Page).

(** C8.  [write_pdf] on a path that exists, without [overwrite], raises
    [FileExistsError] and leaves the file system as it was.  Otherwise
    (no regular file being in the way of the directories, and the path
    not being a directory itself) it succeeds: the document is at the
    path, its parent is a directory, what was there before is unchanged
    apart from the path, and what is new apart from the path are
    directories at or above the parent. *)
Theorem write_pdf_collision_policy writer p overwrite st :
  (is_Some (node_at st p) → overwrite = false →
     write_pdf writer p overwrite st = Raised (FileExistsError p) st)
  ∧ (node_at st p = None ∨ overwrite = true →
     no_file_above st (parent p) = true →
     node_at st p ≠ Some Dir →
     ∃ st',
       write_pdf writer p overwrite st = Done tt st'
       ∧ st' !! p = Some (File (Pdf writer))
       ∧ is_dir st' (parent p) = true
       ∧ (∀ q n, q ≠ p → st !! q = Some n → st' !! q = Some n)
       ∧ (∀ q, q ≠ p → st !! q = None →
            st' !! q = None ∨ (st' !! q = Some Dir ∧ q `suffix_of` parent p))).
Proof.
  split.
  - intros Hex ->. rewrite write_pdf_unfold.
    by rewrite bool_decide_eq_true_2.
  - intros Hfree Habove Hnodir. rewrite write_pdf_unfold.
    assert (bool_decide (is_Some (node_at st p)) && negb overwrite = false) as ->.
    { destruct Hfree as [-> | ->]; [|by rewrite andb_false_r].
      by rewrite bool_decide_eq_false_2 by (by intros [? ?]). }
    destruct (mkdir_parents_ok (parent p) st Habove) as (st1 & -> & Hmade).
    pose proof Hmade as (Hdir & Hkeep & Hnew).
    destruct p as [|c p]; [done|]. cbn [parent tail node_at] in *.
    assert (st1 !! (c :: p) = st !! (c :: p)) as Hsame.
    { apply (dirs_made_frame p); [done|]. apply suffix_cons_not. }
    unfold open_write. cbn [parent tail node_at]. rewrite Hsame.
    change (match p with [] => Some Dir | _ :: _ => st1 !! p end)
      with (node_at st1 p). rewrite Hdir.
    exists (<[c :: p := File (Pdf writer)]> st1).
    split; [by destruct (st !! (c :: p)) as [[|]|]|].
    split; [by rewrite lookup_insert_eq|].
    split; [|split].
    + apply is_dir_node_at. rewrite node_at_insert_ne; [done|].
      intros Heq. apply (f_equal length) in Heq. cbn in Heq. lia.
    + intros q n Hq Hn. rewrite lookup_insert_ne by done. by apply Hkeep.
    + intros q Hq Hn. rewrite lookup_insert_ne by done. by apply Hnew.
Qed.

End write_pdf_claims.

Lemma write_pdf_collision_policy_witness :
  write_pdf [7] report false home_fs = Raised (FileExistsError report) home_fs
  ∧ ∃ st',
      write_pdf [7] ("a.pdf" :: out_dir) false home_fs = Done tt st'
      ∧ st' !! ("a.pdf" :: out_dir) = Some (File (Pdf [7]))
      ∧ is_dir st' out_dir = true.
Proof.
  split.
  - apply (write_pdf_collision_policy [7] report false home_fs); by eexists.
  - destruct (proj2 (write_pdf_collision_policy
                       [7] ("a.pdf" :: out_dir) false home_fs))
      as (st' & Hrun & Hdoc & Hdir & _).
    + by left.
    + reflexivity.
    + discriminate.
    + by exists st'.
Defined.

Section split_pdf_claims.
Context {Page Image : Type}.
Implicit Types (st : gmap path (@node Page Image)) (p q : path).
Implicit Types (writer reader : list Page).

(** C7.  In a batch of ranges, once the earlier ranges are done, a range
    [(start, end_)] within the bounds of the source, whose target is free
    (or may be overwritten), is written as one document: the pages
    [start-1 .. end_-1] of the source in ascending order, under the name
    [<stem>_<start>.pdf] when [start = end_] and [<stem>_<start>-<end_>.pdf]
    otherwise, in the output directory; the batch then goes on with the
    ranges that follow. *)
Theorem split_pdf_range_output src dest_dir pre start end_ overwrite st st1 reader :
  node_at st src = Some (File (Pdf reader)) →
  split_pdf src dest_dir (Some pre) overwrite st = Done tt st1 →
  (1 ≤ start ≤ end_)%Z →
  (end_ ≤ Z.of_nat (length reader))%Z →
  target_free st1 (range_path src dest_dir start end_) overwrite = true →
  let pages := page_slice reader start end_ in
  let st2 := <[range_path src dest_dir start end_ := File (Pdf pages)]> st1 in
  split_pdf src dest_dir (Some (pre ++ [(start, end_)])) overwrite st = Done tt st2
  ∧ (∀ post,
       split_pdf src dest_dir (Some (pre ++ (start, end_) :: post)) overwrite st
         = for_each post (split_range reader src dest_dir overwrite) st2)
  ∧ Z.of_nat (length pages) = (end_ - start + 1)%Z
  ∧ (∀ k : nat, (Z.of_nat k ≤ end_ - start)%Z →
       pages !! k = reader !! (Z.to_nat (start - 1) + k))
  ∧ range_path src dest_dir start end_ =
      (PyStr.stem (name src) +:+ "_"
       +:+ (if bool_decide (start = end_) then pretty start
            else pretty start +:+ "-" +:+ pretty end_)
       +:+ ".pdf") :: dest_dir.
Proof.
  intros Hsrc Hpre Hrange Hend Hfree pages st2.
  assert (∀ post,
    split_pdf src dest_dir (Some (pre ++ (start, end_) :: post)) overwrite st
      = for_each post (split_range reader src dest_dir overwrite) st2) as Hgo.
  { intros post.
    destruct (split_pdf_ranges_app src dest_dir pre ((start, end_) :: post)
                overwrite st st1 Hpre) as (reader' & Hsrc' & Hdir & ->).
    assert (reader' = reader) as -> by congruence.
    rewrite for_each_cons, split_range_unfold.
    rewrite add_pages_in_bounds by lia. cbn [app].
    by rewrite write_pdf_in_dir. }
  split; [apply (Hgo [])|]. split; [done|]. split; [|split].
  - apply page_slice_length; lia.
  - intros k Hk. apply page_slice_lookup; lia.
  - done.
Qed.

(** C3, amended.  In a batch of ranges, once the earlier ranges are done,
    a range that needs a page index below 0 or at or beyond the page count
    makes [split_pdf] raise an [IndexError] whose message names the first
    such page, by its 1-based number; the file system is left exactly as
    the earlier ranges left it: their documents stay, nothing is written
    for this range nor for those after it. *)
Theorem split_pdf_range_out_of_bounds
    src dest_dir pre start end_ post overwrite st st1 reader :
  node_at st src = Some (File (Pdf reader)) →
  split_pdf src dest_dir (Some pre) overwrite st = Done tt st1 →
  (start ≤ end_)%Z →
  (start ≤ 0 ∨ Z.of_nat (length reader) < end_)%Z →
  let page_no := offending_page start (Z.of_nat (length reader)) in
  split_pdf src dest_dir (Some (pre ++ (start, end_) :: post)) overwrite st
    = Raised (IndexError ("Page " +:+ pretty page_no +:+ " is out of bounds")) st1
  ∧ (start ≤ page_no ≤ end_)%Z
  ∧ (page_no - 1 < 0 ∨ Z.of_nat (length reader) ≤ page_no - 1)%Z
  ∧ (∀ k : Z, start ≤ k < page_no → 0 ≤ k - 1 < Z.of_nat (length reader))%Z.
Proof.
  intros Hsrc Hpre Hle Hout page_no.
  destruct (split_pdf_ranges_app src dest_dir pre ((start, end_) :: post)
              overwrite st st1 Hpre) as (reader' & Hsrc' & Hdir & ->).
  assert (reader' = reader) as -> by congruence.
  split.
  - rewrite for_each_cons, split_range_unfold.
    by rewrite add_pages_out_of_bounds.
  - unfold page_no, offending_page.
    destruct (Z.leb_spec start 0); repeat split; try intros k Hk; lia.
Qed.

(** C10.  Splitting by page never raises an [IndexError].  When the source
    is a document of N pages, no regular file is in the way of the output
    directory and the N targets are free (or may be overwritten), the run
    succeeds and leaves, for each page index [i] below N, a document
    holding just that page at [<stem>_p<i+1>.pdf]; the N paths differ
    from each other and nothing else changes once the output directory is
    made. *)
Theorem split_pdf_by_page src dest_dir overwrite st reader :
  (∀ e st', split_pdf src dest_dir None overwrite st = Raised e st' →
            is_index_error e = false)
  ∧ (node_at st src = Some (File (Pdf reader)) →
     no_file_above st dest_dir = true →
     (∀ k, (1 ≤ k ≤ Z.of_nat (length reader))%Z →
           target_free st (page_path src dest_dir k) overwrite = true) →
     ∃ st2 st',
       mkdir_parents dest_dir st = Done tt st2
       ∧ split_pdf src dest_dir None overwrite st = Done tt st'
       ∧ (∀ (i : nat) page, reader !! i = Some page →
            st' !! page_path src dest_dir (Z.of_nat i + 1)
              = Some (File (Pdf [page])))
       ∧ (∀ q, (∀ k, (1 ≤ k ≤ Z.of_nat (length reader))%Z →
                     q ≠ page_path src dest_dir k) →
               st' !! q = st2 !! q)
       ∧ (∀ j k, page_path src dest_dir j = page_path src dest_dir k → j = k)).
Proof.
  split.
  - intros e st'. rewrite split_pdf_unfold.
    assert (io_error e = true → is_index_error e = false) as Hio
      by (by destruct e).
    destruct (PdfReader src st) as [pages st1|e1 st1] eqn:E1.
    + destruct (mkdir_parents dest_dir st1) as [[] st2|e2 st2] eqn:E2.
      * intros Hrun%split_pages_raises. auto.
      * intros [= <- <-]. apply mkdir_parents_raises in E2. auto.
    + intros [= <- <-]. apply PdfReader_raises in E1. auto.
  - intros Hsrc Habove Hfree.
    destruct (mkdir_parents_ok dest_dir st Habove) as (st2 & Hmk & Hmade).
    destruct (split_pages_loop src dest_dir overwrite reader 1 st2)
      as (st' & Hrun & Hpages & Hframe).
    + by apply mkdir_parents_Done in Hmk.
    + intros k Hk. unfold page_path. rewrite (target_free_dirs_made _ _ st st2) by done.
      apply Hfree. lia.
    + exists st2, st'. split; [done|]. split.
      { rewrite split_pdf_unfold.
        rewrite (proj2 (PdfReader_Done src st reader st)) by done.
        by rewrite Hmk. }
      split.
      { intros i page Hi. rewrite <-(Hpages i page Hi). f_equal. f_equal. lia. }
      split.
      { intros q Hq. apply Hframe. intros k Hk. apply Hq. lia. }
      apply page_path_inj.
Qed.

End split_pdf_claims.

(** ** The claims of the splitter on the ten-page report *)

Lemma split_pdf_range_output_witness :
  split_pdf report out_dir (Some [(2, 4)]%Z) false home_fs = Done tt home_fs_2_4
  ∧ page_slice ten_pages 2 4 = [2; 3; 4].
Proof.
  destruct (split_pdf_range_output report out_dir [] 2 4 false home_fs
              (<[out_dir := Dir]> home_fs) ten_pages) as (Hrun & _).
  - reflexivity.
  - reflexivity.
  - lia.
  - cbn. lia.
  - reflexivity.
  - split; [exact Hrun | reflexivity].
Defined.

Lemma split_pdf_range_out_of_bounds_witness :
  split_pdf report out_dir (Some [(2, 4); (9, 12); (1, 1)]%Z) false home_fs
    = Raised (IndexError "Page 11 is out of bounds") home_fs_2_4.
Proof.
  apply (split_pdf_range_out_of_bounds report out_dir [(2, 4)]%Z 9 12 [(1, 1)]%Z
           false home_fs home_fs_2_4 ten_pages).
  - reflexivity.
  - reflexivity.
  - lia.
  - cbn. lia.
Defined.

(** C3, as the claim states it, fails: the exception does not tell the
    range it came from.  The ranges (9, 12) and (11, 11) of the ten-page
    report raise the same exception, so that no reading of the exception
    gives back the range. *)
Lemma index_error_does_not_name_range :
  split_pdf report out_dir (Some [(9, 12)]%Z) false home_fs
    = split_pdf report out_dir (Some [(11, 11)]%Z) false home_fs
  ∧ ¬ ∃ range_of : exn → Z * Z,
        ∀ start end_ e st',
          split_pdf report out_dir (Some [(start, end_)]) false home_fs
            = Raised e st' →
          is_index_error e = true →
          range_of e = (start, end_).
Proof.
  split; [reflexivity|].
  intros [range_of H].
  pose proof (H 9 12 (IndexError "Page 11 is out of bounds")
                (<[out_dir := Dir]> home_fs) eq_refl eq_refl)%Z as H1.
  pose proof (H 11 11 (IndexError "Page 11 is out of bounds")
                (<[out_dir := Dir]> home_fs) eq_refl eq_refl)%Z as H2.
  congruence.
Qed.

Lemma split_pdf_by_page_witness :
  ∃ st',
    split_pdf report out_dir None false home_fs = Done tt st'
    ∧ st' !! page_path report out_dir 10 = Some (File (Pdf [10])).
Proof.
  destruct (proj2 (split_pdf_by_page report out_dir false home_fs ten_pages))
    as (st2 & st' & _ & Hrun & Hpages & _).
  - reflexivity.
  - reflexivity.
  - intros k Hk. cbn in Hk.
    assert (k ∈ seqZ 1 10) as Hin by (apply elem_of_seqZ; lia).
    vm_compute in Hin.
    repeat (apply elem_of_cons in Hin as [->|Hin]; [reflexivity|]).
    by apply elem_of_nil in Hin.
  - exists st'. split; [done|]. by apply (Hpages 9).
Defined.

(** * Facts about the merger *)

Section SortFacts.
Context {A : Type} (key : A → string).

Lemma leb_total (s t : string) : String.leb s t = true ∨ String.leb t s = true.
Proof.
  destruct (String.le_total s t) as [H|H]; [left|right];
    by apply Is_true_true in H.
Qed.

Lemma leb_trans (s t u : string) :
  String.leb s t = true → String.leb t u = true → String.leb s u = true.
Proof.
  intros H1%Is_true_true H2%Is_true_true. apply Is_true_true.
  by apply (transitivity (R := String.le) H1 H2).
Qed.


(** Where [insert_sorted] puts its element: after the elements it
    passes, all of a key strictly below. *)
Lemma insert_sorted_split (x : A) (l : list A) :
  ∃ l1 l2,
    l = l1 ++ l2
    ∧ insert_sorted key x l = l1 ++ x :: l2
    ∧ Forall (λ y, String.leb (key x) (key y) = false) l1
    ∧ match l2 with
      | [] => True
      | y :: _ => String.leb (key x) (key y) = true
      end.
Proof.
  induction l as [|y l (l1 & l2 & -> & Hins & Hl1 & Hl2)]; cbn.
  { by exists [], []. }
  destruct (String.leb (key x) (key y)) eqn:E.
  - by exists [], (y :: l1 ++ l2).
  - exists (y :: l1), l2. rewrite Hins. repeat split; try done.
    by constructor.
Qed.

Lemma insert_sorted_perm (x : A) (l : list A) : insert_sorted key x l ≡ₚ x :: l.
Proof.
  destruct (insert_sorted_split x l) as (l1 & l2 & -> & -> & _).
  by rewrite Permutation_middle.
Qed.

Lemma sorted_perm (l : list A) : sorted key l ≡ₚ l.
Proof.
  induction l as [|x l IH]; [done|]. cbn.
  by rewrite insert_sorted_perm, IH.
Qed.

Lemma sorted_nil_inv (l : list A) : sorted key l = [] → l = [].
Proof.
  intros H. apply Permutation_nil_r. rewrite <-H. by rewrite sorted_perm.
Qed.

Lemma insert_sorted_Sorted (x : A) (l : list A) :
  Sorted (key_le key) l → Sorted (key_le key) (insert_sorted key x l).
Proof.
  induction 1 as [|y l Hl IH Hhd]; cbn.
  { by repeat constructor. }
  destruct (String.leb (key x) (key y)) eqn:E.
  - constructor; [by constructor|]. by constructor.
  - constructor; [done|].
    assert (key_le key y x) as Hyx by (by destruct (leb_total (key x) (key y)); [congruence|]).
    destruct Hhd as [|z l' Hyz]; cbn.
    + by constructor.
    + destruct (String.leb (key x) (key z)); by constructor.
Qed.

Lemma sorted_Sorted (l : list A) : Sorted (key_le key) (sorted key l).
Proof.
  induction l as [|x l IH]; cbn; [constructor|]. by apply insert_sorted_Sorted.
Qed.

Lemma sorted_StronglySorted (l : list A) : StronglySorted (key_le key) (sorted key l).
Proof.
  apply Sorted_StronglySorted; [|apply sorted_Sorted].
  intros x y z. apply leb_trans.
Qed.


End SortFacts.

Section MergeFacts.
Context {Page Image : Type} (render : Image → Page).
Implicit Types (st : gmap path (@node Page Image)) (f : @dirent Page Image).
Implicit Types (merger : list Page).


Lemma add_file_to_merger_kind f merger :
  add_file_to_merger render f merger =
    match kind_of (d_name f) with
    | MultiPageDocument =>
        match d_data f with
        | Pdf pages => Ok (merger ++ pages)
        | _ => Err (PdfReadError (d_name f))
        end
    | SingleImage =>
        match d_data f with
        | Picture img => Ok (merger ++ [render img])
        | Unsavable _ => Err (ValueError "cannot save mode")
        | _ => Err (UnidentifiedImageError (d_name f))
        end
    | Unsupported => Ok merger
    end.
Proof.
  unfold add_file_to_merger, kind_of, IMAGE_EXTS, images_to_pdf_bytes.
  repeat case_bool_decide; try done; by destruct (d_data f).
Qed.

Lemma add_file_to_merger_resolves f merger :
  resolves f = true →
  add_file_to_merger render f merger = Ok (merger ++ source_pages render f).
Proof.
  rewrite add_file_to_merger_kind. unfold resolves, source_pages.
  destruct (kind_of (d_name f)), (d_data f); try done.
  all: by rewrite app_nil_r.
Qed.

Lemma merge_files_resolve files merger :
  Forall (λ f, resolves f = true) files →
  merge_files render files merger =
    Ok (merger ++ concat (source_pages render <$> files)).
Proof.
  intros H. revert merger. induction H as [|f files Hf Hfiles IH]; intros merger.
  { cbn. by rewrite app_nil_r. }
  cbn [merge_files]. rewrite add_file_to_merger_resolves by done. cbn.
  rewrite IH. by rewrite <-app_assoc.
Qed.

(** Files of an unsupported kind are passed over. *)
Lemma merge_files_unsupported files merger :
  Forall (λ f, kind_of (d_name f) = Unsupported) files →
  merge_files render files merger = Ok merger.
Proof.
  intros H. revert merger. induction H as [|f files Hf Hfiles IH]; intros merger.
  { done. }
  cbn [merge_files]. rewrite add_file_to_merger_kind, Hf. cbn. apply IH.
Qed.

Lemma merge_directory_unfold input_dir listing output_pdf st :
  merge_directory render input_dir listing output_pdf st =
    match sorted (λ p, PyStr.lower (d_name p))
            (filter (λ p, d_is_file p) listing) with
    | [] =>
        Raised (SystemExit ("No supported files found in " +:+ str_path input_dir)) st
    | files =>
        match merge_files render files [] with
        | Ok merger => open_write output_pdf (Pdf merger) st
        | Err e => Raised e st
        end
    end.
Proof.
  unfold merge_directory.
  destruct (sorted _ _) as [|f files]; [done|].
  unfold mbind, M_bind, lift. by destruct (merge_files render (f :: files) []).
Qed.

Lemma open_write_in_dir p (c : @content Page Image) st :
  is_dir st (parent p) = true → node_at st p ≠ Some Dir →
  open_write p c st = Done tt (<[p := File c]> st).
Proof.
  intros Hdir%is_dir_node_at Hp. unfold open_write. rewrite Hdir.
  by destruct (node_at st p) as [[|]|].
Qed.

(** [str.lower] on ASCII text: the capitals stand for their small
    letters, nothing else changes. *)
Lemma lower_char_fold_case (c : ascii) : PyStr.lower_char c = fold_case c.
Proof. destruct c as [[] [] [] [] [] [] [] []]; reflexivity. Qed.

Lemma lower_caseless (s : string) : PyStr.lower s = caseless s.
Proof.
  induction s as [|c s IH]; [done|]. cbn [PyStr.lower caseless].
  by rewrite IH, lower_char_fold_case.
Qed.



End MergeFacts.

(** * The merger: the order of the pages, and the empty input *)

Section merge_directory_claims.
Context {Page Image : Type} (render : Image → Page).
Implicit Types (st : gmap path (@node Page Image)) (f : @dirent Page Image).

(** The part of C1 the code keeps: a directory without a regular file
    makes [merge_directory] exit, and nothing is written. *)
Lemma merge_directory_no_files input_dir listing output_pdf st :
  filter (λ p, d_is_file p) listing = [] →
  merge_directory render input_dir listing output_pdf st =
    Raised (SystemExit ("No supported files found in " +:+ str_path input_dir)) st.
Proof. intros H. rewrite merge_directory_unfold, H. done. Qed.

(** The part it misses: with regular files, all of an unsupported kind,
    no exception is raised and the output is opened and written, empty. *)
Lemma merge_directory_all_unsupported input_dir listing output_pdf st :
  filter (λ p, d_is_file p) listing ≠ [] →
  Forall (λ f, kind_of (d_name f) = Unsupported)
         (filter (λ p, d_is_file p) listing) →
  merge_directory render input_dir listing output_pdf st =
    open_write output_pdf (Pdf []) st.
Proof.
  intros Hne Hall. rewrite merge_directory_unfold.
  destruct (sorted _ _) as [|f files] eqn:E.
  { by apply sorted_nil_inv in E. }
  rewrite merge_files_unsupported; [done|].
  rewrite <-E. by rewrite sorted_perm.
Qed.


End merge_directory_claims.


(** Names that differ in case only are sorted as one name. *)
Example merge_directory_ignores_case :
  sorted name_key
    [Dirent "b.PNG" true (Picture 20); Dirent "C.jpg" true (Picture 30);
     Dirent "A.PDF" true (Pdf [11])]
  = [Dirent "A.PDF" true (Pdf [11]); Dirent "b.PNG" true (Picture 20);
     Dirent "C.jpg" true (Picture 30)]
  ∧ kind_of "A.PDF" = MultiPageDocument ∧ kind_of "b.PNG" = SingleImage.
Proof. done. Qed.

(** C1 on a directory that holds a text file only: the merge does not
    exit; it writes a document without pages. *)
Theorem merge_directory_unsupported_only :
  merge_directory (λ img, img + 1) ["notes"] notes ["merged.pdf"] ∅
    = Done tt (<[["merged.pdf"] := File (Pdf [])]> ∅)
  ∧ kind_of "notes.txt" = Unsupported.
Proof.
  split; [|done]. rewrite merge_directory_all_unsupported.
  - reflexivity.
  - discriminate.
  - by repeat constructor.
Qed.

(** * The compressor: cleaning up after a failed run *)

Section compress_pdf_claims.
Context {Page Image : Type} (nbytes : @node Page Image → Z).
Implicit Types (st : gmap path (@node Page Image)) (p q : path).
Implicit Types (run : list string → @M Page Image Z).

Lemma remove_and_reraise_spec {A} p e st :
  ∃ e',
    @remove_and_reraise Page Image A p e st
      = Raised e' (if is_file st p then delete p st else st)
    ∧ (is_dir st p = false → e' = e).
Proof.
  unfold remove_and_reraise, mbind, M_bind, path_exists, os_remove, is_file, is_dir.
  destruct (node_at st p) as [[|c]|] eqn:Hn.
  - rewrite bool_decide_eq_true_2 by (by eexists). rewrite Hn.
    eexists. split; [done|]. done.
  - rewrite bool_decide_eq_true_2 by (by eexists). rewrite Hn.
    eexists. split; [done|]. done.
  - rewrite bool_decide_eq_false_2 by (by intros [? ?]).
    eexists. split; [done|]. done.
Qed.

Lemma is_file_cleaned st p :
  is_file (if is_file st p then delete p st else st) p = false.
Proof.
  destruct (is_file st p) eqn:E; [|done].
  unfold is_file in *. destruct p as [|c p]; [done|]. cbn [node_at].
  by rewrite lookup_delete_eq.
Qed.

(** C9.  Once the inputs are accepted (the input is a regular file, the
    output is free or [force] is set, the level is one of the five), a run
    of the optimizer that exits with a status other than zero, or that
    leaves no output, makes [compress_pdf] raise; and when it has raised,
    no regular file is left at the output path: the file the process may
    have left there has been removed.  The exception is the
    [CalledProcessError] of the exit status, or the [FileNotFoundError]
    of the missing output (unless the output path is a directory, which
    cannot be removed). *)
Theorem compress_pdf_failure_cleanup
    run input_path output_path compression_level force st code st1 :
  let out := default (default_output input_path) output_path in
  is_file st input_path = true →
  node_at st out = None ∨ force = true →
  compression_level ∈ (@COMPRESSION_LEVELS).*1 →
  run (gs_command compression_level out input_path) st = Done code st1 →
  code ≠ 0%Z ∨ node_at st1 out = None →
  ∃ e,
    compress_pdf nbytes run input_path output_path compression_level force st
      = Raised e (if is_file st1 out then delete out st1 else st1)
    ∧ is_file (if is_file st1 out then delete out st1 else st1) out = false
    ∧ (is_dir st1 out = false →
       e = if bool_decide (code = 0%Z) then FileNotFoundError out
           else CalledProcessError code).
Proof.
  intros out Hin Hout Hlevel Hrun Hfail.
  (* the checks before the process is started *)
  unfold compress_pdf, mbind at 1, M_bind at 1, os_path_isfile. rewrite Hin.
  cbn [negb]. fold out.
  unfold mbind at 1, M_bind at 1, path_exists at 1.
  assert (bool_decide (is_Some (node_at st out)) && negb force = false) as ->.
  { destruct Hout as [-> | ->]; [|by rewrite andb_false_r].
    by rewrite bool_decide_eq_false_2 by (by intros [? ?]). }
  rewrite bool_decide_eq_true_2 by done. cbn [negb].
  unfold mbind at 1, M_bind at 1, get_file_size at 1, getsize at 1.
  apply is_file_node_at in Hin as [c ->].
  (* the process *)
  unfold try_except, subprocess_run_check.
  unfold mbind at 1, M_bind at 1. unfold mbind at 1, M_bind at 1.
  rewrite Hrun. case_bool_decide as Hcode.
  - (* the process exits with 0 and leaves no output *)
    destruct Hfail as [?|Hnone]; [done|].
    unfold mret at 1, M_ret at 1.
    unfold mbind at 1, M_bind at 1, path_exists at 1. rewrite Hnone.
    rewrite bool_decide_eq_false_2 by (by intros [? ?]). unfold raise at 1.
    destruct (remove_and_reraise_spec (A := path) out (FileNotFoundError out) st1)
      as (e' & -> & He').
    exists e'. split; [done|]. split; [apply is_file_cleaned|done].
  - (* the process exits with another status *)
    unfold raise at 1.
    destruct (remove_and_reraise_spec (A := path) out (CalledProcessError code) st1)
      as (e' & -> & He').
    exists e'. split; [done|]. split; [apply is_file_cleaned|done].
Qed.

End compress_pdf_claims.

(** The optimizer fails on the report, having started to write: the
    exception is passed on and the home directory is as it was. *)
Lemma compress_pdf_failure_cleanup_witness :
  compress_pdf (λ _, 1%Z) failing_gs report None "ebook" false home_fs
    = Raised (CalledProcessError 1) home_fs.
Proof.
  destruct (compress_pdf_failure_cleanup (λ _, 1%Z) failing_gs report None
              "ebook" false home_fs 1%Z
              (<["report_compressed.pdf" :: ["home"] := File (Data "%PDF-1.4")]>
                 home_fs))
    as (e & Hrun & _ & He).
  - reflexivity.
  - by left.
  - by apply (bool_decide_unpack _).
  - reflexivity.
  - by left.
  - rewrite Hrun, He by reflexivity. reflexivity.
Defined.

(** * More about the range parser *)

Section parse_ranges_more.
Import PyStr PyStrFacts IntFacts ParseFacts.

(** X1.  [parse_ranges] returns one range for each token of the
    specification: as many ranges as the text has commas, and one more.
    In particular it never returns the empty list. *)
Theorem parse_ranges_length (s : string) (rs : list (Z * Z)) :
  parse_ranges s = Ok rs → length rs = S (count_char "," s).
Proof.
  unfold parse_ranges. intros (rs' & -> & H)%parse_parts_Ok.
  cbn. by rewrite <-(Forall2_length _ _ _ H), split_length.
Qed.

Lemma parse_ranges_length_witness : length [(1, 3); (5, 5); (7, 9)]%Z = 3.
Proof.
  apply (parse_ranges_length "1-3,5,7-9" [(1, 3); (5, 5); (7, 9)]%Z).
  reflexivity.
Defined.

(** X2.  Parsing two specifications joined by a comma is parsing the
    first, then the second, and appending the ranges; the first error,
    from the left, is the error of the whole. *)
Theorem parse_ranges_comma (s t : string) :
  parse_ranges (s +:+ "," +:+ t) =
    (rs1 ← parse_ranges s; rs2 ← parse_ranges t; Ok (rs1 ++ rs2)).
Proof.
  unfold parse_ranges. change ("," +:+ t) with (String "," t).
  by rewrite split_app, parse_parts_app.
Qed.

(** X3.  White space around the tokens of a specification is ignored:
    the specification parses to what it parses to with the padding
    taken away (the same ranges, or the same error). *)
Theorem parse_ranges_padding (ts : list (string * string * string)) :
  ts ≠ [] →
  forallb (λ '(l, x, r), all_space l && all_space r && negb (contains "," x)) ts
    = true →
  parse_ranges (String.concat "," (padded <$> ts))
    = parse_ranges (String.concat "," ((λ t, t.1.2) <$> ts)).
Proof.
  intros Hne Hall. rewrite forallb_forall in Hall.
  assert (∀ l x r, (l, x, r) ∈ ts →
            all_space l = true ∧ all_space r = true ∧ contains "," x = false)
    as Hts.
  { intros l x r Hin%list_elem_of_In. specialize (Hall _ Hin). cbn in Hall.
    apply andb_prop in Hall as [[? ?]%andb_prop ?%negb_true_iff]. done. }
  unfold parse_ranges. rewrite !split_concat.
  - apply parse_parts_ext, Forall2_fmap, Forall_Forall2_diag, Forall_forall.
    intros [[l x] r] Hin. destruct (Hts l x r Hin) as (? & ? & _).
    by apply strip_padded.
  - by destruct ts.
  - apply Forall_fmap, Forall_forall. intros [[l x] r] Hin.
    by destruct (Hts l x r Hin) as (_ & _ & ?).
  - by destruct ts.
  - apply Forall_fmap, Forall_forall. intros [[l x] r] Hin.
    destruct (Hts l x r Hin) as (Hl & Hr & Hx). cbn.
    rewrite !contains_app, Hx. by rewrite !all_space_no_comma.
Qed.

Lemma parse_ranges_padding_witness :
  parse_ranges " 1-3 ,5 " = parse_ranges "1-3,5".
Proof.
  apply (parse_ranges_padding [(" ", "1-3", " "); ("", "5", " ")]).
  - discriminate.
  - reflexivity.
Defined.

(** X4.  The label [split_pdf] puts in the name of an output file reads
    back as its range: printing ranges (with bounds that are not negative
    and in order) as labels and joining them with commas gives a
    specification that [parse_ranges] turns back into those ranges. *)
Theorem parse_ranges_of_labels (rs : list (Z * Z)) :
  rs ≠ [] →
  forallb printable_range rs = true →
  parse_ranges (String.concat "," ((λ r, range_label r.1 r.2) <$> rs)) = Ok rs.
Proof.
  intros Hne Hall. rewrite forallb_forall in Hall.
  assert (∀ a b, (a, b) ∈ rs → (0 ≤ a ≤ b)%Z) as Hrs.
  { intros a b Hin%list_elem_of_In. specialize (Hall _ Hin). cbn in Hall.
    apply andb_prop in Hall as [?%Z.leb_le ?%Z.leb_le]. done. }
  unfold parse_ranges. rewrite split_concat.
  - apply parse_parts_Ok. exists rs. split; [done|].
    apply Forall2_fmap_l, Forall_Forall2_diag, Forall_forall.
    intros [a b] Hin. by apply parse_part_range_label, Hrs.
  - by destruct rs.
  - apply Forall_fmap, Forall_forall. intros [a b] Hin.
    by apply range_label_no_comma, Hrs.
Qed.

Lemma parse_ranges_of_labels_witness :
  parse_ranges "2-4,7,10-120" = Ok [(2, 4); (7, 7); (10, 120)]%Z.
Proof.
  apply (parse_ranges_of_labels [(2, 4); (7, 7); (10, 120)]%Z).
  - discriminate.
  - reflexivity.
Defined.

End parse_ranges_more.

(** * More about the splitter *)

Section add_pages_more.
Context {Page : Type}.
Implicit Types (writer reader : list Page).

(** X5.  [add_pages] succeeds exactly when the range is empty
    ([end_ < start], wherever it lies) or lies within the document; it
    then appends the pages of the range to what the writer holds.  In
    every other case it raises the [IndexError] of the first page out of
    bounds. *)
Theorem add_pages_total writer reader start end_ :
  add_pages writer reader start end_ =
    if decide (end_ < start ∨ (1 ≤ start ∧ end_ ≤ Z.of_nat (length reader)))%Z
    then Ok (writer ++ page_slice reader start end_)
    else Err (IndexError
                (oob_message (offending_page start (Z.of_nat (length reader))))).
Proof.
  case_decide as H.
  - destruct (decide (end_ < start)%Z) as [Hempty|Hne].
    + unfold add_pages, py_range, page_slice. rewrite seqZ_nil by lia.
      replace (Z.to_nat (end_ - start + 1)) with 0 by lia.
      cbn. by rewrite app_nil_r.
    + apply add_pages_in_bounds; lia.
  - apply add_pages_out_of_bounds; lia.
Qed.

Lemma page_slice_app reader a b c :
  (1 ≤ a)%Z → (a ≤ b + 1)%Z → (b ≤ c)%Z →
  page_slice reader a b ++ page_slice reader (b + 1) c = page_slice reader a c.
Proof.
  intros. unfold page_slice.
  replace (Z.to_nat (b + 1 - 1)) with (Z.to_nat (a - 1) + Z.to_nat (b - a + 1)) by lia.
  rewrite <-drop_drop, take_take_drop. f_equal. lia.
Qed.

(** X6.  Ranges that follow each other add up: adding the pages
    [a .. b] and then the pages [b+1 .. c] to a writer is adding the
    pages [a .. c]. *)
Theorem add_pages_adjacent writer reader a b c :
  (1 ≤ a)%Z → (a ≤ b + 1)%Z → (b ≤ c)%Z → (c ≤ Z.of_nat (length reader))%Z →
  (writer' ← add_pages writer reader a b; add_pages writer' reader (b + 1) c)
    = add_pages writer reader a c.
Proof.
  intros. rewrite !(add_pages_in_bounds writer) by lia. cbn.
  rewrite add_pages_in_bounds by lia.
  by rewrite <-app_assoc, page_slice_app.
Qed.

End add_pages_more.

Lemma add_pages_adjacent_witness :
  (writer' ← add_pages [0] ten_pages 2 4; add_pages writer' ten_pages 5 7)
    = Ok [0; 2; 3; 4; 5; 6; 7].
Proof.
  apply (add_pages_adjacent [0] ten_pages 2 4 7); [lia..|cbn; lia].
Defined.

Section PathFacts.
Import PyStr.

Lemma rsplit_dot_spec s x y :
  rsplit_dot s = Some (x, y) → s = x +:+ y ∧ ∃ y', y = String "." y'.
Proof.
  revert x y. induction s as [|c s IH]; intros x y; [done|].
  cbn [rsplit_dot]. destruct (rsplit_dot s) as [[x' y']|].
  - intros [= <- <-]. destruct (IH x' y' eq_refl) as [-> ?]. done.
  - destruct (Ascii.eqb_spec c ".") as [->|]; [|done].
    intros [= <- <-]. split; [done|]. by eexists.
Qed.

(** A file name is its stem followed by nothing or by a dot and more. *)
Lemma stem_spec n :
  ∃ y, n = stem n +:+ y ∧ (y = "" ∨ ∃ y', y = String "." y').
Proof.
  unfold stem. destruct (rsplit_dot n) as [[x y]|] eqn:E.
  - destruct (rsplit_dot_spec n x y E) as [-> Hy]. case_bool_decide.
    + exists y. auto.
    + exists "". rewrite append_nil_r. auto.
  - exists "". rewrite append_nil_r. auto.
Qed.

Lemma stem_underscore_ne n z : stem n +:+ String "_" z ≠ n.
Proof.
  destruct (stem_spec n) as (y & Hn & Hy). intros Heq.
  rewrite Hn in Heq at 2. apply String.app_inj in Heq.
  destruct Hy as [->|[y' ->]]; done.
Qed.

(** No output of the splitter has the name of its source. *)
Lemma page_path_not_src src dest_dir k : page_path src dest_dir k ≠ src.
Proof.
  unfold page_path. intros Heq%(f_equal name).
  by apply (stem_underscore_ne (name src) ("p" +:+ pretty k +:+ ".pdf")).
Qed.

Lemma range_path_not_src src dest_dir start end_ :
  range_path src dest_dir start end_ ≠ src.
Proof.
  unfold range_path. intros Heq%(f_equal name).
  by apply (stem_underscore_ne (name src) (range_label start end_ +:+ ".pdf")).
Qed.

End PathFacts.

Section SplitMore.
Context {Page Image : Type}.
Implicit Types (st : gmap path (@node Page Image)) (p q : path).
Implicit Types (writer reader : list Page).

(** *** What the operations leave in place *)

Lemma os_mkdir_final p st q n :
  st !! q = Some n → final_state (os_mkdir p st) !! q = Some n.
Proof.
  intros Hq. unfold os_mkdir. destruct (node_at st p) eqn:Hp; [done|].
  destruct (node_at st (parent p)) as [[|]|]; try done. cbn.
  rewrite lookup_insert_ne; [done|]. intros ->.
  destruct q; cbn in Hp; congruence.
Qed.

Lemma os_mkdir_raised p st e st' : os_mkdir p st = Raised e st' → st' = st.
Proof. by intros [_ ?]%os_mkdir_raises. Qed.

Lemma mkdir_exist_ok_final p st q n :
  st !! q = Some n → final_state (mkdir_exist_ok p st) !! q = Some n.
Proof.
  intros Hq. unfold mkdir_exist_ok.
  pose proof (os_mkdir_final p st q n Hq) as H.
  destruct (os_mkdir p st) as [[] st1|e st1] eqn:E; [done|].
  destruct e; try done; by destruct (is_dir st1 p).
Qed.

Lemma mkdir_parents_final p st q n :
  st !! q = Some n → final_state (mkdir_parents p st) !! q = Some n.
Proof.
  revert st. induction p as [|c p IH]; intros st Hq;
    rewrite mkdir_parents_unfold.
  - pose proof (os_mkdir_final [] st q n Hq) as H.
    destruct (os_mkdir [] st) as [[] st1|e st1]; [done|].
    destruct e; try done; by destruct (is_dir st1 []).
  - pose proof (os_mkdir_final (c :: p) st q n Hq) as H.
    destruct (os_mkdir (c :: p) st) as [[] st1|e st1]; [done|].
    destruct e; try done; try by destruct (is_dir st1 (c :: p)).
    cbn in H. specialize (IH st1 H).
    destruct (mkdir_parents p st1) as [[] st2|e2 st2]; [|done].
    by apply mkdir_exist_ok_final.
Qed.

Lemma open_write_final p (c : @content Page Image) st q n :
  q ≠ p → st !! q = Some n → final_state (open_write p c st) !! q = Some n.
Proof.
  intros Hne Hq. unfold open_write.
  destruct (node_at st p) as [[|]|]; try done;
    destruct (node_at st (parent p)) as [[|]|]; try done; cbn;
    by rewrite lookup_insert_ne.
Qed.

Lemma write_pdf_final writer p overwrite st q n :
  q ≠ p → st !! q = Some n →
  final_state (write_pdf writer p overwrite st) !! q = Some n.
Proof.
  intros Hne Hq. rewrite write_pdf_unfold. destruct (_ && _); [done|].
  pose proof (mkdir_parents_final (parent p) st q n Hq) as H.
  destruct (mkdir_parents (parent p) st) as [[] st1|e st1]; [|done].
  by apply open_write_final.
Qed.

Lemma for_each_final {A} (xs : list A) (body : A → M unit) (P : gmap path (@node Page Image) → Prop) st :
  (∀ x st, x ∈ xs → P st → P (final_state (body x st))) →
  P st → P (final_state (for_each xs body st)).
Proof.
  revert st. induction xs as [|x xs IH]; intros st Hbody HP; [done|].
  rewrite for_each_cons.
  assert (P (final_state (body x st))) as H1 by (apply Hbody; [left|done]).
  destruct (body x st) as [[] st1|e st1]; [|done].
  apply IH; [|done]. intros y st' Hy. apply Hbody. by right.
Qed.

Lemma split_range_final reader src dest_dir overwrite r st q n :
  (∀ start end_, q ≠ range_path src dest_dir start end_) →
  st !! q = Some n →
  final_state (split_range reader src dest_dir overwrite r st) !! q = Some n.
Proof.
  intros Hne Hq. destruct r as [start end_]. rewrite split_range_unfold.
  destruct (add_pages [] reader start end_); [|done].
  by apply write_pdf_final.
Qed.

Lemma split_page_final src dest_dir overwrite (item : Z * Page) st q n :
  (∀ k, q ≠ page_path src dest_dir k) →
  st !! q = Some n →
  final_state (split_page src dest_dir overwrite item st) !! q = Some n.
Proof.
  intros Hne Hq. destruct item as [k page]. cbn [split_page].
  by apply write_pdf_final.
Qed.

(** X7.  [split_pdf] never touches its source: whatever the mode, the
    flags and the outcome, what is at the source path afterwards is what
    was there before, also when the output directory is the directory of
    the source and [overwrite] is set. *)
Theorem split_pdf_keeps_source src dest_dir ranges overwrite st :
  final_state (split_pdf src dest_dir ranges overwrite st) !! src = st !! src.
Proof.
  rewrite split_pdf_unfold.
  destruct (PdfReader src st) as [reader st1|e st1] eqn:E1.
  - apply PdfReader_Done in E1 as [Hsrc ->].
    assert (∃ n, st !! src = Some n) as [n Hn].
    { destruct src; [|by eexists]. done. }
    rewrite Hn.
    pose proof (mkdir_parents_final dest_dir st src n Hn) as H.
    destruct (mkdir_parents dest_dir st) as [[] st2|e2 st2]; [|done].
    cbn in H. destruct ranges as [ranges|].
    + apply (for_each_final ranges _ (λ s, s !! src = Some n)); [|done].
      intros r s _ Hs. apply split_range_final; [|done].
      intros start end_ Heq. by apply (range_path_not_src src dest_dir start end_).
    + apply (for_each_final _ _ (λ s, s !! src = Some n)); [|done].
      intros item s _ Hs. apply split_page_final; [|done].
      intros k Heq. by apply (page_path_not_src src dest_dir k).
  - unfold PdfReader in E1.
    destruct (node_at st src) as [[|[]]|]; [..|destruct (under_file st src)];
      by simplify_eq.
Qed.

(** X8.  When the source is missing, is a directory or is no PDF,
    [split_pdf] raises at once and changes nothing: the output directory
    is not made.  A missing source raises [FileNotFoundError], unless a
    regular file stands where one of its directories should be: then it
    is [NotADirectoryError].  A directory raises [IsADirectoryError], a
    file that is no PDF the error of the reader. *)
Theorem split_pdf_bad_source src dest_dir ranges overwrite st :
  (∀ pages, node_at st src ≠ Some (File (Pdf pages))) →
  ∃ e,
    @split_pdf Page Image src dest_dir ranges overwrite st = Raised e st
    ∧ io_error e = true
    ∧ (node_at st src = None → under_file st src = false →
       e = FileNotFoundError src)
    ∧ (node_at st src = None → under_file st src = true →
       e = NotADirectoryError src)
    ∧ (node_at st src = Some Dir → e = IsADirectoryError src)
    ∧ (∀ c, node_at st src = Some (File c) → e = PdfReadError (name src)).
Proof.
  intros Hsrc. rewrite split_pdf_unfold. unfold PdfReader.
  destruct (node_at st src) as [[|[pages| | |]]|] eqn:E;
    [| |..|destruct (under_file st src)];
    try (eexists; split; [done|]; repeat split; done).
  by destruct (Hsrc pages).
Qed.

(** *** Collisions in a batch of ranges *)

Lemma split_range_collision reader src dest_dir start end_ st :
  (end_ < start ∨ (1 ≤ start ∧ end_ ≤ Z.of_nat (length reader)))%Z →
  is_Some (st !! range_path src dest_dir start end_) →
  split_range reader src dest_dir false (start, end_) st
    = Raised (FileExistsError (range_path src dest_dir start end_)) st.
Proof.
  intros Hr Hex. rewrite split_range_unfold, add_pages_total.
  rewrite decide_True by done. rewrite write_pdf_unfold.
  by rewrite bool_decide_eq_true_2.
Qed.

Lemma split_ranges_written reader src dest_dir overwrite ranges st st' :
  is_dir st dest_dir = true →
  for_each ranges (split_range reader src dest_dir overwrite) st = Done tt st' →
  (∀ q, is_Some (st !! q) → is_Some (st' !! q))
  ∧ (∀ start end_, (start, end_) ∈ ranges →
       (end_ < start ∨ (1 ≤ start ∧ end_ ≤ Z.of_nat (length reader)))%Z
       ∧ is_Some (st' !! range_path src dest_dir start end_)).
Proof.
  revert st. induction ranges as [|[s e] ranges IH]; intros st Hdir.
  { intros [= <-]. split; [done|]. intros ?? []%elem_of_nil. }
  rewrite for_each_cons, split_range_unfold, add_pages_total.
  case_decide as Hr; [|done].
  destruct (write_pdf _ _ _ st) as [[] st1|] eqn:E; [|done].
  apply write_pdf_keeps_dir in E as [-> Hdir1]; [|done].
  intros Hrun. destruct (IH _ Hdir1 Hrun) as [Hkeep Hall].
  split.
  - intros q Hq. apply Hkeep.
    destruct (decide (range_path src dest_dir s e = q)) as [<-|Hne].
    + rewrite lookup_insert_eq. by eexists.
    + by rewrite lookup_insert_ne.
  - intros start end_ [[= -> ->]|Hin]%elem_of_cons; [|by apply Hall].
    split; [done|]. apply Hkeep. rewrite lookup_insert_eq. by eexists.
Qed.

(** X9.  Without [overwrite], a range whose target exists stops the
    batch there with [FileExistsError]; the documents of the earlier
    ranges stay and nothing else is written.  (A range out of bounds
    raises its [IndexError] first.) *)
Theorem split_pdf_range_collision
    src dest_dir pre start end_ post st st1 reader :
  node_at st src = Some (File (Pdf reader)) →
  split_pdf src dest_dir (Some pre) false st = Done tt st1 →
  (end_ < start ∨ (1 ≤ start ∧ end_ ≤ Z.of_nat (length reader)))%Z →
  is_Some (st1 !! range_path src dest_dir start end_) →
  split_pdf src dest_dir (Some (pre ++ (start, end_) :: post)) false st
    = Raised (FileExistsError (range_path src dest_dir start end_)) st1.
Proof.
  intros Hsrc Hpre Hr Hex.
  destruct (split_pdf_ranges_app src dest_dir pre ((start, end_) :: post)
              false st st1 Hpre) as (reader' & Hsrc' & Hdir & ->).
  assert (reader' = reader) as -> by congruence.
  rewrite for_each_cons. by rewrite split_range_collision.
Qed.

(** X10.  Without [overwrite], a range that occurs twice in a batch
    makes the batch fail at its second occurrence, with the
    [FileExistsError] of the document its first occurrence wrote. *)
Theorem split_pdf_repeated_range src dest_dir pre start end_ post st st1 :
  split_pdf src dest_dir (Some pre) false st = Done tt st1 →
  (start, end_) ∈ pre →
  @split_pdf Page Image src dest_dir (Some (pre ++ (start, end_) :: post)) false st
    = Raised (FileExistsError (range_path src dest_dir start end_)) st1.
Proof.
  intros Hpre Hin.
  destruct (split_pdf_ranges_Done _ _ _ _ _ _ Hpre)
    as (reader & st2 & Hsrc & Hmk & Hrun & Hdir).
  destruct (split_ranges_written reader src dest_dir false pre st2 st1)
    as [_ Hall]; [by apply mkdir_parents_Done in Hmk|done|].
  destruct (Hall start end_ Hin) as [Hr Hex].
  destruct (split_pdf_ranges_app src dest_dir pre ((start, end_) :: post)
              false st st1 Hpre) as (reader' & Hsrc' & _ & ->).
  assert (reader' = reader) as -> by congruence.
  rewrite for_each_cons. by rewrite split_range_collision.
Qed.

End SplitMore.

(** A source that is not there; a source looked for below the report,
    which is a regular file. *)
Lemma split_pdf_bad_source_witness :
  split_pdf ["missing.pdf"; "home"] out_dir None false home_fs
    = Raised (FileNotFoundError ["missing.pdf"; "home"]) home_fs
  ∧ split_pdf ("x.pdf" :: report) out_dir None false home_fs
    = Raised (NotADirectoryError ("x.pdf" :: report)) home_fs.
Proof.
  split.
  - destruct (split_pdf_bad_source ["missing.pdf"; "home"] out_dir None false
                home_fs) as (e & Hrun & _ & He & _).
    + discriminate.
    + rewrite Hrun, He by reflexivity. reflexivity.
  - destruct (split_pdf_bad_source ("x.pdf" :: report) out_dir None false
                home_fs) as (e & Hrun & _ & _ & He & _).
    + discriminate.
    + rewrite Hrun, He by reflexivity. reflexivity.
Defined.

Lemma split_pdf_range_collision_witness :
  split_pdf report out_dir (Some [(2, 4); (5, 5)]%Z) false home_fs_2_4
    = Raised (FileExistsError ("report_2-4.pdf" :: out_dir)) home_fs_2_4.
Proof.
  apply (split_pdf_range_collision report out_dir [] 2 4 [(5, 5)]%Z
           home_fs_2_4 home_fs_2_4 ten_pages).
  - reflexivity.
  - reflexivity.
  - right. cbn. lia.
  - by eexists.
Defined.

Lemma split_pdf_repeated_range_witness :
  split_pdf report out_dir (Some [(2, 4); (2, 4)]%Z) false home_fs
    = Raised (FileExistsError ("report_2-4.pdf" :: out_dir)) home_fs_2_4.
Proof.
  apply (split_pdf_repeated_range report out_dir [(2, 4)]%Z 2 4 [] home_fs home_fs_2_4).
  - reflexivity.
  - by left.
Defined.

Section LabelFacts.
Import PyStr PyStrFacts IntFacts ParseFacts.

(** Ranges with bounds that are not negative have labels of their own. *)
Lemma range_label_inj (a b c d : Z) :
  (0 ≤ a)%Z → (0 ≤ b)%Z → (0 ≤ c)%Z → (0 ≤ d)%Z →
  range_label a b = range_label c d → a = c ∧ b = d.
Proof.
  intros Ha Hb Hc Hd.
  destruct (pretty_nonneg_number a Ha) as [Hna _].
  destruct (pretty_nonneg_number c Hc) as [Hnc _].
  assert (∀ x y : Z, contains "-" (pretty x +:+ "-" +:+ pretty y) = true) as Hhyp.
  { intros x y. change ("-" +:+ pretty y) with (String "-" (pretty y)).
    rewrite contains_app. cbn [contains]. by rewrite Ascii.eqb_refl, orb_true_r. }
  unfold range_label. repeat case_bool_decide; subst.
  - intros ->%(inj pretty). done.
  - intros Heq%(f_equal (contains "-")).
    rewrite Hhyp, number_no_char in Heq; done.
  - intros Heq%(f_equal (contains "-")).
    rewrite Hhyp, number_no_char in Heq; done.
  - intros Heq%(f_equal (split_once "-")).
    change ("-" +:+ pretty b) with (String "-" (pretty b)) in Heq.
    change ("-" +:+ pretty d) with (String "-" (pretty d)) in Heq.
    rewrite !split_once_app in Heq by (by apply number_no_char).
    injection Heq as ->%(inj pretty) ->%(inj pretty). done.
Qed.

Lemma range_path_inj src dest_dir (a b c d : Z) :
  (0 ≤ a)%Z → (0 ≤ b)%Z → (0 ≤ c)%Z → (0 ≤ d)%Z →
  range_path src dest_dir a b = range_path src dest_dir c d → a = c ∧ b = d.
Proof.
  intros Ha Hb Hc Hd. unfold range_path. intros [= H].
  apply String.app_inj in H. apply (String.app_inj "_") in H.
  apply append_inj_r in H. by apply range_label_inj.
Qed.

Lemma range_path_not_dest src dest_dir a b : range_path src dest_dir a b ≠ dest_dir.
Proof.
  unfold range_path. intros Heq. apply (f_equal length) in Heq. cbn in Heq. lia.
Qed.

End LabelFacts.

Section BatchFacts.
Context {Page Image : Type}.
Implicit Types (st : gmap path (@node Page Image)) (p q : path).
Implicit Types (writer reader : list Page).

Lemma in_bounds_spec n start end_ :
  in_bounds n (start, end_) = true ↔ (1 ≤ start ∧ start ≤ end_ ∧ end_ ≤ Z.of_nat n)%Z.
Proof.
  unfold in_bounds. rewrite !andb_true_iff, !Z.leb_le. tauto.
Qed.

Lemma split_ranges_loop reader src dest_dir overwrite ranges st :
  is_dir st dest_dir = true →
  Forall (λ r, in_bounds (length reader) r = true) ranges →
  (∀ s e, (s, e) ∈ ranges →
          target_free st (range_path src dest_dir s e) overwrite = true) →
  overwrite = true ∨ NoDup ranges →
  ∃ st',
    for_each ranges (split_range reader src dest_dir overwrite) st = Done tt st'
    ∧ (∀ s e, (s, e) ∈ ranges →
         st' !! range_path src dest_dir s e
           = Some (File (Pdf (page_slice reader s e))))
    ∧ (∀ q, (∀ s e, (s, e) ∈ ranges → q ≠ range_path src dest_dir s e) →
            st' !! q = st !! q).
Proof.
  intros Hdir Hb. revert st Hdir.
  induction Hb as [|[s e] ranges Hse Hb IH]; intros st Hdir Hfree Hdup.
  { exists st. repeat split; try done. intros ?? []%elem_of_nil. }
  apply in_bounds_spec in Hse as (Hs1 & Hs2 & Hs3).
  rewrite for_each_cons, split_range_unfold, add_pages_in_bounds by lia.
  cbn [app].
  rewrite write_pdf_in_dir; [|done|apply Hfree; by left|done].
  set (st1 := <[range_path src dest_dir s e :=
                  File (Pdf (page_slice reader s e))]> st).
  assert (∀ s' e', (s', e') ∈ ranges →
            range_path src dest_dir s' e' = range_path src dest_dir s e →
            s' = s ∧ e' = e) as Hinj.
  { intros s' e' Hin Heq. rewrite Forall_forall in Hb.
    apply Hb, in_bounds_spec in Hin. apply range_path_inj in Heq; lia. }
  destruct (IH st1) as (st' & Hrun & Hdocs & Hframe).
  - apply is_dir_node_at. unfold st1. rewrite node_at_insert_ne.
    + by apply is_dir_node_at.
    + apply range_path_not_dest.
  - intros s' e' Hin.
    destruct (decide (range_path src dest_dir s' e' = range_path src dest_dir s e))
      as [Heq|Hne].
    + destruct (Hinj s' e' Hin Heq) as [-> ->].
      destruct Hdup as [->|Hnd].
      * unfold target_free, st1. by rewrite lookup_insert_eq.
      * apply NoDup_cons in Hnd as [Hnot _]. done.
    + unfold st1. rewrite target_free_insert_ne by done.
      apply Hfree. by right.
  - destruct Hdup as [?|Hnd]; [by left|right]. by apply NoDup_cons in Hnd as [_ ?].
  - exists st'. split; [done|]. split.
    + intros s' e' [[= -> ->]|Hin]%elem_of_cons; [|by apply Hdocs].
      destruct (decide ((s, e) ∈ ranges)) as [Hin|Hnotin]; [by apply Hdocs|].
      rewrite Hframe.
      * unfold st1. by rewrite lookup_insert_eq.
      * intros s' e' Hin Heq. symmetry in Heq.
        destruct (Hinj s' e' Hin Heq) as [-> ->]. done.
    + intros q Hq. rewrite Hframe.
      * unfold st1. rewrite lookup_insert_ne; [done|].
        intros Heq. by apply (Hq s e); [left|].
      * intros s' e' Hin. apply Hq. by right.
Qed.

(** X11.  A batch of ranges that all lie within the document, with
    every target free or replaceable, and either [overwrite] set or no
    range repeated, succeeds (no regular file being in the way of the
    output directory); afterwards each range has its document, holding
    exactly its pages, and nothing else has changed since the output
    directory was made. *)
Theorem split_pdf_batch src dest_dir ranges overwrite st reader :
  node_at st src = Some (File (Pdf reader)) →
  no_file_above st dest_dir = true →
  forallb (in_bounds (length reader)) ranges = true →
  (∀ s e, (s, e) ∈ ranges →
          target_free st (range_path src dest_dir s e) overwrite = true) →
  overwrite = true ∨ NoDup ranges →
  ∃ st2 st',
    mkdir_parents dest_dir st = Done tt st2
    ∧ split_pdf src dest_dir (Some ranges) overwrite st = Done tt st'
    ∧ (∀ s e, (s, e) ∈ ranges →
         st' !! range_path src dest_dir s e
           = Some (File (Pdf (page_slice reader s e))))
    ∧ (∀ q, (∀ s e, (s, e) ∈ ranges → q ≠ range_path src dest_dir s e) →
            st' !! q = st2 !! q).
Proof.
  intros Hsrc Habove Hb Hfree Hdup.
  destruct (mkdir_parents_ok dest_dir st Habove) as (st2 & Hmk & Hmade).
  destruct (split_ranges_loop reader src dest_dir overwrite ranges st2)
    as (st' & Hrun & Hdocs & Hframe); try done.
  - by apply mkdir_parents_Done in Hmk.
  - apply Forall_forall. intros r Hr%list_elem_of_In.
    by apply (proj1 (forallb_forall _ _) Hb).
  - intros s e Hin. unfold range_path.
    rewrite (target_free_dirs_made _ _ st st2) by done. by apply Hfree.
  - exists st2, st'. split; [done|]. split; [|done].
    rewrite split_pdf_unfold.
    rewrite (proj2 (PdfReader_Done src st reader st)) by done.
    by rewrite Hmk.
Qed.

(** X12.  [cli] reads [--ranges] before it touches a file: a
    specification (of ASCII text) that does not parse makes it raise the
    parser's [ValueError] with the file system unchanged, whether the
    input exists or not.  An empty [--ranges] is taken as none: the input
    is split by page. *)
Theorem cli_ranges_first pdf out_dir overwrite st :
  (∀ r, r ≠ "" → PyStr.isascii r = true → is_err (parse_ranges r) →
        ∃ msg, @cli Page Image pdf out_dir (Some r) overwrite st
                 = Raised (ValueError msg) st)
  ∧ cli pdf out_dir (Some "") overwrite st
      = split_pdf pdf out_dir None overwrite st.
Proof.
  split; [|done]. intros r Hr _ Herr.
  pose proof (ParseFacts.parse_parts_value_error (PyStr.split "," r) [] Herr) as Hv.
  unfold cli, mbind, M_bind, lift. destruct r as [|c r]; [done|].
  unfold parse_ranges in *.
  destruct (parse_parts _ _) as [|[]]; try done. by eexists.
Qed.

End BatchFacts.

Lemma split_pdf_batch_witness :
  ∃ st',
    split_pdf report out_dir (Some [(2, 4); (1, 1); (2, 4)]%Z) true home_fs
      = Done tt st'
    ∧ st' !! ("report_2-4.pdf" :: out_dir) = Some (File (Pdf [2; 3; 4]))
    ∧ st' !! ("report_1.pdf" :: out_dir) = Some (File (Pdf [1])).
Proof.
  destruct (split_pdf_batch report out_dir [(2, 4); (1, 1); (2, 4)]%Z true
              home_fs ten_pages) as (st2 & st' & _ & Hrun & Hdocs & _).
  - reflexivity.
  - reflexivity.
  - reflexivity.
  - intros s e Hin. repeat (apply elem_of_cons in Hin as [[= -> ->]|Hin]; [reflexivity|]).
    by apply elem_of_nil in Hin.
  - by left.
  - exists st'. split; [done|]. split.
    + apply (Hdocs 2 4)%Z. by left.
    + apply (Hdocs 1 1)%Z. right. by left.
Defined.

Lemma cli_ranges_first_witness :
  ∃ msg, cli ["missing.pdf"] out_dir (Some "3-1") false home_fs
           = Raised (ValueError msg) home_fs.
Proof.
  apply (proj1 (cli_ranges_first ["missing.pdf"] out_dir false home_fs)).
  - discriminate.
  - reflexivity.
  - exact I.
Defined.

(** * More about the merger *)

Section SortMore.
Context {A : Type} (key : A → string).
Context (P : A → Prop) `{!∀ x, Decision (P x)}.

Lemma insert_sorted_head (x : A) (l : list A) :
  Forall (λ z, key_le key x z) l → insert_sorted key x l = x :: l.
Proof.
  destruct 1 as [|z l Hz _]; [done|]. cbn. unfold key_le in Hz. by rewrite Hz.
Qed.

Lemma filter_insert_sorted (x : A) (l : list A) :
  StronglySorted (key_le key) l →
  filter P (insert_sorted key x l) =
    if decide (P x) then insert_sorted key x (filter P l) else filter P l.
Proof.
  induction 1 as [|y l Hl IH Hy]; cbn [insert_sorted].
  { rewrite filter_cons, filter_nil. by case_decide. }
  destruct (String.leb (key x) (key y)) eqn:E.
  - rewrite filter_cons. case_decide as Px; [|done].
    rewrite insert_sorted_head; [done|].
    apply Forall_forall. intros z [Pz Hz]%list_elem_of_filter.
    apply elem_of_cons in Hz as [->|Hz]; [done|].
    rewrite Forall_forall in Hy. by apply (leb_trans _ (key y)), Hy.
  - rewrite !(filter_cons _ y), IH.
    destruct (decide (P y)), (decide (P x)); try done.
    cbn [insert_sorted]. by rewrite E.
Qed.

(** Sorting and then dropping is dropping and then sorting. *)
Lemma sorted_filter (l : list A) :
  sorted key (filter P l) = filter P (sorted key l).
Proof.
  induction l as [|x l IH]; [done|].
  cbn [sorted foldr]. fold (sorted key l).
  rewrite filter_insert_sorted by apply sorted_StronglySorted.
  rewrite filter_cons. case_decide; [|done].
  cbn [sorted foldr]. fold (sorted key (filter P l)). by rewrite IH.
Qed.

Lemma NoDup_key_inj (l : list A) (x y : A) :
  NoDup (key <$> l) → x ∈ l → y ∈ l → key x = key y → x = y.
Proof.
  induction l as [|z l IH]; [by intros _ ?%elem_of_nil|].
  rewrite fmap_cons, NoDup_cons.
  intros [Hz Hnd] [->|Hx]%elem_of_cons [->|Hy]%elem_of_cons Heq; auto.
  - destruct Hz. rewrite Heq. by apply list_elem_of_fmap_2.
  - destruct Hz. rewrite <-Heq. by apply list_elem_of_fmap_2.
Qed.

(** With keys that differ, the sorted list does not depend on the
    order of the input. *)
Lemma sorted_perm_eq (l1 l2 : list A) :
  NoDup (key <$> l1) → l1 ≡ₚ l2 → sorted key l1 = sorted key l2.
Proof.
  intros Hnd Hperm.
  apply (StronglySorted_unique_strong (key_le key));
    [|apply sorted_StronglySorted..|by rewrite !sorted_perm].
  intros x y Hx Hy Hxy Hyx. rewrite sorted_perm in Hx, Hy.
  rewrite <-Hperm in Hy. apply (NoDup_key_inj l1); [done..|].
  apply (anti_symm String.le); by apply Is_true_true.
Qed.

End SortMore.

Section MergeMore.
Context {Page Image : Type} (render : Image → Page).
Implicit Types (st : gmap path (@node Page Image)) (f : @dirent Page Image).
Implicit Types (merger : list Page).




Lemma merge_files_skip files merger :
  merge_files render (filter (λ f, supported f) files) merger
    = merge_files render files merger.
Proof.
  revert merger. induction files as [|f files IH]; intros merger; [done|].
  rewrite filter_cons. case_decide as Hs; cbn [merge_files].
  - destruct (add_file_to_merger render f merger); cbn; [apply IH|done].
  - rewrite add_file_to_merger_kind. unfold supported in Hs.
    destruct (kind_of (d_name f)); try (by destruct Hs). cbn. apply IH.
Qed.

(** X14.  Files of a kind the merger does not support make no
    difference: as long as a supported regular file is left, merging
    the directory is merging it without them. *)
Theorem merge_directory_skips_unsupported input_dir listing output_pdf st :
  (∃ f, f ∈ listing ∧ d_is_file f = true ∧ supported f = true) →
  merge_directory render input_dir (filter (λ f, supported f) listing)
      output_pdf st
    = merge_directory render input_dir listing output_pdf st.
Proof.
  intros (f0 & Hin & Hfile & Hsup).
  rewrite !merge_directory_unfold.
  assert (filter (λ p, d_is_file p) (filter (λ f, supported f) listing)
          = filter (λ f, supported f) (filter (λ p, d_is_file p) listing)) as ->.
  { clear. induction listing as [|f l IH]; [done|].
    rewrite !filter_cons. repeat case_decide; rewrite ?filter_cons;
      repeat case_decide; try done; by rewrite IH. }
  rewrite sorted_filter.
  set (manifest := sorted _ (filter (λ p, d_is_file p) listing)).
  assert (f0 ∈ filter (λ f, supported f) manifest) as Hf0.
  { apply list_elem_of_filter. split; [by rewrite Hsup|].
    unfold manifest. rewrite sorted_perm. apply list_elem_of_filter.
    split; [by rewrite Hfile|done]. }
  assert (f0 ∈ manifest) as Hf0' by (by apply list_elem_of_filter in Hf0 as [_ ?]).
  destruct (filter (λ f, supported f) manifest) as [|g gs] eqn:E1;
    [by apply elem_of_nil in Hf0|].
  destruct manifest as [|h hs] eqn:E2; [by apply elem_of_nil in Hf0'|].
  rewrite <-E1, merge_files_skip. done.
Qed.

(** X15.  When the names of the regular files are ASCII text and no two
    of them are the same name up to case, the merge does not depend on
    the order in which the directory is listed. *)
Theorem merge_directory_listing_order input_dir listing1 listing2 output_pdf st :
  ascii_names (filter (λ p, d_is_file p) listing1) = true →
  NoDup ((λ f, caseless (d_name f)) <$> filter (λ p, d_is_file p) listing1) →
  listing1 ≡ₚ listing2 →
  merge_directory render input_dir listing1 output_pdf st
    = merge_directory render input_dir listing2 output_pdf st.
Proof.
  intros _ Hnd Hperm. rewrite !merge_directory_unfold.
  assert (NoDup (name_key <$> filter (λ p, d_is_file p) listing1)) as Hnd'.
  { erewrite list_fmap_ext; [exact Hnd|].
    intros i f _. unfold name_key. apply lower_caseless. }
  clear Hnd. rename Hnd' into Hnd.
  change (sorted (λ p, PyStr.lower (d_name p))) with (sorted (@name_key Page Image)).
  rewrite (sorted_perm_eq name_key (filter (λ p, d_is_file p) listing1)
             (filter (λ p, d_is_file p) listing2)); [done|done|].
  by rewrite Hperm.
Qed.

(** X16.  [main] of the merger lets nothing escape but [SystemExit]; when
    the input is not a directory it exits before anything is read or
    written. *)
Theorem merge_main_exits str_exc input_dir listing output_pdf st :
  (∀ e st', merge_main render str_exc input_dir listing output_pdf st
              = Raised e st' → ∃ msg, e = SystemExit msg)
  ∧ (is_dir st input_dir = false →
     ∃ msg, merge_main render str_exc input_dir listing output_pdf st
              = Raised (SystemExit msg) st).
Proof.
  unfold merge_main. split.
  - intros e st'. destruct (is_dir st input_dir); cbn.
    + destruct (merge_directory _ _ _ _ _) as [|[]]; try done;
        intros [= <- <-]; by eexists.
    + intros [= <- <-]. by eexists.
  - intros ->. by eexists.
Qed.

End MergeMore.


Lemma merge_directory_skips_unsupported_witness :
  merge_directory (λ img, img + 1) ["scans"] scans ["merged.pdf"] ∅
  = merge_directory (λ img, img + 1) ["scans"] (notes ++ scans) ["merged.pdf"] ∅.
Proof.
  apply (merge_directory_skips_unsupported (λ img, img + 1) ["scans"]
           (notes ++ scans) ["merged.pdf"] ∅).
  exists (Dirent "a.pdf" true (Pdf [11; 12; 13])).
  split; [|done]. apply list_elem_of_lookup. by exists 2.
Defined.

Lemma merge_directory_listing_order_witness :
  merge_directory (λ img, img + 1) ["scans"] scans ["merged.pdf"] ∅
  = merge_directory (λ img, img + 1) ["scans"] (reverse scans) ["merged.pdf"] ∅.
Proof.
  apply (merge_directory_listing_order (λ img, img + 1) ["scans"] scans
           (reverse scans) ["merged.pdf"] ∅).
  - reflexivity.
  - by apply (bool_decide_unpack _).
  - by rewrite reverse_Permutation.
Defined.

Lemma merge_main_exits_witness :
  ∃ msg, merge_main (λ img, img + 1) (λ _, "error") ["scans"] scans
           ["merged.pdf"] ∅ = Raised (SystemExit msg) ∅.
Proof.
  apply (proj2 (merge_main_exits (λ img, img + 1) (λ _, "error") ["scans"] scans
                  ["merged.pdf"] ∅)).
  reflexivity.
Defined.

(** * More about the compressor *)

Section CompressMore.
Context {Page Image : Type} (nbytes : @node Page Image → Z).
Implicit Types (st : gmap path (@node Page Image)) (p q : path).
Implicit Types (run : list string → @M Page Image Z).

(** [compress_pdf] once its checks have passed: what the process and
    the file system it leaves make of the call. *)
Lemma compress_pdf_checked run input_path output_path compression_level force st :
  let out := default (default_output input_path) output_path in
  is_file st input_path = true →
  node_at st out = None ∨ force = true →
  compression_level ∈ (@COMPRESSION_LEVELS).*1 →
  compress_pdf nbytes run input_path output_path compression_level force st =
    match run (gs_command compression_level out input_path) st with
    | Done code st1 =>
        if bool_decide (code = 0%Z) then
          if bool_decide (is_Some (node_at st1 out)) then
            if bool_decide (is_Some (node_at st1 input_path)) then Done out st1
            else remove_and_reraise out (FileNotFoundError input_path) st1
          else remove_and_reraise out (FileNotFoundError out) st1
        else remove_and_reraise out (CalledProcessError code) st1
    | Raised (SystemExit m) st1 => Raised (SystemExit m) st1
    | Raised e st1 => remove_and_reraise out e st1
    end.
Proof.
  intros out Hin Hout Hlevel.
  unfold compress_pdf, mbind at 1, M_bind at 1, os_path_isfile. rewrite Hin.
  cbn [negb]. fold out.
  unfold mbind at 1, M_bind at 1, path_exists at 1.
  assert (bool_decide (is_Some (node_at st out)) && negb force = false) as ->.
  { destruct Hout as [-> | ->]; [|by rewrite andb_false_r].
    by rewrite bool_decide_eq_false_2 by (by intros [? ?]). }
  rewrite bool_decide_eq_true_2 by done. cbn [negb].
  unfold mbind at 1, M_bind at 1, get_file_size at 1, getsize at 1.
  apply is_file_node_at in Hin as [c ->].
  unfold try_except, subprocess_run_check.
  unfold mbind at 1, M_bind at 1. unfold mbind at 1, M_bind at 1.
  destruct (run _ st) as [code st1|e st1]; [|by destruct e].
  case_bool_decide as Hcode; [|done].
  unfold mret at 1, M_ret at 1.
  unfold mbind at 1, M_bind at 1, path_exists at 1.
  case_bool_decide as Hex; [|done].
  unfold mbind, M_bind, get_file_size, getsize.
  destruct Hex as [n Hn]. rewrite Hn.
  case_bool_decide as Hin'; [destruct Hin' as [n' ->]|].
  - rewrite Hn. destruct ((nbytes n >? 0)%Z && (nbytes n' >? 0)%Z); done.
  - destruct (node_at st1 input_path) as [n'|] eqn:E; [|done].
    destruct Hin'. by eexists.
Qed.

(** X17.  A call that fails one of the checks never starts the process
    and changes nothing: whatever the process would do, the call raises,
    with the file system as it was, [FileNotFoundError] for an input that
    is no regular file, else [FileExistsError] for an output that exists
    without [force], else [ValueError] for an unknown level. *)
Theorem compress_pdf_checks_first
    input_path output_path compression_level force st :
  let out := default (default_output input_path) output_path in
  is_file st input_path = false
  ∨ (is_Some (node_at st out) ∧ force = false)
  ∨ compression_level ∉ (@COMPRESSION_LEVELS).*1 →
  ∃ e,
    (∀ run, compress_pdf nbytes run input_path output_path
              compression_level force st = Raised e st)
    ∧ (is_file st input_path = false → e = FileNotFoundError input_path)
    ∧ (is_file st input_path = true → is_Some (node_at st out) → force = false →
       e = FileExistsError out)
    ∧ (is_file st input_path = true →
       ¬ (is_Some (node_at st out) ∧ force = false) →
       ∃ msg, e = ValueError msg).
Proof.
  intros out Hbad. unfold compress_pdf, mbind, M_bind, os_path_isfile, path_exists.
  fold out. destruct (is_file st input_path) eqn:Hin; cbn [negb].
  - destruct (decide (is_Some (node_at st out) ∧ force = false)) as [[Hex ->]|Hok].
    + rewrite bool_decide_eq_true_2 by done. cbn.
      eexists. split; [done|]. split; [done|]. split; [done|].
      intros _ Hno. by destruct Hno.
    + assert (bool_decide (is_Some (node_at st out)) && negb force = false) as ->.
      { case_bool_decide; [|done]. destruct force; [done|]. by destruct Hok. }
      destruct Hbad as [?|[?|Hlevel]]; try done.
      rewrite bool_decide_eq_false_2 by done. cbn.
      eexists. split; [done|]. split; [done|]. split.
      * intros _ Hex ->. by destruct Hok.
      * intros _ _. by eexists.
  - eexists. split; [done|]. done.
Qed.

(** X18.  When the checks pass, the process exits with status 0 and
    both the output and the input are there afterwards, [compress_pdf]
    returns the output path and leaves the file system as the process
    left it. *)
Theorem compress_pdf_success
    run input_path output_path compression_level force st st1 :
  let out := default (default_output input_path) output_path in
  is_file st input_path = true →
  node_at st out = None ∨ force = true →
  compression_level ∈ (@COMPRESSION_LEVELS).*1 →
  run (gs_command compression_level out input_path) st = Done 0%Z st1 →
  is_Some (node_at st1 out) →
  is_Some (node_at st1 input_path) →
  compress_pdf nbytes run input_path output_path compression_level force st
    = Done out st1.
Proof.
  intros out Hin Hout Hlevel Hrun Hex Hin1.
  rewrite compress_pdf_checked by done. fold out. rewrite Hrun.
  by rewrite !bool_decide_eq_true_2.
Qed.

(** X19.  When the process exits with status 0 and has written the
    output, but the input is gone afterwards, [compress_pdf] removes the
    output it was given and raises [FileNotFoundError] for the input. *)
Theorem compress_pdf_input_gone
    run input_path output_path compression_level force st st1 :
  let out := default (default_output input_path) output_path in
  is_file st input_path = true →
  node_at st out = None ∨ force = true →
  compression_level ∈ (@COMPRESSION_LEVELS).*1 →
  run (gs_command compression_level out input_path) st = Done 0%Z st1 →
  is_file st1 out = true →
  node_at st1 input_path = None →
  compress_pdf nbytes run input_path output_path compression_level force st
    = Raised (FileNotFoundError input_path) (delete out st1).
Proof.
  intros out Hin Hout Hlevel Hrun Hex Hgone.
  rewrite compress_pdf_checked by done. fold out. rewrite Hrun.
  rewrite bool_decide_eq_true_2 by done.
  pose proof Hex as [c Hc]%is_file_node_at.
  rewrite bool_decide_eq_true_2 by (by eexists).
  rewrite bool_decide_eq_false_2 by (rewrite Hgone; by intros [? ?]).
  destruct (remove_and_reraise_spec (A := path) out
              (FileNotFoundError input_path) st1) as (e' & -> & He').
  rewrite Hex, He'; [done|]. unfold is_dir. by rewrite Hc.
Qed.

(** X20.  With [force], a failed run costs the output that was there
    before: when the output path holds a regular file, [force] is set and
    the process exits with another status than 0 without touching the
    file system, [compress_pdf] deletes that file and raises. *)
Theorem compress_pdf_force_loses_output
    run input_path output_path compression_level st code :
  let out := default (default_output input_path) output_path in
  is_file st input_path = true →
  is_file st out = true →
  compression_level ∈ (@COMPRESSION_LEVELS).*1 →
  run (gs_command compression_level out input_path) st = Done code st →
  code ≠ 0%Z →
  compress_pdf nbytes run input_path output_path compression_level true st
    = Raised (CalledProcessError code) (delete out st).
Proof.
  intros out Hin Hex Hlevel Hrun Hcode.
  rewrite compress_pdf_checked by auto. fold out. rewrite Hrun.
  rewrite bool_decide_eq_false_2 by done.
  pose proof Hex as [c Hc]%is_file_node_at.
  destruct (remove_and_reraise_spec (A := path) out
              (CalledProcessError code) st) as (e' & -> & He').
  rewrite Hex, He'; [done|]. unfold is_dir. by rewrite Hc.
Qed.

End CompressMore.

Section DefaultOutput.
Import PyStr PyStrFacts.

Lemma string_length_app (s t : string) :
  String.length (s +:+ t) = String.length s + String.length t.
Proof. induction s as [|c s IH]; [done|]. rewrite append_cons. cbn. by rewrite IH. Qed.

Lemma splitext_spec n : n = (splitext n).1 +:+ (splitext n).2.
Proof.
  unfold splitext. destruct (rsplit_dot n) as [[x y]|] eqn:E.
  - destruct (rsplit_dot_spec n x y E) as [-> _].
    destruct (all_dots x); cbn; [by rewrite append_nil_r|done].
  - cbn. by rewrite append_nil_r.
Qed.

Lemma rsplit_dot_no_dot (e : string) : contains "." e = false → rsplit_dot e = None.
Proof.
  induction e as [|c e IH]; [done|]. cbn [contains rsplit_dot].
  intros [Hc He]%orb_false_elim. by rewrite IH, Hc.
Qed.

Lemma rsplit_dot_app (x e : string) :
  contains "." e = false → rsplit_dot (x +:+ String "." e) = Some (x, String "." e).
Proof.
  intros He. induction x as [|c x IH].
  - change ("" +:+ String "." e) with (String "." e). cbn [rsplit_dot].
    rewrite rsplit_dot_no_dot by done. reflexivity.
  - rewrite append_cons. cbn [rsplit_dot]. by rewrite IH.
Qed.

Lemma rsplit_dot_ext s x y :
  rsplit_dot s = Some (x, y) → ∃ e, y = String "." e ∧ contains "." e = false.
Proof.
  revert x y. induction s as [|c s IH]; intros x y; [done|].
  cbn [rsplit_dot]. destruct (rsplit_dot s) as [[x' y']|] eqn:E.
  - intros [= <- <-]. by apply (IH x').
  - destruct (Ascii.eqb_spec c ".") as [->|]; [|done].
    intros [= <- <-]. exists s. split; [done|].
    clear IH. induction s as [|d s IH]; [done|]. cbn [rsplit_dot] in E.
    destruct (rsplit_dot s) as [[]|]; [done|].
    cbn [contains]. destruct (Ascii.eqb d "."); [done|]. by apply IH.
Qed.

Lemma lstrip_dots_cons c s :
  lstrip_dots (String c s) = if Ascii.eqb c "." then lstrip_dots s else String c s.
Proof. destruct c as [[] [] [] [] [] [] [] []]; reflexivity. Qed.

Lemma lstrip_dots_all_dots x s : all_dots x = true → lstrip_dots (x +:+ s) = lstrip_dots s.
Proof.
  induction x as [|c x IH]; [done|]. cbn [all_dots].
  intros [Hc Hx]%andb_prop. rewrite append_cons, lstrip_dots_cons, Hc. by apply IH.
Qed.

Lemma lstrip_dots_no_dot s : contains "." s = false → lstrip_dots s = s.
Proof.
  destruct s as [|c s]; [done|]. cbn [contains].
  intros [Hc _]%orb_false_elim. by rewrite lstrip_dots_cons, Hc.
Qed.

Lemma lstrip_dots_keeps x e :
  all_dots x = false → contains "." (lstrip_dots (x +:+ String "." e)) = true.
Proof.
  induction x as [|c x IH]; [done|]. cbn [all_dots].
  rewrite append_cons, lstrip_dots_cons.
  destruct (Ascii.eqb c "."); cbn [andb]; [done|]. intros _.
  cbn [contains]. rewrite contains_app. cbn [contains].
  rewrite Ascii.eqb_refl. by rewrite !orb_true_r.
Qed.

(** [splitext] cuts a name into its base and its extension, and in no
    other way. *)
Lemma splitext_extension n base ext :
  extension_split n base ext = true ↔ splitext n = (base, ext).
Proof.
  unfold extension_split, splitext. split.
  - intros [Hn Hext]%andb_prop. apply bool_decide_eq_true in Hn as ->.
    destruct ext as [|c e].
    + rewrite append_nil_r in *. apply negb_true_iff in Hext.
      destruct (rsplit_dot base) as [[x y]|] eqn:E; [|done].
      destruct (all_dots x) eqn:Hx; [done|].
      destruct (rsplit_dot_spec base x y E) as [-> _].
      destruct (rsplit_dot_ext _ x y E) as (e & -> & _).
      by rewrite lstrip_dots_keeps in Hext.
    + apply andb_prop in Hext as [[Hc He%negb_true_iff]%andb_prop Hb%negb_true_iff].
      apply Ascii.eqb_eq in Hc as ->.
      rewrite rsplit_dot_app by done. by rewrite Hb.
  - destruct (rsplit_dot n) as [[x y]|] eqn:E.
    + destruct (rsplit_dot_spec n x y E) as [-> _].
      destruct (rsplit_dot_ext _ x y E) as (e & -> & He).
      destruct (all_dots x) eqn:Hx; intros [= <- <-].
      * rewrite append_nil_r, bool_decide_eq_true_2 by done.
        rewrite lstrip_dots_all_dots by done.
        rewrite lstrip_dots_cons, Ascii.eqb_refl.
        rewrite lstrip_dots_no_dot by done. by rewrite He.
      * rewrite bool_decide_eq_true_2 by done.
        by rewrite Ascii.eqb_refl, He, Hx.
    + intros [= <- <-]. rewrite append_nil_r, bool_decide_eq_true_2 by done.
      assert (contains "." n = false) as Hn.
      { clear -E. induction n as [|c n IH]; [done|]. cbn [rsplit_dot] in E.
        destruct (rsplit_dot n) as [[]|]; [done|].
        cbn [contains]. destruct (Ascii.eqb c "."); [done|]. by apply IH. }
      rewrite lstrip_dots_no_dot by done. by rewrite Hn.
Qed.

(** X21.  The output path [compress_pdf] chooses when none is given is
    never the input path and is in the directory of the input; its name
    is the name of the input with [_compressed] put before the extension:
    before the last dot, unless nothing but dots stands before that dot,
    and at the end of a name that has no such dot. *)
Theorem default_output_fresh (input_path : path) :
  default_output input_path ≠ input_path
  ∧ parent (default_output input_path) = parent input_path
  ∧ (∃ base ext, extension_split (name input_path) base ext = true)
  ∧ (∀ base ext,
       extension_split (name input_path) base ext = true →
       name (default_output input_path) = base +:+ "_compressed" +:+ ext).
Proof.
  unfold default_output.
  pose proof (splitext_spec (name input_path)) as Hn.
  pose proof (splitext_extension (name input_path)) as Hext.
  destruct (splitext (name input_path)) as [base ext]. cbn in Hn.
  split; [|split; [done|split]].
  - destruct input_path as [|n dir]; [done|]. cbn in *. intros [= Heq].
    rewrite Hn in Heq. clear Hn Hext. apply String.app_inj in Heq.
    apply (f_equal String.length) in Heq. rewrite string_length_app in Heq.
    cbn in Heq. lia.
  - exists base, ext. by apply Hext.
  - intros base' ext' [= <- <-]%Hext. done.
Qed.

End DefaultOutput.

Lemma default_output_fresh_witness :
  name (default_output report) = "report_compressed.pdf"
  ∧ name (default_output [".bashrc"; "home"]) = ".bashrc_compressed"
  ∧ name (default_output ["notes.2024.txt"; "home"]) = "notes.2024_compressed.txt".
Proof.
  split; [|split].
  - apply (proj2 (proj2 (proj2 (default_output_fresh report))) "report" ".pdf").
    reflexivity.
  - apply (proj2 (proj2 (proj2 (default_output_fresh [".bashrc"; "home"])))
             ".bashrc" "").
    reflexivity.
  - apply (proj2 (proj2 (proj2 (default_output_fresh ["notes.2024.txt"; "home"])))
             "notes.2024" ".txt").
    reflexivity.
Defined.

Lemma compress_pdf_checks_first_witness :
  ∃ e, ∀ run, compress_pdf (λ _, 1%Z) run report (Some report) "ebook" false home_fs
                = Raised e home_fs.
Proof.
  destruct (compress_pdf_checks_first (λ _, 1%Z) report (Some report) "ebook"
              false home_fs) as (e & Hrun & _).
  - right. left. split; [by eexists|done].
  - by exists e.
Defined.

(** An optimizer that writes its output and exits with status 0, and one
    that also removes the input. *)
Lemma compress_pdf_success_witness :
  compress_pdf (λ _, 1%Z)
    (λ _ st, Done 0%Z (<["report_compressed.pdf" :: ["home"] := File (Data "%PDF")]> st))
    report None "screen" false home_fs
  = Done ("report_compressed.pdf" :: ["home"])
      (<["report_compressed.pdf" :: ["home"] := File (Data "%PDF")]> home_fs).
Proof.
  apply (compress_pdf_success (λ _, 1%Z) _ report None "screen" false home_fs).
  - reflexivity.
  - by left.
  - by apply (bool_decide_unpack _).
  - reflexivity.
  - by eexists.
  - by eexists.
Defined.

Lemma compress_pdf_input_gone_witness :
  compress_pdf (λ _, 1%Z)
    (λ _ st, Done 0%Z (delete report
       (<["report_compressed.pdf" :: ["home"] := File (Data "%PDF")]> st)))
    report None "screen" false home_fs
  = Raised (FileNotFoundError report) (<[["home"] := Dir]> ∅).
Proof.
  rewrite (compress_pdf_input_gone (λ _, 1%Z) _ report None "screen" false home_fs
             (delete report
                (<["report_compressed.pdf" :: ["home"] := File (Data "%PDF")]> home_fs))).
  - reflexivity.
  - reflexivity.
  - by left.
  - by apply (bool_decide_unpack _).
  - reflexivity.
  - reflexivity.
  - reflexivity.
Defined.

Lemma compress_pdf_force_loses_output_witness :
  compress_pdf (λ _, 1%Z) (λ _ st, Done 2%Z st) report
    (Some ("report_2-4.pdf" :: out_dir)) "ebook" true home_fs_2_4
  = Raised (CalledProcessError 2) (<[out_dir := Dir]> home_fs).
Proof.
  rewrite (compress_pdf_force_loses_output (λ _, 1%Z) (λ _ st, Done 2%Z st) report
             (Some ("report_2-4.pdf" :: out_dir)) "ebook" home_fs_2_4 2%Z).
  - reflexivity.
  - reflexivity.
  - reflexivity.
  - by apply (bool_decide_unpack _).
  - reflexivity.
  - discriminate.
Defined.

(** * Splitting by page, then merging *)

Section OrderFacts.
Import PyStr.

Lemma lower_app (s t : string) : lower (s +:+ t) = lower s +:+ lower t.
Proof.
  induction s as [|c s IH]; [done|].
  rewrite append_cons. cbn [lower]. by rewrite append_cons, IH.
Qed.

Lemma ascii_compare_refl (c : ascii) : Ascii.compare c c = Eq.
Proof. unfold Ascii.compare. apply N.compare_refl. Qed.

Lemma leb_app_prefix (s a b : string) :
  String.leb (s +:+ a) (s +:+ b) = String.leb a b.
Proof.
  unfold String.leb. induction s as [|c s IH]; [done|].
  rewrite !append_cons. cbn [String.compare]. by rewrite ascii_compare_refl.
Qed.

Lemma rsplit_dot_pdf (x : string) : rsplit_dot (x +:+ ".pdf") = Some (x, ".pdf").
Proof.
  induction x as [|c x IH]; [done|]. rewrite append_cons.
  cbn [rsplit_dot]. by rewrite IH.
Qed.

Lemma kind_of_pdf (x : string) :
  x ≠ "" → kind_of (x +:+ ".pdf") = MultiPageDocument.
Proof.
  intros Hx. unfold kind_of, suffix. rewrite rsplit_dot_pdf.
  assert (bool_decide (x ≠ "" ∧ ".pdf" ≠ ".") = true) as ->
    by (apply bool_decide_eq_true_2; split; [done|discriminate]).
  reflexivity.
Qed.

Lemma page_name_eq src dest_dir k :
  name (page_path src dest_dir k) = stem (name src) +:+ "_p" +:+ pretty k +:+ ".pdf".
Proof. done. Qed.

Lemma page_name_kind src dest_dir k :
  kind_of (name (page_path src dest_dir k)) = MultiPageDocument.
Proof.
  rewrite page_name_eq.
  rewrite <-!append_assoc. apply kind_of_pdf.
  intros Heq%(f_equal String.length). rewrite !string_length_app in Heq.
  cbn in Heq. lia.
Qed.

Lemma page_key src dest_dir k :
  lower (name (page_path src dest_dir k))
    = lower (stem (name src)) +:+ lower ("_p" +:+ pretty k +:+ ".pdf").
Proof. by rewrite page_name_eq, lower_app. Qed.

(** Up to nine pages, the names of the page documents are in the order
    of the page numbers, and differ. *)
Lemma page_key_le src dest_dir (j k : Z) :
  (1 ≤ j ≤ 9)%Z → (1 ≤ k ≤ 9)%Z → (j ≤ k)%Z →
  String.leb (lower (name (page_path src dest_dir j)))
             (lower (name (page_path src dest_dir k))) = true.
Proof.
  intros Hj Hk Hjk. rewrite !page_key, leb_app_prefix.
  assert (j = 1 ∨ j = 2 ∨ j = 3 ∨ j = 4 ∨ j = 5 ∨ j = 6 ∨ j = 7 ∨ j = 8
          ∨ j = 9)%Z as Hj' by lia.
  assert (k = 1 ∨ k = 2 ∨ k = 3 ∨ k = 4 ∨ k = 5 ∨ k = 6 ∨ k = 7 ∨ k = 8
          ∨ k = 9)%Z as Hk' by lia.
  clear Hj Hk.
  repeat (destruct Hj' as [->|Hj']); subst;
    repeat (destruct Hk' as [->|Hk']); subst; try lia; reflexivity.
Qed.

Lemma page_key_inj src dest_dir (j k : Z) :
  (1 ≤ j ≤ 9)%Z → (1 ≤ k ≤ 9)%Z →
  lower (name (page_path src dest_dir j)) = lower (name (page_path src dest_dir k)) →
  j = k.
Proof.
  intros Hj Hk. rewrite !page_key. intros Heq%String.app_inj.
  assert (j = 1 ∨ j = 2 ∨ j = 3 ∨ j = 4 ∨ j = 5 ∨ j = 6 ∨ j = 7 ∨ j = 8
          ∨ j = 9)%Z as Hj' by lia.
  assert (k = 1 ∨ k = 2 ∨ k = 3 ∨ k = 4 ∨ k = 5 ∨ k = 6 ∨ k = 7 ∨ k = 8
          ∨ k = 9)%Z as Hk' by lia.
  clear Hj Hk.
  repeat (destruct Hj' as [->|Hj']); subst;
    repeat (destruct Hk' as [->|Hk']); subst; done.
Qed.

End OrderFacts.

Section RoundTrip.
Context {Page Image : Type} (render : Image → Page).
Implicit Types (st : gmap path (@node Page Image)) (p q : path).
Implicit Types (reader : list Page).

Lemma enumerate_lookup {A} (start : Z) (xs : list A) (i : nat) :
  enumerate start xs !! i = (λ x, (start + Z.of_nat i, x)%Z) <$> xs !! i.
Proof.
  revert start i. induction xs as [|x xs IH]; intros start [|i]; try done.
  - cbn. do 2 f_equal. lia.
  - cbn. rewrite IH. destruct (xs !! i); [|done]. cbn. do 2 f_equal. lia.
Qed.

Lemma enumerate_elem_of {A} (start k : Z) (x : A) (xs : list A) :
  (k, x) ∈ enumerate start xs →
  (start ≤ k < start + Z.of_nat (length xs))%Z
  ∧ xs !! Z.to_nat (k - start) = Some x.
Proof.
  intros [i Hi]%list_elem_of_lookup. rewrite enumerate_lookup in Hi.
  destruct (xs !! i) as [y|] eqn:E; [|done]. cbn in Hi. injection Hi as <- <-.
  apply lookup_lt_Some in E as Hlt. split; [lia|].
  by replace (Z.to_nat (start + Z.of_nat i - start)) with i by lia.
Qed.

Lemma enumerate_snd {A} (start : Z) (xs : list A) : (enumerate start xs).*2 = xs.
Proof.
  revert start. induction xs as [|x xs IH]; intros start; [done|].
  cbn. by rewrite IH.
Qed.

Lemma sorted_already {A} (key : A → string) (l : list A) :
  StronglySorted (key_le key) l → sorted key l = l.
Proof.
  induction 1 as [|x l Hl IH Hx]; [done|].
  cbn [sorted foldr]. fold (sorted key l). rewrite IH.
  by apply insert_sorted_head.
Qed.

(** The entries of the page documents, in the order of the pages, are
    in the order of the manifest when there are nine pages at most. *)
Lemma page_entries_sorted src dest_dir (start : Z) reader :
  (1 ≤ start)%Z → (start + Z.of_nat (length reader) ≤ 10)%Z →
  StronglySorted (key_le name_key)
    (page_entry (Image := Image) src dest_dir <$> enumerate start reader).
Proof.
  revert start. induction reader as [|page reader IH]; intros start Hs Hlen.
  { constructor. }
  cbn [enumerate fmap list_fmap]. cbn [length] in Hlen. constructor.
  - apply IH; lia.
  - apply Forall_fmap, Forall_forall. intros [k pg] Hin.
    apply enumerate_elem_of in Hin as [Hk _].
    unfold compose, key_le, name_key, page_entry. cbn [d_name fst snd].
    apply (page_key_le src dest_dir); cbn [fst]; lia.
Qed.

Lemma page_entries_resolve src dest_dir (items : list (Z * Page)) :
  Forall (λ f, resolves f = true)
    (page_entry (Image := Image) src dest_dir <$> items).
Proof.
  apply Forall_fmap, Forall_forall. intros [k pg] _.
  unfold compose, resolves, page_entry. cbn [d_name d_data fst snd].
  by rewrite page_name_kind.
Qed.

Lemma page_entries_pages src dest_dir (items : list (Z * Page)) :
  concat (source_pages render <$> (page_entry src dest_dir <$> items)) = items.*2.
Proof.
  induction items as [|[k pg] items IH]; [done|].
  cbn [fmap list_fmap concat]. rewrite IH.
  unfold source_pages, page_entry at 1. cbn [d_name d_data fst snd].
  by rewrite page_name_kind.
Qed.

(** After a split by page into a directory that held nothing, the
    directory holds the page documents, each under its own name, and
    nothing else. *)
Lemma split_by_page_dir src dest_dir overwrite st reader :
  node_at st src = Some (File (Pdf reader)) →
  no_file_above st dest_dir = true →
  (∀ n, st !! (n :: dest_dir) = None) →
  let st' := final_state (split_pdf src dest_dir None overwrite st) in
  let page_name := λ it : Z * Page, name (page_path src dest_dir it.1) in
  split_pdf src dest_dir None overwrite st = Done tt st'
  ∧ (∀ k pg, (k, pg) ∈ enumerate 1 reader →
       st' !! page_path src dest_dir k = Some (File (Pdf [pg])))
  ∧ (∀ n, is_Some (st' !! (n :: dest_dir)) ↔ n ∈ page_name <$> enumerate 1 reader)
  ∧ NoDup (page_name <$> enumerate 1 reader).
Proof.
  intros Hsrc Habove Hempty st' page_name.
  (* the split *)
  destruct (mkdir_parents_ok dest_dir st Habove) as (st2 & Hmk & Hmade).
  destruct (split_pages_loop src dest_dir overwrite reader 1 st2)
    as (st1 & Hrun & Hpages & Hframe).
  { by apply mkdir_parents_Done in Hmk. }
  { intros k Hk. unfold page_path.
    rewrite (target_free_dirs_made _ _ st st2) by done.
    unfold target_free. by rewrite Hempty. }
  assert (split_pdf src dest_dir None overwrite st = Done tt st1) as Hsplit.
  { rewrite split_pdf_unfold.
    rewrite (proj2 (PdfReader_Done src st reader st)) by done. by rewrite Hmk. }
  subst st'. rewrite Hsplit. cbn [final_state].
  split; [done|].
  set (items := enumerate 1 reader).
  assert (∀ k pg, (k, pg) ∈ items →
            st1 !! page_path src dest_dir k = Some (File (Pdf [pg]))) as Hdocs.
  { intros k pg [Hk Hpg]%enumerate_elem_of.
    specialize (Hpages _ _ Hpg).
    by replace (1 + Z.of_nat (Z.to_nat (k - 1)))%Z with k in Hpages by lia. }
  split; [done|]. split.
  { intros n. split.
    - intros Hsome.
      destruct (decide (n ∈ page_name <$> items)) as [|Hnot]; [done|].
      exfalso. rewrite Hframe in Hsome.
      + rewrite (dirs_made_frame dest_dir st st2) in Hsome;
          [|done|apply suffix_cons_not].
        rewrite Hempty in Hsome. by destruct Hsome.
      + intros k Hk Heq. apply Hnot. apply list_elem_of_fmap.
        destruct (lookup_lt_is_Some_2 reader (Z.to_nat (k - 1))) as [pg Hpg]; [lia|].
        exists (k, pg). split; [by injection Heq|].
        apply list_elem_of_lookup. exists (Z.to_nat (k - 1)).
        unfold items. rewrite enumerate_lookup, Hpg. cbn. do 2 f_equal. lia.
    - intros ([k pg] & -> & Hin)%list_elem_of_fmap. unfold page_name.
      change (name (page_path src dest_dir (k, pg).1) :: dest_dir)
        with (page_path src dest_dir k).
      rewrite (Hdocs k pg Hin). by eexists. }
  apply NoDup_fmap_2_strong.
  - intros [j pj] [k pk] Hj Hk Heq. unfold page_name in Heq. cbn [fst] in Heq.
    assert (j = k) as ->.
    { apply (page_path_inj src dest_dir). unfold page_path. f_equal. exact Heq. }
    apply enumerate_elem_of in Hj as [_ Hj], Hk as [_ Hk]. congruence.
  - apply (NoDup_fmap_1 fst). unfold items.
    assert (∀ (s : Z) (l : list Page), (enumerate s l).*1 = seqZ s (Z.of_nat (length l)))
      as Hfst.
    { intros s l. revert s. induction l as [|x l IH]; intros s; [done|].
      cbn [enumerate fmap list_fmap length]. rewrite IH.
      rewrite (seqZ_cons s) by lia. do 2 f_equal; lia. }
    rewrite Hfst. apply NoDup_seqZ.
Qed.

(** The names of the page documents list the directory. *)
Lemma split_by_page_lists_dir src dest_dir overwrite st reader :
  node_at st src = Some (File (Pdf reader)) →
  no_file_above st dest_dir = true →
  (∀ n, st !! (n :: dest_dir) = None) →
  lists_dir (final_state (split_pdf src dest_dir None overwrite st)) dest_dir
    ((λ it : Z * Page, name (page_path src dest_dir it.1)) <$> enumerate 1 reader).
Proof.
  intros Hsrc Habove Hempty.
  destruct (split_by_page_dir src dest_dir overwrite st reader)
    as (_ & _ & Hnames & Hnd); [done..|].
  split; [done|]. intros n. by rewrite Hnames.
Qed.

Lemma lists_dir_perm st dir names names' :
  names ≡ₚ names' → lists_dir st dir names → lists_dir st dir names'.
Proof.
  intros Hperm [Hnd Hnames]. split; [by rewrite <-Hperm|].
  intros n. by rewrite <-Hperm.
Qed.

(** After a split by page into a directory that held nothing, the
    regular files the directory lists are the page documents. *)
Lemma split_by_page_listing src dest_dir overwrite st reader names :
  node_at st src = Some (File (Pdf reader)) →
  no_file_above st dest_dir = true →
  (∀ n, st !! (n :: dest_dir) = None) →
  let st' := final_state (split_pdf src dest_dir None overwrite st) in
  lists_dir st' dest_dir names →
  split_pdf src dest_dir None overwrite st = Done tt st'
  ∧ filter (λ f, d_is_file f) (dirents_of st' dest_dir names)
      ≡ₚ page_entry src dest_dir <$> enumerate 1 reader.
Proof.
  intros Hsrc Habove Hempty st'.
  destruct (split_by_page_dir src dest_dir overwrite st reader)
    as (Hsplit & Hdocs & Hsome & Hnd'); [done..|].
  fold st' in Hsplit, Hdocs, Hsome. intros [Hnd Hnames].
  split; [done|].
  set (items := enumerate 1 reader) in *.
  set (expected := page_entry (Image := Image) src dest_dir <$> items).
  assert (∀ n, n ∈ names ↔ n ∈ (λ it, name (page_path src dest_dir it.1)) <$> items)
    as Hsame.
  { intros n. by rewrite Hnames, Hsome. }
  assert (dirents_of st' dest_dir names ≡ₚ expected) as Hperm.
  { unfold dirents_of. rewrite (NoDup_Permutation _ _ Hnd Hnd' Hsame).
    rewrite <-list_fmap_compose. unfold expected.
    match goal with |- ?l ≡ₚ ?r => assert (l = r) as ->; [|done] end.
    apply Forall_fmap_ext, Forall_forall. intros [k pg] Hin.
    unfold compose, page_entry. cbn [fst snd].
    change (name (page_path src dest_dir k) :: dest_dir)
      with (page_path src dest_dir k).
    by rewrite (Hdocs k pg Hin). }
  rewrite Hperm.
  match goal with |- ?l ≡ₚ ?r => assert (l = r) as ->; [|done] end.
  unfold expected. clear.
  induction items as [|it items IH]; [done|].
  cbn [fmap list_fmap]. rewrite filter_cons.
  rewrite decide_True by done. by rewrite IH.
Qed.

(** X22.  Round trip, up to nine pages.  Splitting a document of one
    to nine pages by page into a directory that holds nothing else, and
    merging that directory, in whatever order it is listed, gives the
    document back: the same pages in the same order. *)
Theorem split_then_merge src dest_dir overwrite st reader names output_pdf :
  node_at st src = Some (File (Pdf reader)) →
  no_file_above st dest_dir = true →
  (∀ n, st !! (n :: dest_dir) = None) →
  0 < length reader ≤ 9 →
  let st' := final_state (split_pdf src dest_dir None overwrite st) in
  lists_dir st' dest_dir names →
  is_dir st' (parent output_pdf) = true →
  node_at st' output_pdf ≠ Some Dir →
  split_pdf src dest_dir None overwrite st = Done tt st'
  ∧ merge_directory render dest_dir (dirents_of st' dest_dir names) output_pdf st'
      = Done tt (<[output_pdf := File (Pdf reader)]> st').
Proof.
  intros Hsrc Habove Hempty Hlen st' Hlist Hdir Hout.
  destruct (split_by_page_listing src dest_dir overwrite st reader names)
    as [Hsplit Hfiles]; [done..|].
  fold st' in Hsplit, Hfiles. split; [done|].
  set (expected := page_entry (Image := Image) src dest_dir <$> enumerate 1 reader)
    in *.
  (* the manifest is the page documents in the order of the pages *)
  assert (StronglySorted (key_le name_key) expected) as Hsorted.
  { apply page_entries_sorted; lia. }
  assert (sorted name_key (filter (λ f, d_is_file f) (dirents_of st' dest_dir names))
          = expected) as Hmanifest.
  { apply (StronglySorted_unique_strong (key_le name_key));
      [|apply sorted_StronglySorted|done|by rewrite sorted_perm].
    intros x y Hx Hy Hxy Hyx. rewrite sorted_perm, Hfiles in Hx.
    apply list_elem_of_fmap in Hx as ([j pj] & -> & Hj).
    apply list_elem_of_fmap in Hy as ([k pk] & -> & Hk).
    assert (name_key (page_entry (Image := Image) src dest_dir (j, pj))
            = name_key (page_entry (Image := Image) src dest_dir (k, pk))) as Hkey.
    { apply (anti_symm String.le); by apply Is_true_true. }
    apply enumerate_elem_of in Hj as [Hj Hpj], Hk as [Hk Hpk].
    unfold name_key, page_entry in Hkey. cbn [d_name fst snd] in Hkey.
    apply page_key_inj in Hkey; [|lia..]. subst k. congruence. }
  (* the merge *)
  rewrite merge_directory_unfold.
  change (sorted (λ f : dirent, PyStr.lower (d_name f))) with (sorted (@name_key Page Image)).
  rewrite Hmanifest.
  assert (expected ≠ []) as Hne.
  { unfold expected. destruct reader; [cbn in Hlen; lia|done]. }
  destruct expected as [|f fs] eqn:E; [done|]. rewrite <-E.
  rewrite merge_files_resolve by apply page_entries_resolve.
  cbn [app]. unfold expected. rewrite page_entries_pages.
  rewrite enumerate_snd.
  by apply open_write_in_dir.
Qed.

End RoundTrip.

Section PageOrder.
Import PyStr PyStrFacts IntFacts ParseFacts.

Lemma lower_digits (s : string) : all_digits s = true → lower s = s.
Proof.
  induction s as [|c s IH]; [done|]. cbn [all_digits lower].
  intros [Hc Hs]%andb_prop. rewrite IH by done. f_equal.
  clear -Hc. by_cases_on_char c.
Qed.

Lemma dot_before_digit (c : ascii) : is_digit c = true → Ascii.compare "." c = Lt.
Proof. by_cases_on_char c. Qed.

Lemma leb_dot_pdf (t : string) : after_digits t → String.leb ".pdf" t = true.
Proof.
  intros [->|(c & t' & -> & Hc)]; [done|].
  unfold String.leb. cbn [String.compare]. by rewrite dot_before_digit.
Qed.

Lemma pretty_N_go_small (n : N) (t : string) :
  (0 < n < 10)%N → pretty_N_go n t = String (pretty_N_char n) t.
Proof.
  intros Hn. rewrite pretty_N_go_step by lia.
  rewrite N.div_small, N.mod_small by lia. apply pretty_N_go_0.
Qed.

Lemma small_N (n : N) :
  (0 < n < 10)%N →
  (n = 1 ∨ n = 2 ∨ n = 3 ∨ n = 4 ∨ n = 5 ∨ n = 6 ∨ n = 7 ∨ n = 8 ∨ n = 9)%N.
Proof. lia. Qed.

(** The name of page 1 comes before the names of all pages. *)
Lemma leb_page_1 (n : N) (t : string) :
  (1 ≤ n)%N → after_digits t → String.leb "1.pdf" (pretty_N_go n t) = true.
Proof.
  revert t. induction (N.lt_wf_0 n) as [n _ IH]; intros t Hn Ht.
  destruct (decide (n < 10)%N) as [Hsmall|Hbig].
  - rewrite pretty_N_go_small by lia.
    pose proof (small_N n ltac:(lia)) as [->|Hn'].
    + unfold String.leb. cbn [String.compare pretty_N_char].
      rewrite ascii_compare_refl. by apply leb_dot_pdf.
    + repeat (destruct Hn' as [->|Hn']); subst; done.
  - rewrite pretty_N_go_step by lia. apply IH.
    + apply N.div_lt; lia.
    + apply N.div_le_lower_bound; lia.
    + right. eexists _, _. split; [done|].
      apply pretty_N_char_digit. by apply N.mod_lt.
Qed.

(** The name of page 10 comes before the names of all pages from 2 on. *)
Lemma leb_page_10 (n : N) (t : string) :
  (2 ≤ n)%N → after_digits t → String.leb "10.pdf" (pretty_N_go n t) = true.
Proof.
  revert t. induction (N.lt_wf_0 n) as [n _ IH]; intros t Hn Ht.
  destruct (decide (n < 10)%N) as [Hsmall|Hbig].
  - rewrite pretty_N_go_small by lia.
    pose proof (small_N n ltac:(lia)) as [->|Hn']; [lia|].
    repeat (destruct Hn' as [->|Hn']); subst; done.
  - rewrite pretty_N_go_step by lia.
    destruct (decide (n `div` 10 = 1)%N) as [Hone|Hmore].
    + rewrite Hone, pretty_N_go_small by lia.
      unfold String.leb. cbn [String.compare pretty_N_char].
      rewrite ascii_compare_refl.
      assert (n `mod` 10 < 10)%N as Hd by (by apply N.mod_lt).
      generalize dependent (n `mod` 10)%N. intros d Hd.
      destruct (decide (d = 0)%N) as [->|Hnz].
      * cbn [pretty_N_char]. rewrite ascii_compare_refl. by apply leb_dot_pdf.
      * pose proof (small_N d ltac:(lia)) as Hn'.
        repeat (destruct Hn' as [->|Hn']; [done|]). by subst.
    + apply IH.
      * apply N.div_lt; lia.
      * assert (1 ≤ n `div` 10)%N by (apply N.div_le_lower_bound; lia). lia.
      * right. eexists _, _. split; [done|].
        apply pretty_N_char_digit. by apply N.mod_lt.
Qed.

Lemma pretty_pos_go (k : Z) (t : string) :
  (1 ≤ k)%Z → pretty k +:+ t = pretty_N_go (Z.to_N k) t.
Proof.
  intros Hk. destruct k as [|p|p]; try lia.
  change (pretty (Z.pos p)) with (pretty (N.pos p)).
  unfold pretty, pretty_N. rewrite decide_False by done.
  by rewrite <-pretty_N_go_app.
Qed.

(** The key of the page document of a page, for the sort of the merge. *)
Lemma page_key_digits src dest_dir (k : Z) :
  (0 ≤ k)%Z →
  lower (name (page_path src dest_dir k))
    = lower (stem (name src) +:+ "_p") +:+ pretty k +:+ ".pdf".
Proof.
  intros Hk. rewrite page_name_eq.
  rewrite <-(append_assoc (stem (name src)) "_p"), !lower_app.
  rewrite (lower_digits (pretty k)); [done|].
  by apply is_number_all_digits, pretty_nonneg_number.
Qed.

Lemma page_key_inj_all src dest_dir (j k : Z) :
  (0 ≤ j)%Z → (0 ≤ k)%Z →
  lower (name (page_path src dest_dir j)) = lower (name (page_path src dest_dir k)) →
  j = k.
Proof.
  intros Hj Hk. rewrite !page_key_digits by done.
  intros Heq%String.app_inj%append_inj_r. by apply (inj pretty).
Qed.

Lemma page_key_le_1 src dest_dir (k : Z) :
  (1 ≤ k)%Z →
  String.leb (lower (name (page_path src dest_dir 1)))
             (lower (name (page_path src dest_dir k))) = true.
Proof.
  intros Hk. rewrite !page_key_digits, leb_app_prefix by lia.
  rewrite (pretty_pos_go k) by done. apply leb_page_1; [lia|by left].
Qed.

Lemma page_key_le_10 src dest_dir (k : Z) :
  (2 ≤ k)%Z →
  String.leb (lower (name (page_path src dest_dir 10)))
             (lower (name (page_path src dest_dir k))) = true.
Proof.
  intros Hk. rewrite !page_key_digits, leb_app_prefix by lia.
  rewrite (pretty_pos_go k) by lia. apply leb_page_10; [lia|by left].
Qed.

End PageOrder.

Section PageOrderTen.
Context {Page Image : Type} (render : Image → Page).
Implicit Types (st : gmap path (@node Page Image)).
Implicit Types (reader : list Page).

Lemma enumerate_app {A} (start : Z) (xs ys : list A) :
  enumerate start (xs ++ ys)
    = enumerate start xs ++ enumerate (start + Z.of_nat (length xs)) ys.
Proof.
  revert start. induction xs as [|x xs IH]; intros start.
  { cbn [app enumerate length]. f_equal. lia. }
  cbn [app enumerate length]. rewrite IH. do 3 f_equal. lia.
Qed.

Lemma insert_sorted_fmap {A B} (f : A → B) (key : B → string) (x : A) (l : list A) :
  insert_sorted key (f x) (f <$> l) = f <$> insert_sorted (key ∘ f) x l.
Proof.
  induction l as [|y l IH]; [done|]. cbn [fmap list_fmap insert_sorted compose].
  destruct (String.leb (key (f x)) (key (f y))); [done|].
  cbn [fmap list_fmap]. f_equal. apply IH.
Qed.

Lemma sorted_fmap {A B} (f : A → B) (key : B → string) (l : list A) :
  sorted key (f <$> l) = f <$> sorted (key ∘ f) l.
Proof.
  induction l as [|x l IH]; [done|].
  cbn [fmap list_fmap sorted foldr]. fold (sorted key (f <$> l)).
  fold (sorted (key ∘ f) l). by rewrite IH, insert_sorted_fmap.
Qed.

(** X23.  With ten pages or more the round trip does not keep the order
    of the pages: the merge sorts the page documents by name, and the
    name of page 10 comes right after the name of page 1.  The merged
    document holds the pages of the source, page 1 first and page 10
    second. *)
Theorem split_then_merge_ten src dest_dir overwrite st reader names output_pdf :
  node_at st src = Some (File (Pdf reader)) →
  no_file_above st dest_dir = true →
  (∀ n, st !! (n :: dest_dir) = None) →
  10 ≤ length reader →
  let st' := final_state (split_pdf src dest_dir None overwrite st) in
  lists_dir st' dest_dir names →
  is_dir st' (parent output_pdf) = true →
  node_at st' output_pdf ≠ Some Dir →
  ∃ page1 page10 rest,
    reader !! 0 = Some page1
    ∧ reader !! 9 = Some page10
    ∧ page1 :: page10 :: rest ≡ₚ reader
    ∧ merge_directory render dest_dir (dirents_of st' dest_dir names)
        output_pdf st'
        = Done tt (<[output_pdf := File (Pdf (page1 :: page10 :: rest))]> st').
Proof.
  intros Hsrc Habove Hempty Hlen st' Hlist Hdir Hout.
  destruct (split_by_page_listing src dest_dir overwrite st reader names)
    as [_ Hfiles]; [done..|].
  fold st' in Hfiles.
  (* page 1, pages 2 to 9, page 10, and the rest *)
  destruct reader as [|page1 r]; [cbn in Hlen; lia|]. cbn [length] in Hlen.
  destruct (drop 8 r) as [|page10 tl] eqn:Hdrop.
  { apply (f_equal length) in Hdrop. rewrite length_drop in Hdrop. cbn in Hdrop. lia. }
  set (mid := take 8 r).
  assert (r = mid ++ page10 :: tl) as Hr by (unfold mid; by rewrite <-Hdrop, take_drop).
  assert (length mid = 8) as Hmid by (unfold mid; rewrite length_take; lia).
  clearbody mid. subst r. clear Hdrop.
  set (key' := (@name_key Page Image) ∘ page_entry src dest_dir).
  set (others := enumerate 2 mid ++ enumerate 11 tl).
  set (items := (1%Z, page1) :: (10%Z, page10) :: sorted key' others).
  assert (enumerate 1 (page1 :: mid ++ page10 :: tl)
          ≡ₚ items) as Hitems.
  { cbn [enumerate]. rewrite enumerate_app. cbn [enumerate]. rewrite Hmid.
    unfold items. rewrite sorted_perm. unfold others.
    by rewrite <-Permutation_middle. }
  assert (∀ k pg, (k, pg) ∈ items →
            (1 ≤ k)%Z ∧ (page1 :: mid ++ page10 :: tl) !! Z.to_nat (k - 1) = Some pg)
    as Hin_items.
  { intros k pg Hin. rewrite <-Hitems in Hin.
    apply enumerate_elem_of in Hin as [Hk Hpg]. split; [lia|done]. }
  assert (∀ k pg, (k, pg) ∈ others → (2 ≤ k)%Z) as Hothers.
  { intros k pg [Hin|Hin]%elem_of_app; apply enumerate_elem_of in Hin as [? _]; lia. }
  exists page1, page10, (sorted key' others).*2. split; [done|]. split.
  { change ((page1 :: mid ++ page10 :: tl) !! 9) with ((mid ++ page10 :: tl) !! 8).
    rewrite lookup_app_r by lia. by rewrite Hmid. }
  split.
  { rewrite sorted_perm. unfold others.
    rewrite fmap_app, !enumerate_snd. by rewrite <-Permutation_middle. }
  (* the manifest *)
  assert (StronglySorted (key_le name_key)
            (page_entry (Image := Image) src dest_dir <$> items)) as Hsorted.
  { unfold items. cbn [fmap list_fmap]. constructor; [constructor|].
    - unfold key'. rewrite <-(sorted_fmap (page_entry src dest_dir) name_key).
      apply sorted_StronglySorted.
    - apply Forall_fmap, Forall_forall. intros [k pg] Hin.
      rewrite sorted_perm in Hin. apply Hothers in Hin.
      unfold compose, key_le, name_key, page_entry. cbn [d_name fst snd].
      by apply page_key_le_10.
    - constructor.
      { unfold key_le, name_key, page_entry. cbn [d_name fst snd].
        by apply page_key_le_1. }
      apply Forall_fmap, Forall_forall. intros [k pg] Hin.
      rewrite sorted_perm in Hin. apply Hothers in Hin.
      unfold compose, key_le, name_key, page_entry. cbn [d_name fst snd].
      apply page_key_le_1. lia. }
  assert (sorted name_key (filter (λ f, d_is_file f) (dirents_of st' dest_dir names))
          = page_entry src dest_dir <$> items) as Hmanifest.
  { apply (StronglySorted_unique_strong (key_le name_key));
      [|apply sorted_StronglySorted|done|by rewrite sorted_perm, Hfiles, Hitems].
    intros x y Hx Hy Hxy Hyx. rewrite sorted_perm, Hfiles, Hitems in Hx.
    apply list_elem_of_fmap in Hx as ([j pj] & -> & Hj).
    apply list_elem_of_fmap in Hy as ([k pk] & -> & Hk).
    assert (name_key (page_entry (Image := Image) src dest_dir (j, pj))
            = name_key (page_entry (Image := Image) src dest_dir (k, pk))) as Hkey.
    { apply (anti_symm String.le); by apply Is_true_true. }
    apply Hin_items in Hj as [Hj Hpj], Hk as [Hk Hpk].
    unfold name_key, page_entry in Hkey. cbn [d_name fst snd] in Hkey.
    apply page_key_inj_all in Hkey; [|lia..]. subst k. congruence. }
  (* the merge *)
  rewrite merge_directory_unfold.
  change (sorted (λ f : dirent, PyStr.lower (d_name f))) with (sorted (@name_key Page Image)).
  rewrite Hmanifest.
  destruct (page_entry (Image := Image) src dest_dir <$> items) as [|f fs] eqn:E;
    [done|]. rewrite <-E.
  rewrite merge_files_resolve by apply page_entries_resolve.
  cbn [app]. rewrite page_entries_pages.
  by apply open_write_in_dir.
Qed.

End PageOrderTen.

Lemma split_then_merge_witness :
  let st' := final_state (split_pdf letter out_dir None false letter_fs) in
  split_pdf letter out_dir None false letter_fs = Done tt st'
  ∧ merge_directory (λ img, img) out_dir
      (dirents_of st' out_dir ["letter_p3.pdf"; "letter_p2.pdf"; "letter_p1.pdf"])
      ["merged.pdf"; "home"] st'
    = Done tt (<[["merged.pdf"; "home"] := File (Pdf [7; 8; 9])]> st').
Proof.
  apply (split_then_merge (λ img, img) letter out_dir false letter_fs [7; 8; 9]
           ["letter_p3.pdf"; "letter_p2.pdf"; "letter_p1.pdf"]
           ["merged.pdf"; "home"]).
  - reflexivity.
  - reflexivity.
  - intros n. unfold letter_fs. by rewrite !lookup_insert_ne.
  - cbn. lia.
  - apply (lists_dir_perm _ _
             (reverse ["letter_p3.pdf"; "letter_p2.pdf"; "letter_p1.pdf"]));
      [apply reverse_Permutation|].
    by apply (split_by_page_lists_dir letter out_dir false letter_fs [7; 8; 9]).
  - reflexivity.
  - by vm_compute.
Defined.

Lemma split_then_merge_ten_witness :
  let st' := final_state (split_pdf report out_dir None false home_fs) in
  ∃ rest,
    merge_directory (λ img, img) out_dir
      (dirents_of st' out_dir
         ((λ k, "report_p" +:+ pretty k +:+ ".pdf") <$> seqZ 1 10))
      ["merged.pdf"; "home"] st'
    = Done tt (<[["merged.pdf"; "home"] := File (Pdf (1 :: 10 :: rest))]> st').
Proof.
  intros st'.
  destruct (split_then_merge_ten (λ img, img) report out_dir false home_fs
              ten_pages ((λ k, "report_p" +:+ pretty k +:+ ".pdf") <$> seqZ 1 10)
              ["merged.pdf"; "home"])
    as (page1 & page10 & rest & [= <-] & [= <-] & _ & Hrun).
  - reflexivity.
  - reflexivity.
  - intros n. unfold home_fs. by rewrite !lookup_insert_ne.
  - cbn. lia.
  - by apply (split_by_page_lists_dir report out_dir false home_fs ten_pages).
  - reflexivity.
  - by vm_compute.
  - by exists rest.
Defined.
